(** * mathy: the expression tree, its rendering, evaluation and the
    commutative swap rule, embedded over an explicit object store.

    Sources embedded here:
    - [mathy/core/expressions.py]  (node kinds, rendering, evaluate,
      differentiate, type ids, tracked cloning)
    - [mathy/core/rules/commutative_property.py]  (CommutativeSwapRule)
    - [mathy/helpers.py]  (get_term, terms_are_like)

    Python objects are mutable and shared by reference, so nodes live in a
    store (a list indexed by address) and every link ([left], [right],
    [parent]) is an optional address.  Recursive methods that follow links
    take a fuel argument; running out of fuel is a separate outcome, never
    confused with a Python exception. *)

From Stdlib Require Import ZArith Bool Ascii.
From Stdlib Require Import DecimalString.
From stdpp Require Import base list strings gmap.

(** ** Outcomes of a call *)

(** The Python exceptions the embedded code can raise. *)
Inductive exn :=
| KeyError (key : string)
| TypeError
| AttributeError
| IndexError
| ValueError (msg : string)
| ArithmeticError (msg : string)
| Exception (msg : string)
| InapplicableRule.

(** [Ok] is a normal return, [Raise] a Python exception.  [OutOfFuel] and
    [Dangling] belong to the model only: the recursion budget ran out, or an
    address does not name an object of the store. *)
Inductive res (A : Type) :=
| Ok (a : A)
| Raise (e : exn)
| OutOfFuel
| Dangling.
Arguments Ok {A} a.
Arguments Raise {A} e.
Arguments OutOfFuel {A}.
Arguments Dangling {A}.

Definition bind_res {A B} (m : res A) (k : A -> res B) : res B :=
  match m with
  | Ok a => k a
  | Raise e => Raise e
  | OutOfFuel => OutOfFuel
  | Dangling => Dangling
  end.

Notation "'let*' x ':=' m 'in' k" := (bind_res m (fun x => k))
  (at level 10, x pattern, m at level 100, k at level 200).

(** ** Numbers

    Arithmetic is Python's and numpy's, not the repository's: the code only
    calls it.  It is taken as an interface; operations that Python can refuse
    (overflow on conversion, numpy's integer powers) return a [res]. *)
Class Num (num : Type) := {
  num_add : num -> num -> res num;        (* one + two *)
  num_sub : num -> num -> res num;        (* one - two *)
  num_mul : num -> num -> res num;        (* one * two *)
  num_truediv : num -> num -> res num;    (* one / two *)
  numpy_power : num -> num -> res num;    (* numpy.power(one, two) *)
  num_neg : num -> num;                   (* -value *)
  numpy_absolute : num -> num;            (* numpy.absolute(value) *)
  num_eqb : num -> num -> bool;           (* one == two *)
  num_ltb : num -> num -> bool;           (* one < two *)
  num_of_Z : Z -> num;                    (* an int literal *)
  num_nan : num;                          (* float("nan") *)
  num_int_mod : num -> Z -> res Z;        (* int(value % m) *)
  num_str : num -> string                 (* "{}".format(value) *)
}.

(** The two laws the swap rule relies on. *)
Class NumCommutative (num : Type) `{Num num} : Prop := {
  num_add_comm : forall a b, num_add a b = num_add b a;
  num_mul_comm : forall a b, num_mul a b = num_mul b a
}.

(** Python ints inside the interface: [int(z % m)] is the floor remainder. *)
Class NumIntegers (num : Type) `{Num num} : Prop := {
  num_int_mod_of_Z : forall z m, (0 < m)%Z -> num_int_mod (num_of_Z z) m = Ok (z mod m)%Z
}.

(** [colr.color(text, fore=..., style=...)], a terminal library. *)
Class Colr := { colr_color : string -> string }.

(** [str.lower] on one ASCII character. *)
Definition ascii_lower (c : ascii) : ascii :=
  let n := nat_of_ascii c in
  if (65 <=? n)%nat && (n <=? 90)%nat then ascii_of_nat (n + 32) else c.

(** Text is Python's too: an identifier is Unicode text, and [str.lower]
    follows the Unicode tables (the Kelvin sign lowers to [k]).  The one use
    the code makes of it is taken as an interface: [lower_first s] is
    [s.lower()[0]], the first character of the lowered text, for a non-empty
    [s]. *)
Class Str := { lower_first : string -> string }.

(** On text that starts with an ASCII character, [lower] maps that
    character alone: an upper-case letter to its lower-case letter, any other
    to itself. *)
Class StrAscii `{Str} : Prop := {
  lower_first_ascii : forall c s,
    (nat_of_ascii c < 128)%nat -> lower_first (String c s) = String (ascii_lower c) ""
}.

Definition string_of_Z (z : Z) : string := NilZero.string_of_int (Z.to_int z).

(** A concrete carrier: Python ints, and the float [nan] that a division by
    zero produces.  Other floats are not represented, so the operations
    whose result would be one ([/] on ints, [numpy.power]) are refused with
    an [ArithmeticError]; the concrete trees below use [+ - *] only. *)
Inductive pynum :=
| PyInt (z : Z)
| PyNaN.

Definition pynum_lift2 (f : Z -> Z -> Z) (a b : pynum) : res pynum :=
  match a, b with
  | PyInt x, PyInt y => Ok (PyInt (f x y))
  | _, _ => Ok PyNaN
  end.

Definition pynum_lift1 (f : Z -> Z) (a : pynum) : pynum :=
  match a with
  | PyInt x => PyInt (f x)
  | PyNaN => PyNaN
  end.

Definition pynum_test2 (f : Z -> Z -> bool) (a b : pynum) : bool :=
  match a, b with
  | PyInt x, PyInt y => f x y
  | _, _ => false
  end.

#[export] Instance pynum_Num : Num pynum := {|
  num_add := pynum_lift2 Z.add;
  num_sub := pynum_lift2 Z.sub;
  num_mul := pynum_lift2 Z.mul;
  num_truediv a b :=
    match a, b with
    | PyInt _, PyInt _ => Raise (ArithmeticError "float result")
    | _, PyInt 0 => Raise (ArithmeticError "float division by zero")
    | _, _ => Ok PyNaN
    end;
  numpy_power _ _ := Raise (ArithmeticError "numpy result");
  num_neg := pynum_lift1 Z.opp;
  numpy_absolute := pynum_lift1 Z.abs;
  num_eqb := pynum_test2 Z.eqb;
  num_ltb := pynum_test2 Z.ltb;
  num_of_Z := PyInt;
  num_nan := PyNaN;
  num_int_mod a m :=
    match a with
    | PyInt x => Ok (x mod m)%Z
    | PyNaN => Raise (ValueError "cannot convert float NaN to integer")
    end;
  num_str a :=
    match a with
    | PyInt x => string_of_Z x
    | PyNaN => "nan"
    end
|}.

Definition pynum_lift2_comm (f : Z -> Z -> Z) (Hf : forall x y, f x y = f y x)
  (a b : pynum) : pynum_lift2 f a b = pynum_lift2 f b a :=
  match a, b with
  | PyInt x, PyInt y => f_equal (fun z => Ok (PyInt z)) (Hf x y)
  | PyInt _, PyNaN | PyNaN, PyInt _ | PyNaN, PyNaN => eq_refl
  end.

#[export] Instance pynum_NumCommutative : NumCommutative pynum := {|
  num_add_comm := pynum_lift2_comm Z.add Z.add_comm;
  num_mul_comm := pynum_lift2_comm Z.mul Z.mul_comm
|}.

#[export] Instance pynum_NumIntegers : NumIntegers pynum := {|
  num_int_mod_of_Z z m _ := eq_refl
|}.

(** No colouring: the text is returned as it is. *)
#[export] Instance plain_Colr : Colr := {| colr_color s := s |}.

(** A concrete carrier for text: ASCII characters, the only ones in the
    identifiers of the concrete trees below; a byte above 127 stands for no
    character of it. *)
#[export] Instance ascii_Str : Str := {|
  lower_first s :=
    match s with
    | String c _ => String (ascii_lower c) ""
    | EmptyString => ""
    end
|}.

#[export] Instance ascii_StrAscii : StrAscii := {|
  lower_first_ascii c s _ := eq_refl
|}.

(** ** Node kinds and the object store *)

(** The concrete classes of [expressions.py]. *)
Inductive kind :=
| KNegate | KAbs | KSgn
| KEqual | KAdd | KSubtract | KMultiply | KDivide | KPower
| KConstant | KVariable.

#[export] Instance kind_eq_dec : EqDecision kind.
Proof. solve_decision. Defined.

Definition kind_eqb (a b : kind) : bool := bool_decide (a = b).

(** [node.__class__.__name__] *)
Definition class_name (k : kind) : string :=
  match k with
  | KNegate => "NegateExpression"
  | KAbs => "AbsExpression"
  | KSgn => "SgnExpression"
  | KEqual => "EqualExpression"
  | KAdd => "AddExpression"
  | KSubtract => "SubtractExpression"
  | KMultiply => "MultiplyExpression"
  | KDivide => "DivideExpression"
  | KPower => "PowerExpression"
  | KConstant => "ConstantExpression"
  | KVariable => "VariableExpression"
  end.

(** [isinstance(node, BinaryExpression)] *)
Definition is_binary (k : kind) : bool :=
  match k with
  | KEqual | KAdd | KSubtract | KMultiply | KDivide | KPower => true
  | _ => false
  end.

(** [isinstance(node, UnaryExpression)] *)
Definition is_unary (k : kind) : bool :=
  match k with
  | KNegate | KAbs | KSgn => true
  | _ => false
  end.

Abbreviation addr := nat.

Section Model.
Context {num : Type} {N : Num num} {C : Colr} {Txt : Str}.

(** The attributes of a [MathExpression] object.  [rendering_change] is
    [true] exactly when [_rendering_change is True]; the uuid [id] and the
    MathML [classes] play no part in the embedded methods and are left out;
    [operatorleft] is [True] on every construction path, so a unary node
    keeps its operand in [left]. *)
Record node := Node {
  nkind : kind;
  value : option num;
  identifier : option string;
  child : option addr;
  left : option addr;
  right : option addr;
  parent : option addr;
  changed : bool;
  rendering_change : bool;
  cloned_node : option addr;
  cloned_target : option string
}.

Local Abbreviation heap := (list node).

Definition with_left (o : option addr) (n : node) : node :=
  Node (nkind n) (value n) (identifier n) (child n) o (right n) (parent n)
       (changed n) (rendering_change n) (cloned_node n) (cloned_target n).
Definition with_right (o : option addr) (n : node) : node :=
  Node (nkind n) (value n) (identifier n) (child n) (left n) o (parent n)
       (changed n) (rendering_change n) (cloned_node n) (cloned_target n).
Definition with_parent (o : option addr) (n : node) : node :=
  Node (nkind n) (value n) (identifier n) (child n) (left n) (right n) o
       (changed n) (rendering_change n) (cloned_node n) (cloned_target n).
Definition with_child (o : option addr) (n : node) : node :=
  Node (nkind n) (value n) (identifier n) o (left n) (right n) (parent n)
       (changed n) (rendering_change n) (cloned_node n) (cloned_target n).
Definition with_changed (b : bool) (n : node) : node :=
  Node (nkind n) (value n) (identifier n) (child n) (left n) (right n) (parent n)
       b (rendering_change n) (cloned_node n) (cloned_target n).
Definition with_value (v : option num) (n : node) : node :=
  Node (nkind n) v (identifier n) (child n) (left n) (right n) (parent n)
       (changed n) (rendering_change n) (cloned_node n) (cloned_target n).
Definition with_identifier (s : option string) (n : node) : node :=
  Node (nkind n) (value n) s (child n) (left n) (right n) (parent n)
       (changed n) (rendering_change n) (cloned_node n) (cloned_target n).
Definition with_cloned_node (o : option addr) (n : node) : node :=
  Node (nkind n) (value n) (identifier n) (child n) (left n) (right n) (parent n)
       (changed n) (rendering_change n) o (cloned_target n).
Definition with_cloned_target (t : option string) (n : node) : node :=
  Node (nkind n) (value n) (identifier n) (child n) (left n) (right n) (parent n)
       (changed n) (rendering_change n) (cloned_node n) t.

(** [self.__class__()]: every attribute at its constructor default. *)
Definition new_node (k : kind) : node :=
  Node k None None None None None None false false None None.

(** Reading an object through a reference. *)
Definition deref (h : heap) (a : addr) : res node :=
  match h !! a with
  | Some n => Ok n
  | None => Dangling
  end.

(** The class of the object behind an optional reference ([None] has none). *)
Definition kind_at (h : heap) (o : option addr) : option kind :=
  match o with
  | Some a => match h !! a with Some n => Some (nkind n) | None => None end
  | None => None
  end.

(** [isinstance(ref, cls)] for a class given as a predicate on kinds. *)
Definition isinstance (h : heap) (o : option addr) (cls : kind -> bool) : bool :=
  match kind_at h o with
  | Some k => cls k
  | None => false
  end.

(** Allocation of a new object. *)
Definition alloc (h : heap) (n : node) : heap * addr := (h ++ [n], length h).

(** ** The binary tree node ([mathy/core/tree.py]) *)

(** Modelled from the spec: [BinaryTreeNode.set_left] of [core/tree.py],
    which is not among the sources.  "Rewire a link and the child's parent
    pointer atomically; passing null detaches." *)
Definition set_left (h : heap) (p : addr) (c : option addr) : res heap :=
  let* np := deref h p in
  let h1 := <[p := with_left c np]> h in
  match c with
  | None => Ok h1
  | Some c' =>
      let* nc := deref h1 c' in
      Ok (<[c' := with_parent (Some p) nc]> h1)
  end.

(** Modelled from the spec: [BinaryTreeNode.set_right] of [core/tree.py],
    the mirror image of [set_left]. *)
Definition set_right (h : heap) (p : addr) (c : option addr) : res heap :=
  let* np := deref h p in
  let h1 := <[p := with_right c np]> h in
  match c with
  | None => Ok h1
  | Some c' =>
      let* nc := deref h1 c' in
      Ok (<[c' := with_parent (Some p) nc]> h1)
  end.

(** Modelled from the spec: [BinaryTreeNode.get_root] of [core/tree.py]:
    follow [parent] until a node has none. *)
Fixpoint get_root (fuel : nat) (h : heap) (a : addr) : res addr :=
  match fuel with
  | 0 => OutOfFuel
  | S f =>
      let* nd := deref h a in
      match parent nd with
      | None => Ok a
      | Some p => get_root f h p
      end
  end.

(** Modelled from the spec: [BinaryTreeNode.is_leaf] of [core/tree.py]: a
    node with neither child. *)
Definition is_leaf (n : node) : bool :=
  match left n, right n with
  | None, None => true
  | _, _ => false
  end.

(** Modelled from the spec: [BinaryTreeNode.visit_inorder] of
    [core/tree.py] ("inorder = left, self, right"), specialised to the visitor
    of [MathExpression.findByType], which appends the nodes that are
    instances of the given class and never stops the walk. *)
Fixpoint findByType (fuel : nat) (h : heap) (a : addr) (cls : kind -> bool)
  : res (list addr) :=
  match fuel with
  | 0 => OutOfFuel
  | S f =>
      let* nd := deref h a in
      let* ls := match left nd with
                 | None => Ok []
                 | Some l => findByType f h l cls
                 end in
      let* rs := match right nd with
                 | None => Ok []
                 | Some r => findByType f h r cls
                 end in
      Ok (ls ++ (if cls (nkind nd) then [a] else []) ++ rs)
  end.

(** ** Rendering ([__str__]) *)

Definition OOO_FUNCTION : Z := 4.
Definition OOO_PARENS : Z := 3.
Definition OOO_EXPONENT : Z := 2.
Definition OOO_MULTDIV : Z := 1.
Definition OOO_ADDSUB : Z := 0.
Definition OOO_INVALID : Z := -1.

(** [BinaryExpression.get_priority], for the classes it is called on. *)
Definition get_priority (k : kind) : Z :=
  match k with
  | KEqual => OOO_INVALID
  | KAdd | KSubtract => OOO_ADDSUB
  | KMultiply | KDivide => OOO_MULTDIV
  | KPower => OOO_EXPONENT
  | KAbs | KSgn => OOO_FUNCTION
  | _ => OOO_INVALID
  end.

(** The [name] property. *)
Definition name (k : kind) : string :=
  match k with
  | KNegate => "-"
  | KAbs => "abs"
  | KSgn => "sgn"
  | KEqual => "="
  | KAdd => "+"
  | KSubtract => "-"
  | KMultiply => "*"
  | KDivide => "/"
  | KPower => "^"
  | KConstant | KVariable => ""
  end.

(** [MathExpression.with_color] *)
Definition with_color (n : node) (text : string) : string :=
  if rendering_change n && changed n then colr_color text else text.

(** [BinaryExpression.self_parens] *)
Definition self_parens (h : heap) (n : node) : bool :=
  match kind_at h (parent n) with
  | Some pk => is_binary pk && (get_priority (nkind n) <? get_priority pk)%Z
  | None => false
  end.

(** [BinaryExpression.left_parens] *)
Definition left_parens (h : heap) (n : node) : bool :=
  match left n with
  | Some l =>
      match h !! l with
      | Some nl =>
          is_binary (nkind nl) && negb (self_parens h nl)
          && (get_priority (nkind nl) <? get_priority (nkind n))%Z
      | None => false
      end
  | None => false
  end.

(** [BinaryExpression.right_parens] *)
Definition right_parens (h : heap) (n : node) : bool :=
  match right n with
  | Some r =>
      match h !! r with
      | Some nr =>
          is_binary (nkind nr) && negb (self_parens h nr)
          && (get_priority (nkind nr) <=? get_priority (nkind n))%Z
      | None => false
      end
  | None => false
  end.

Definition parens (b : bool) (s : string) : string :=
  if b then "(" +:+ s +:+ ")" else s.

(** [__str__], dispatched on the class.  [str(None)] is ["None"], which is
    what the format calls of [NegateExpression] and [PowerExpression] print
    for a missing operand. *)
Fixpoint to_text (fuel : nat) (h : heap) (a : addr) : res string :=
  match fuel with
  | 0 => OutOfFuel
  | S f =>
      let* nd := deref h a in
      let str_of (o : option addr) : res string :=
        match o with
        | None => Ok "None"
        | Some c => to_text f h c
        end in
      let binary_str : res string :=
        (* BinaryExpression.__str__ *)
        match left nd, right nd with
        | Some l, Some r =>
            let* ls := to_text f h l in
            let* rs := to_text f h r in
            let out := parens (left_parens h nd) ls +:+ " "
                       +:+ with_color nd (name (nkind nd)) +:+ " "
                       +:+ parens (right_parens h nd) rs in
            Ok (parens (self_parens h nd) out)
        | _, _ =>
            Raise (ValueError (class_name (nkind nd)
                               +:+ ": left/right children must both be valid"))
        end in
      match nkind nd with
      | KConstant =>
          Ok (with_color nd (match value nd with
                             | Some v => num_str v
                             | None => "None"
                             end))
      | KVariable =>
          match identifier nd with
          | None => Ok ""
          | Some x => Ok (with_color nd x)
          end
      | KNegate =>
          let* cs := str_of (left nd) in
          Ok (with_color nd ("-" +:+ cs))
      | KAbs | KSgn =>
          match left nd with
          | Some c =>
              let* cs := to_text f h c in
              Ok (with_color nd (name (nkind nd) +:+ "(" +:+ cs +:+ ")"))
          | None => Ok (with_color nd (name (nkind nd)))
          end
      | KMultiply =>
          if isinstance h (left nd) (kind_eqb KConstant)
             && (isinstance h (right nd) (kind_eqb KVariable)
                 || isinstance h (right nd) (kind_eqb KPower))
          then
            let* ls := str_of (left nd) in
            let* rs := str_of (right nd) in
            Ok (with_color nd (ls +:+ rs))
          else binary_str
      | KPower =>
          let* ls := str_of (left nd) in
          let* rs := str_of (right nd) in
          Ok (ls +:+ with_color nd (name (nkind nd)) +:+ rs)
      | KEqual | KAdd | KSubtract | KDivide => binary_str
      end
  end.

(** ** Evaluation *)

(** [operate] of the binary classes.  A [None] operand (the value of a
    constant built without one) is refused by Python's arithmetic;
    [DivideExpression.operate] tests [two == 0] before it divides, so a zero
    divisor gives [nan] whatever the numerator. *)
Definition operate2 (k : kind) (one two : option num) : res (option num) :=
  match k with
  | KEqual =>
      Raise (Exception "Unsupported operation. Euqality has no operation to perform.")
  | KDivide =>
      match two with
      | Some y =>
          if num_eqb y (num_of_Z 0) then Ok (Some num_nan)
          else
            match one with
            | Some x => let* v := num_truediv x y in Ok (Some v)
            | None => Raise TypeError
            end
      | None => Raise TypeError
      end
  | _ =>
      match one, two with
      | Some x, Some y =>
          let* v := match k with
                    | KAdd => num_add x y
                    | KSubtract => num_sub x y
                    | KMultiply => num_mul x y
                    | KPower => numpy_power x y
                    | _ => Raise (Exception "Must be implemented in subclass")
                    end in
          Ok (Some v)
      | _, _ => Raise TypeError
      end
  end.

(** [operate] of the unary classes. *)
Definition operate1 (k : kind) (v : option num) : res (option num) :=
  match v with
  | None => Raise TypeError
  | Some x =>
      match k with
      | KNegate => Ok (Some (num_neg x))
      | KAbs => Ok (Some (numpy_absolute x))
      | KSgn =>
          if num_ltb x (num_of_Z 0) then Ok (Some (num_of_Z (-1)))
          else if num_ltb (num_of_Z 0) x then Ok (Some (num_of_Z 1))
          else Ok (Some (num_of_Z 0))
      | _ => Raise (Exception "Must be implemented in subclass")
      end
  end.

(** Truth value of a number: [bool(v)] is [v != 0]. *)
Definition truthy (v : num) : bool := negb (num_eqb v (num_of_Z 0)).

(** [VariableExpression.evaluate].  [context] is [None] or a dict; an empty
    dict is as false as [None]. *)
Definition evaluate_variable (n : node) (context : option (gmap string num))
  : res (option num) :=
  let fail :=
    Raise (Exception ("cannot evaluate statement with None variable: "
                      +:+ default "None" (identifier n))) in
  match context with
  | None => fail
  | Some m =>
      if bool_decide (m = ∅) then fail
      else
        match identifier n with
        | None => Raise (KeyError "None")
        | Some x =>
            match m !! x with
            | None => Raise (KeyError x)
            | Some v => if truthy v then Ok (Some v) else fail
            end
        end
  end.

(** [evaluate], dispatched on the class. *)
Fixpoint evaluate (fuel : nat) (h : heap) (context : option (gmap string num))
  (a : addr) : res (option num) :=
  match fuel with
  | 0 => OutOfFuel
  | S f =>
      let* nd := deref h a in
      let eval_of (o : option addr) : res (option num) :=
        match o with
        | None => Raise AttributeError
        | Some c => evaluate f h context c
        end in
      match nkind nd with
      | KConstant => Ok (value nd)
      | KVariable => evaluate_variable nd context
      | KNegate | KAbs | KSgn =>
          (* UnaryExpression.evaluate *)
          let* v := eval_of (left nd) in
          operate1 (nkind nd) v
      | KEqual | KAdd | KSubtract | KMultiply | KDivide | KPower =>
          (* BinaryExpression.evaluate *)
          let* one := eval_of (left nd) in
          let* two := eval_of (right nd) in
          operate2 (nkind nd) one two
      end
  end.

(** ** Type ids *)

Definition MathTypeKeys : list (string * Z) :=
  [ ("empty", 0); ("negate", 1); ("equal", 2); ("add", 3); ("subtract", 4);
    ("multiply", 5); ("divide", 6); ("power", 7);
    ("constant_0", 16); ("constant_1", 17); ("constant_2", 18);
    ("constant_3", 19); ("constant_4", 20); ("constant_5", 21);
    ("constant_6", 22); ("constant_7", 23); ("constant_8", 24);
    ("constant_9", 25);
    ("variable", 26);
    ("variable_a", 27); ("variable_b", 28); ("variable_c", 29);
    ("variable_d", 30); ("variable_e", 31); ("variable_f", 32);
    ("variable_g", 33); ("variable_h", 34); ("variable_i", 35);
    ("variable_j", 36); ("variable_k", 37); ("variable_l", 38);
    ("variable_m", 39); ("variable_n", 40); ("variable_o", 41);
    ("variable_p", 42); ("variable_q", 43); ("variable_r", 44);
    ("variable_s", 45); ("variable_t", 46); ("variable_u", 47);
    ("variable_v", 48); ("variable_w", 49); ("variable_x", 50);
    ("variable_y", 51); ("variable_z", 52) ]%Z.

(** [max(MathTypeKeys.values())] *)
Definition MathTypeKeysMax : Z :=
  foldr (fun kv m => Z.max kv.2 m) 0%Z MathTypeKeys.

Fixpoint dict_get (d : list (string * Z)) (key : string) : option Z :=
  match d with
  | [] => None
  | (k, v) :: d' => if String.eqb k key then Some v else dict_get d' key
  end.

(** [MathTypeKeys[key]] *)
Definition MathTypeKeys_item (key : string) : res Z :=
  match dict_get MathTypeKeys key with
  | Some v => Ok v
  | None => Raise (KeyError key)
  end.

(** The [type_id] property, dispatched on the class. *)
Definition type_id (n : node) : res Z :=
  match nkind n with
  | KNegate => MathTypeKeys_item "negate"
  | KEqual => MathTypeKeys_item "equal"
  | KAdd => MathTypeKeys_item "add"
  | KSubtract => MathTypeKeys_item "subtract"
  | KMultiply => MathTypeKeys_item "multiply"
  | KDivide => MathTypeKeys_item "divide"
  | KPower => MathTypeKeys_item "power"
  | KAbs => MathTypeKeys_item "abs"
  | KSgn => MathTypeKeys_item "sgn"
  | KConstant =>
      let* id := match value n with
                 | Some v =>
                     let* d := num_int_mod v 10 in
                     Ok ("_" +:+ string_of_Z d)
                 | None => Ok ""
                 end in
      MathTypeKeys_item ("constant" +:+ id)
  | KVariable =>
      let* id := match identifier n with
                 | Some EmptyString => Raise IndexError
                 | Some s => Ok ("_" +:+ lower_first s)
                 | None => Ok ""
                 end in
      MathTypeKeys_item ("variable" +:+ id)
  end.

(** ** Addressing and tracked cloning *)

(** The list [points] of [path_to_root]: class names from the node up to the
    root. *)
Fixpoint path_points (fuel : nat) (h : heap) (a : addr) : res (list string) :=
  match fuel with
  | 0 => OutOfFuel
  | S f =>
      let* nd := deref h a in
      match parent nd with
      | None => Ok [class_name (nkind nd)]
      | Some p =>
          let* rest := path_points f h p in
          Ok (class_name (nkind nd) :: rest)
      end
  end.

(** [MathExpression.path_to_root] *)
Definition path_to_root (fuel : nat) (h : heap) (a : addr) : res string :=
  let* points := path_points fuel h a in
  Ok (String.concat "." points).

(** [clone], as the classes stack it up.  The innermost layer is modelled
    from the spec: [BinaryTreeNode.clone] of [core/tree.py] ("deep-copies the
    subtree rooted at the receiver, preserving node kind and per-kind
    payload, assigning each cloned node a new identifier, and relinking
    parent pointers within the clone only"): a new object of the same class,
    then the clones of the children attached with the link setters, and the
    payload kept: the copy of a unary node ([Negate{child}],
    [Function{name, child}]) keeps its operand, the copy of the receiver's,
    in [child].  Around it [MathExpression.clone] records the copy when the
    receiver is the tracked node, and [ConstantExpression.clone] and
    [VariableExpression.clone] copy the payload.  [pfuel] is the budget of
    the [path_to_root] calls.  A clone only ever writes to the new objects
    and to [cloned_node] of an existing one, so the receiver's class, links
    and payload are read once; the payload of the copy, which nothing reads
    in between, is written last. *)
Fixpoint clone (pfuel fuel : nat) (h : heap) (a : addr) : res (heap * addr) :=
  match fuel with
  | 0 => OutOfFuel
  | S f =>
      let* nd := deref h a in
      let '(h0, result) := alloc h (new_node (nkind nd)) in
      let* h1 := match left nd with
                 | None => Ok h0
                 | Some l =>
                     let* (hl, l') := clone pfuel f h0 l in
                     set_left hl result (Some l')
                 end in
      let* h2 := match right nd with
                 | None => Ok h1
                 | Some r =>
                     let* (hr, r') := clone pfuel f h1 r in
                     set_right hr result (Some r')
                 end in
      let* h3 := match cloned_target nd with
                 | None => Ok h2
                 | Some target =>
                     let* path := path_to_root pfuel h2 a in
                     if String.eqb path target then
                       let* self := deref h2 a in
                       Ok (<[a := with_cloned_node (Some result) self]> h2)
                     else Ok h2
                 end in
      let* nr := deref h3 result in
      let h4 := match nkind nd with
                | KConstant => <[result := with_value (value nd) nr]> h3
                | KVariable => <[result := with_identifier (identifier nd) nr]> h3
                | KNegate | KAbs | KSgn => <[result := with_child (left nr) nr]> h3
                | _ => h3
                end in
      Ok (h4, result)
  end.

(** [MathExpression.clone_from_root(self, node=None)] *)
Definition clone_from_root (fuel : nat) (h : heap) (self : addr)
  (node : option addr) : res (heap * addr) :=
  let node := default self node in
  let* s0 := deref h self in
  let h1 := <[self := with_cloned_node None s0]> h in
  let* target := path_to_root fuel h1 node in
  let* s1 := deref h1 self in
  let h2 := <[self := with_cloned_target (Some target) s1]> h1 in
  let* root := get_root fuel h2 node in
  let* (h3, _) := clone fuel fuel h2 root in
  let* s3 := deref h3 self in
  match cloned_node s3 with
  | None => Raise (Exception "cloning root hierarchy did not clone this node")
  | Some result =>
      let h4 := <[self := with_cloned_target None (with_cloned_node None s3)]> h3 in
      Ok (h4, result)
  end.

(** ** Differentiation *)

(** Modelled from the spec: the constructor [BinaryTreeNode.__init__] of
    [core/tree.py], reached from [BinaryExpression(left, right)]: a new
    object whose children are attached with the link setters. *)
Definition construct_binary (k : kind) (h : heap) (l r : option addr)
  : res (heap * addr) :=
  let '(h0, a) := alloc h (new_node k) in
  let* h1 := set_left h0 a l in
  let* h2 := set_right h1 a r in
  Ok (h2, a).

(** [UnaryExpression.__init__]: keeps the operand in [child] and attaches it
    on the left. *)
Definition construct_unary (k : kind) (h : heap) (c : option addr)
  : res (heap * addr) :=
  let '(h0, a) := alloc h (with_child c (new_node k)) in
  let* h1 := set_left h0 a c in
  Ok (h1, a).

(** [ConstantExpression(value)] *)
Definition construct_constant (h : heap) (v : num) : heap * addr :=
  alloc h (with_value (Some v) (new_node KConstant)).

Definition abstract_differentiate {A} : res A :=
  Raise (Exception "cannot differentiate an abstract MathExpression node").

(** [differentiate], dispatched on the class.  [ConstantExpression] and
    [EqualExpression] define no method of their own and inherit the one of
    [MathExpression]. *)
Fixpoint differentiate (fuel : nat) (h : heap) (a : addr) (by_variable : string)
  : res (heap * addr) :=
  match fuel with
  | 0 => OutOfFuel
  | S f =>
      let* nd := deref h a in
      let diff_of (h : heap) (o : option addr) : res (heap * addr) :=
        match o with
        | None => Raise AttributeError
        | Some c => differentiate f h c by_variable
        end in
      match nkind nd with
      | KConstant | KEqual => abstract_differentiate
      | KVariable =>
          if bool_decide (Some by_variable = identifier nd)
          then Ok (construct_constant h (num_of_Z 1))
          else Ok (construct_constant h (num_of_Z 0))
      | KNegate =>
          let* (h1, d) := diff_of h (child nd) in
          construct_unary KNegate h1 (Some d)
      | KAbs =>
          let* (h1, _) := construct_unary KSgn h (child nd) in
          (* self.child.Differentiate: no such attribute *)
          Raise AttributeError
      | KSgn => Ok (construct_constant h (num_of_Z 0))
      | KAdd =>
          let* (h1, dl) := diff_of h (left nd) in
          let* (h2, dr) := diff_of h1 (right nd) in
          construct_binary KAdd h2 (Some dl) (Some dr)
      | KSubtract =>
          let* (h1, dl) := diff_of h (left nd) in
          let* (h2, dr) := diff_of h1 (right nd) in
          construct_binary KAdd h2 (Some dl) (Some dr)
      | KMultiply =>
          let* (h1, dr) := diff_of h (right nd) in
          let* (h2, m1) := construct_binary KMultiply h1 (left nd) (Some dr) in
          let* (h3, dl) := diff_of h2 (left nd) in
          let* (h4, m2) := construct_binary KMultiply h3 (Some dl) (right nd) in
          construct_binary KAdd h4 (Some m1) (Some m2)
      | KDivide =>
          let* (h1, dl) := diff_of h (left nd) in
          let* (h2, gprimeh) := construct_binary KMultiply h1 (Some dl) (right nd) in
          let* (h3, dr) := diff_of h2 (right nd) in
          let* (h4, ghprime) := construct_binary KMultiply h3 (left nd) (Some dr) in
          let '(h5, two) := construct_constant h4 (num_of_Z 2) in
          let* (h6, hsquare) := construct_binary KPower h5 (right nd) (Some two) in
          let* (h7, sub) := construct_binary KSubtract h6 (Some gprimeh) (Some ghprime) in
          construct_binary KDivide h7 (Some sub) (Some hsquare)
      | KPower => Raise (Exception "Unimplemented")
      end
  end.

(** ** The rule protocol and the commutative swap *)

(** Modelled from the spec: the change record of [core/rule.py], which is
    not among the sources ("references to the subtree before and the subtree
    after the rewrite, plus the tree root after the swap").  [after] and
    [root] are filled in by [done]. *)
Record Change := mkChange {
  before : addr;
  after : option addr;
  root : option addr
}.

Record CommutativeSwapRule := { preferred : bool }.

(** [CommutativeSwapRule.can_apply_to] *)
Definition can_apply_to (rule : CommutativeSwapRule) (h : heap) (a : addr) : bool :=
  match h !! a with
  | None => false
  | Some nd =>
      if kind_eqb KAdd (nkind nd) then true
      else if negb (kind_eqb KMultiply (nkind nd)) then false
      else
        if negb (preferred rule) then
          let left_const := isinstance h (left nd) (kind_eqb KConstant) in
          let right_var := isinstance h (right nd) (kind_eqb KVariable) in
          if left_const && right_var then false
          else if isinstance h (right nd) (kind_eqb KPower) then
            match right nd with
            | Some r =>
                match h !! r with
                | Some nr =>
                    let right_left_var := isinstance h (left nr) (kind_eqb KVariable) in
                    let right_right_const := isinstance h (right nr) (kind_eqb KConstant) in
                    if right_left_var && right_right_const then false else true
                | None => true
                end
            | None => true
            end
          else true
        else true
  end.

(** Modelled from the spec: [BaseRule.apply_to] of [core/rule.py]
    ("precondition: can_apply_to(node) is true; violating the precondition
    fails with InapplicableRule"); it hands back the change record opened on
    the node. *)
Definition BaseRule_apply_to (rule : CommutativeSwapRule) (h : heap) (a : addr)
  : res Change :=
  if can_apply_to rule h a then Ok (mkChange a None None)
  else Raise InapplicableRule.

(** Modelled from the spec: [done] of the change record of [core/rule.py]:
    it records the rewritten node and the root of the tree it sits in. *)
Definition done (fuel : nat) (h : heap) (change : Change) (a : addr) : res Change :=
  let* r := get_root fuel h a in
  Ok (mkChange (before change) (Some a) (Some r)).

(** [MathExpression.set_changed] *)
Definition set_changed (h : heap) (a : addr) : res heap :=
  let* nd := deref h a in
  Ok (<[a := with_changed true nd]> h).

(** [CommutativeSwapRule.apply_to] *)
Definition apply_to (fuel : nat) (rule : CommutativeSwapRule) (h : heap) (a : addr)
  : res (heap * Change) :=
  let* change := BaseRule_apply_to rule h a in
  let* nd := deref h a in
  let a_ := left nd in
  let b_ := right nd in
  let* h1 := set_right h a a_ in
  let* h2 := set_left h1 a b_ in
  let* h3 := set_changed h2 a in
  let* change := done fuel h3 change a in
  Ok (h3, change).

(** ** Term analysis ([mathy/helpers.py]) *)

(** [is_add_or_sub] *)
Definition is_add_or_sub (k : kind) : bool :=
  match k with
  | KAdd | KSubtract => true
  | _ => false
  end.

(** [TermResult] *)
Record TermResult := mkTerm {
  coefficients : list (option num);
  variables : list (option string);
  exponent : option num;
  node_coefficients : list addr;
  node_variables : list addr;
  node_exponent : option addr
}.

Definition empty_term : TermResult := mkTerm [] [] None [] [] None.

Fixpoint insert_sorted (x : string) (l : list string) : list string :=
  match l with
  | [] => [x]
  | y :: l' => if String.leb x y then x :: l else y :: insert_sorted x l'
  end.

Fixpoint all_some {A} (l : list (option A)) : option (list A) :=
  match l with
  | [] => Some []
  | Some x :: l' => match all_some l' with
                    | Some xs => Some (x :: xs)
                    | None => None
                    end
  | None :: _ => None
  end.

(** [list.sort()] on the identifiers: strings are ordered by code point; a
    [None] among several entries cannot be compared. *)
Definition sort_identifiers (l : list (option string)) : res (list (option string)) :=
  match all_some l with
  | Some xs => Ok (Some <$> foldr insert_sorted [] xs)
  | None => match l with
            | [_] => Ok l
            | _ => Raise TypeError
            end
  end.

(** Reading one attribute from each object of a list of references. *)
Fixpoint deref_all (h : heap) (l : list addr) : res (list node) :=
  match l with
  | [] => Ok []
  | a :: l' =>
      let* n := deref h a in
      let* ns := deref_all h l' in
      Ok (n :: ns)
  end.

(** [len(o.findByType(cls)) > 0] for an optional child [o]; a missing child
    short-circuits the test. *)
Definition has_type_under (fuel : nat) (h : heap) (o : option addr)
  (cls : kind -> bool) : res bool :=
  match o with
  | None => Ok false
  | Some c =>
      let* found := findByType fuel h c cls in
      Ok (negb (bool_decide (found = [])))
  end.

(** [filter_coefficients], the local function of [get_term]. *)
Definition filter_coefficients (h : heap) (node_parent : option addr) (n : node) : bool :=
  match parent n with
  | None => true
  | Some p =>
      if bool_decide (Some p = node_parent) then true
      else if isinstance h (Some p) is_binary
              && negb (isinstance h (Some p) (kind_eqb KMultiply))
      then false
      else true
  end.

(** [resolve_coefficients], the local function of [get_term]. *)
Definition resolve_coefficients (h : heap) (c : node) : res (option num) :=
  if isinstance h (parent c) (kind_eqb KNegate) then
    match value c with
    | Some v => let* r := num_mul v (num_of_Z (-1)) in Ok (Some r)
    | None => Raise TypeError
    end
  else Ok (value c).

Fixpoint resolve_all (h : heap) (l : list node) : res (list (option num)) :=
  match l with
  | [] => Ok []
  | c :: l' =>
      let* v := resolve_coefficients h c in
      let* vs := resolve_all h l' in
      Ok (v :: vs)
  end.

Fixpoint filter_addrs (h : heap) (keep : node -> bool) (l : list addr) : res (list addr) :=
  match l with
  | [] => Ok []
  | a :: l' =>
      let* n := deref h a in
      let* rest := filter_addrs h keep l' in
      Ok (if keep n then a :: rest else rest)
  end.

(** [get_term]: [Some] summary, or [None] where the function returns
    [False]. *)
Definition get_term (fuel : nat) (h : heap) (a : addr) : res (option TermResult) :=
  let* nd := deref h a in
  let lone := match parent nd with
              | None => true
              | Some p => isinstance h (Some p) is_add_or_sub
              end in
  if kind_eqb KConstant (nkind nd) && lone then
    Ok (Some (mkTerm [value nd] [] None [a] [] None))
  else if kind_eqb KVariable (nkind nd) && lone then
    Ok (Some (mkTerm [] [identifier nd] None [] [a] None))
  else
    let* has_add_sub :=
      if is_add_or_sub (nkind nd) then Ok false
      else
        let* adds := has_type_under fuel h (Some a) (kind_eqb KAdd) in
        if adds then Ok true
        else has_type_under fuel h (Some a) (kind_eqb KSubtract) in
    if has_add_sub then Ok None
    else
      let* left_add := has_type_under fuel h (left nd) (kind_eqb KAdd) in
      let* right_inner :=
        if left_add then
          match right nd with
          | None => Ok false
          | Some r => let* nr := deref h r in Ok (negb (is_leaf nr))
          end
        else Ok false in
      if right_inner then Ok None
      else
        let* right_add := has_type_under fuel h (right nd) (kind_eqb KAdd) in
        if right_add then Ok None
        else
          let* exponents := findByType fuel h a (kind_eqb KPower) in
          let* exp :=
            match exponents with
            | [] => Ok (Some (None, None))
            | [e] =>
                let* ne := deref h e in
                if isinstance h (right ne) (kind_eqb KConstant) then
                  match right ne with
                  | Some r => let* nr := deref h r in Ok (Some (value nr, Some e))
                  | None => Ok None
                  end
                else Ok None
            | _ => Ok None
            end in
          match exp with
          | None => Ok None
          | Some (exponent_value, exponent_node) =>
              let* vars := findByType fuel h a (kind_eqb KVariable) in
              let* var_nodes := deref_all h vars in
              let* idents := sort_identifiers (identifier <$> var_nodes) in
              let* consts := findByType fuel h a (kind_eqb KConstant) in
              let* kept := filter_addrs h (filter_coefficients h (parent nd)) consts in
              let* kept_nodes := deref_all h kept in
              let* coeffs := resolve_all h kept_nodes in
              let empty :=
                (length idents =? 0)%nat && (length coeffs =? 0)%nat
                && match exponent_value with None => true | Some _ => false end in
              if empty then Ok None
              else Ok (Some (mkTerm coeffs idents exponent_value kept vars exponent_node))
          end.

(** What [terms_are_like] accepts for a term: [False], an expression, or a
    summary. *)
Inductive term_arg :=
| TFalse
| TExpr (a : addr)
| TTerm (t : TermResult).

(** [one.exponent != two.exponent] negated: Python's [==] on two values
    that are numbers or [None]. *)
Definition exponent_eqb (e1 e2 : option num) : bool :=
  match e1, e2 with
  | None, None => true
  | Some x, Some y => num_eqb x y
  | _, _ => false
  end.

Definition ident_eqb (x y : option string) : bool := bool_decide (x = y).

(** [v in l] *)
Definition ident_in (v : option string) (l : list (option string)) : bool :=
  existsb (ident_eqb v) l.

(** The comparison at the end of [terms_are_like], on two summaries. *)
Definition like_summaries (one two : TermResult) : bool :=
  if (length (variables one) =? 0)%nat && (length (variables two) =? 0)%nat then true
  else if negb (length (variables one) =? length (variables two))%nat then false
  else
    let invalid :=
      (0 <? length (List.filter (fun v => negb (ident_in v (variables two)))
                           (variables one)))%nat in
    if invalid then false
    else if negb (exponent_eqb (exponent one) (exponent two)) then false
    else true.

(** [terms_are_like] *)
Definition terms_are_like (fuel : nat) (h : heap) (one two : term_arg) : res bool :=
  match one, two with
  | TFalse, _ | _, TFalse => Ok false
  | _, _ =>
      let extract (t : term_arg) : res (option TermResult) :=
        match t with
        | TExpr a => get_term fuel h a
        | TTerm r => Ok (Some r)
        | TFalse => Ok None
        end in
      let* one' := extract one in
      let* two' := extract two in
      match one', two' with
      | Some o, Some t => Ok (like_summaries o t)
      | _, _ => Raise AttributeError
      end
  end.

End Model.

Arguments node : clear implicits.
Abbreviation heap num := (list (node num)).
Arguments TermResult : clear implicits.
Arguments term_arg : clear implicits.

(** ** Building trees

    The parser is outside the sources; concrete trees are built the way it
    builds them, bottom-up through the constructors. *)
Inductive expr (num : Type) :=
| EConst (v : num)
| EVar (x : string)
| EUn (k : kind) (e : expr num)
| EBin (k : kind) (l r : expr num).
Arguments EConst {num} v.
Arguments EVar {num} x.
Arguments EUn {num} k e.
Arguments EBin {num} k l r.

Section Build.
Context {num : Type} {N : Num num} {C : Colr}.

Fixpoint build (e : expr num) (h : heap num) : res (heap num * addr) :=
  match e with
  | EConst v => Ok (construct_constant h v)
  | EVar x => Ok (alloc h (with_identifier (Some x) (new_node KVariable)))
  | EUn k c =>
      let* (h1, a) := build c h in
      construct_unary k h1 (Some a)
  | EBin k l r =>
      let* (h1, a) := build l h in
      let* (h2, b) := build r h1 in
      construct_binary k h2 (Some a) (Some b)
  end.

End Build.

(** ** Concrete trees over [pynum] *)

Definition built (e : expr pynum) : heap pynum * addr :=
  match build e [] with
  | Ok r => r
  | _ => ([], 0)
  end.

(** [4x]: the multiply node is object 2, the constant 0, the variable 1. *)
Definition tree_4x : expr pynum := EBin KMultiply (EConst (PyInt 4)) (EVar "x").
Definition heap_4x : heap pynum := Eval cbv in (built tree_4x).1.

(** [a + b]: the add node is object 2. *)
Definition tree_a_plus_b : expr pynum := EBin KAdd (EVar "a") (EVar "b").
Definition heap_a_plus_b : heap pynum := Eval cbv in (built tree_a_plus_b).1.

(** [x]: a lone variable, object 0. *)
Definition heap_x : heap pynum := Eval cbv in (built (EVar "x")).1.

(** [x - x]: the subtract node is object 2. *)
Definition heap_x_minus_x : heap pynum :=
  Eval cbv in (built (EBin KSubtract (EVar "x") (EVar "x"))).1.

(** [2^(3^4)]: the outer power is object 4, the inner one object 3. *)
Definition heap_power_tower : heap pynum :=
  Eval cbv in (built (EBin KPower (EConst (PyInt 2))
                        (EBin KPower (EConst (PyInt 3)) (EConst (PyInt 4))))).1.

(** Two separate trees in one store: [2^3] (root 2) and [5] (root 3). *)
Definition heap_two_terms : heap pynum :=
  Eval cbv in
    match build (EBin KPower (EConst (PyInt 2)) (EConst (PyInt 3))) [] with
    | Ok (h, _) => match build (EConst (PyInt 5)) h with
                   | Ok (h', _) => h'
                   | _ => []
                   end
    | _ => []
    end.

(** [4 - (4 - 7)]: the outer subtract is object 4, the inner one object 3. *)
Definition heap_nested_subtract : heap pynum :=
  Eval cbv in (built (EBin KSubtract (EConst (PyInt 4))
                        (EBin KSubtract (EConst (PyInt 4)) (EConst (PyInt 7))))).1.

(** [x + 3y]: the add node is object 4, [3y] object 3. *)
Definition heap_x_plus_3y : heap pynum :=
  Eval cbv in (built (EBin KAdd (EVar "x")
                        (EBin KMultiply (EConst (PyInt 3)) (EVar "y")))).1.

(** ** Vocabulary of the properties *)

Section Vocabulary.
Context {num : Type} {N : Num num} {C : Colr}.

(** The shape [Variable ^ Constant] behind an optional reference. *)
Definition var_pow_const (h : heap num) (o : option addr) : bool :=
  match o with
  | Some r =>
      match h !! r with
      | Some nr =>
          kind_eqb KPower (nkind nr)
          && isinstance h (left nr) (kind_eqb KVariable)
          && isinstance h (right nr) (kind_eqb KConstant)
      | None => false
      end
  | None => false
  end.

(** "Already in canonical order": [Constant * Variable], or
    [Constant * (Variable ^ Constant)]. *)
Definition canonical_order (h : heap num) (nd : node num) : bool :=
  isinstance h (left nd) (kind_eqb KConstant)
  && (isinstance h (right nd) (kind_eqb KVariable) || var_pow_const h (right nd)).

(** The applicability test as the specification words it: every Add; a
    Multiply unless the preferred flag is set and the node is canonical;
    nothing else. *)
Definition stated_can_apply_to (rule : CommutativeSwapRule) (h : heap num) (a : addr) : bool :=
  match h !! a with
  | Some nd =>
      match nkind nd with
      | KAdd => true
      | KMultiply => negb (preferred rule && canonical_order h nd)
      | _ => false
      end
  | None => false
  end.

(** The data-model invariant at one node: a child's [parent] names the node
    it hangs under. *)
Definition linked (h : heap num) (a : addr) (nd : node num) : Prop :=
  forall c, left nd = Some c \/ right nd = Some c ->
    exists nc, h !! c = Some nc /\ parent nc = Some a.

(** The node after the swap of [CommutativeSwapRule.apply_to]. *)
Definition swapped (nd : node num) : node num :=
  with_changed true (with_left (right nd) (with_right (left nd) nd)).

(** The most significant decimal digit of an integer. *)
Definition first_significant_digit (z : Z) : Z :=
  let first (u : Decimal.uint) : Z :=
    match u with
    | Decimal.Nil | Decimal.D0 _ => 0
    | Decimal.D1 _ => 1 | Decimal.D2 _ => 2 | Decimal.D3 _ => 3
    | Decimal.D4 _ => 4 | Decimal.D5 _ => 5 | Decimal.D6 _ => 6
    | Decimal.D7 _ => 7 | Decimal.D8 _ => 8 | Decimal.D9 _ => 9
    end%Z in
  match Z.to_int z with
  | Decimal.Pos u | Decimal.Neg u => first u
  end.

(** An ASCII letter, and the slot the table gives it. *)
Definition is_letter (c : ascii) : bool :=
  let n := nat_of_ascii (ascii_lower c) in
  (97 <=? n)%nat && (n <=? 122)%nat.

Definition letter_slot (c : ascii) : Z :=
  (27 + Z.of_nat (nat_of_ascii (ascii_lower c) - 97))%Z.

(** Two optional references related by [R]. *)
Definition opt_rel (R : addr -> addr -> Prop) (o o' : option addr) : Prop :=
  match o, o' with
  | None, None => True
  | Some a, Some a' => R a a'
  | _, _ => False
  end.

(** What [__str__] reads of a node besides its children: the class, the
    payload, whether it is coloured, and the class of its parent. *)
Definition same_face (h h' : heap num) (nd nd' : node num) : Prop :=
  nkind nd = nkind nd'
  /\ (nkind nd = KConstant -> value nd = value nd')
  /\ (nkind nd = KVariable -> identifier nd = identifier nd')
  /\ rendering_change nd && changed nd = rendering_change nd' && changed nd'
  /\ kind_at h (parent nd) = kind_at h' (parent nd').

(** [R] relates objects of [h] to objects of [h'] that render alike: related
    references are both dangling, or name nodes with the same face whose
    children are related in turn. *)
Definition text_bisimulation (h h' : heap num) (R : addr -> addr -> Prop) : Prop :=
  forall a a', R a a' ->
    match h !! a, h' !! a' with
    | Some nd, Some nd' =>
        same_face h h' nd nd'
        /\ opt_rel R (left nd) (left nd')
        /\ opt_rel R (right nd) (right nd')
    | None, None => True
    | _, _ => False
    end.

(** The compact form of a product: a constant times a variable or a
    power. *)
Definition compact_multiply (h : heap num) (nd : node num) : bool :=
  isinstance h (left nd) (kind_eqb KConstant)
  && (isinstance h (right nd) (kind_eqb KVariable)
      || isinstance h (right nd) (kind_eqb KPower)).

(** The parenthesization as the specification words it.  A node wraps
    itself when its parent is a binary node of strictly higher priority. *)
Definition stated_self_wrap (h : heap num) (nd : node num) : bool :=
  match parent nd with
  | Some p =>
      match h !! p with
      | Some np => is_binary (nkind np)
                   && (get_priority (nkind nd) <? get_priority (nkind np))%Z
      | None => false
      end
  | None => false
  end.

(** The left child is wrapped when it is a binary node of strictly lower
    priority than its parent and does not wrap itself; the right child when
    it is one of lower or equal priority. *)
Definition stated_child_wrap (strict : bool) (h : heap num) (nd : node num)
  (c : addr) : bool :=
  match h !! c with
  | Some nc =>
      is_binary (nkind nc)
      && (if strict then (get_priority (nkind nc) <? get_priority (nkind nd))%Z
          else (get_priority (nkind nc) <=? get_priority (nkind nd))%Z)
      && negb (stated_self_wrap h nc)
  | None => false
  end.

(** [left OP right] with those parentheses. *)
Definition stated_binary_text (h : heap num) (nd : node num) (l r : addr)
  (ls rs : string) : string :=
  parens (stated_self_wrap h nd)
    (parens (stated_child_wrap true h nd l) ls +:+ " " +:+ name (nkind nd) +:+ " "
     +:+ parens (stated_child_wrap false h nd r) rs).

(** *** Trees in the store *)

(** What a node shows: its class, its payload (the value of a constant, the
    identifier of a variable), and whether it is rendered in colour. *)
Record face := Face {
  f_kind : kind;
  f_value : option num;
  f_identifier : option string;
  f_colored : bool
}.

Definition face_of (nd : node num) : face :=
  Face (nkind nd)
       (if kind_eqb KConstant (nkind nd) then value nd else None)
       (if kind_eqb KVariable (nkind nd) then identifier nd else None)
       (rendering_change nd && changed nd).

(** A [shape] is a tree as a value: the address and the face of each node
    and the shapes of its two children, [SNone] for a missing child. *)
Inductive shape :=
| SNone
| SNode (a : addr) (f : face) (l r : shape).

Definition sroot (s : shape) : option addr :=
  match s with
  | SNone => None
  | SNode a _ _ _ => Some a
  end.

Fixpoint height (s : shape) : nat :=
  match s with
  | SNone => 0
  | SNode _ _ l r => S (Nat.max (height l) (height r))
  end.

Fixpoint in_shape (x : addr) (s : shape) : Prop :=
  match s with
  | SNone => False
  | SNode a _ l r => x = a \/ in_shape x l \/ in_shape x r
  end.

(** The store holds the tree [s] below the parent [p]: every node has the
    face and the links the shape gives it, and every [parent] names the node
    above (the data-model invariant).  A shape is finite, so the tree has no
    cycle. *)
Fixpoint repr (h : heap num) (p : option addr) (s : shape) : Prop :=
  match s with
  | SNone => True
  | SNode a f l r =>
      exists nd, h !! a = Some nd
        /\ face_of nd = f
        /\ parent nd = p /\ left nd = sroot l /\ right nd = sroot r
        /\ repr h (Some a) l /\ repr h (Some a) r
  end.

(** [s'] mirrors [s]: the same tree node by node, at other addresses, with
    no node in colour. *)
Fixpoint mirror (s s' : shape) : Prop :=
  match s, s' with
  | SNone, SNone => True
  | SNode _ f l r, SNode _ f' l' r' =>
      f' = Face (f_kind f) (f_value f) (f_identifier f) false
      /\ mirror l l' /\ mirror r r'
  | _, _ => False
  end.

(** No node of the tree is rendered in colour. *)
Fixpoint plain (s : shape) : Prop :=
  match s with
  | SNone => True
  | SNode _ f l r => f_colored f = false /\ plain l /\ plain r
  end.

(** [c] sits in [s'] where [x] sits in [s]. *)
Fixpoint corr (s s' : shape) (x c : addr) : Prop :=
  match s, s' with
  | SNode a _ l r, SNode a' _ l' r' =>
      (x = a /\ c = a') \/ corr l l' x c \/ corr r r' x c
  | _, _ => False
  end.

(** Every address of the shape lies in [lo, hi). *)
Fixpoint within (lo hi : nat) (s : shape) : Prop :=
  match s with
  | SNone => True
  | SNode a _ l r => lo <= a < hi /\ within lo hi l /\ within lo hi r
  end.

(** The store [h'] is [h] after some allocations and some writes to
    [cloned_node]. *)
Definition evolved (h h' : heap num) : Prop :=
  forall x nd, h !! x = Some nd ->
    exists o, h' !! x = Some (with_cloned_node o nd).

(** What one [clone] call leaves behind: a tree [s'] that mirrors [s],
    rooted at the first free address with its other nodes above it; an
    existing object is untouched or has its [cloned_node] set to its own
    copy; and a tracked node of [s] (one whose [cloned_target] is its path)
    has it set. *)
Definition clone_post (pf : nat) (h h' : heap num) (s s' : shape) : Prop :=
  length h < length h'
  /\ match s' with
     | SNode a' _ l' r' =>
         a' = length h
         /\ within (S a') (length h') l' /\ within (S a') (length h') r'
     | SNone => False
     end
  /\ repr h' None s'
  /\ mirror s s'
  /\ (forall x nd, h !! x = Some nd ->
        h' !! x = Some nd
        \/ exists c, corr s s' x c /\ h' !! x = Some (with_cloned_node (Some c) nd))
  /\ (forall x nd t, in_shape x s -> h !! x = Some nd ->
        cloned_target nd = Some t -> path_to_root pf h x = Ok t ->
        exists c, corr s s' x c /\ h' !! x = Some (with_cloned_node (Some c) nd)).

(** What cloning one child and attaching the copy leaves behind. *)
Definition child_post (pf : nat) (hc h1 : heap num) (res : addr) (nres : node num)
  (upd : option addr -> node num -> node num) (sc sc' : shape) : Prop :=
  length hc <= length h1
  /\ h1 !! res = Some (upd (sroot sc') nres)
  /\ repr h1 (Some res) sc'
  /\ mirror sc sc'
  /\ within (length hc) (length h1) sc'
  /\ (forall x nd, x <> res -> hc !! x = Some nd ->
        h1 !! x = Some nd
        \/ exists c, corr sc sc' x c /\ h1 !! x = Some (with_cloned_node (Some c) nd))
  /\ (forall x nd t, in_shape x sc -> hc !! x = Some nd ->
        cloned_target nd = Some t -> path_to_root pf hc x = Ok t ->
        exists c, corr sc sc' x c /\ h1 !! x = Some (with_cloned_node (Some c) nd)).

(** What [clone] does on a tree of shape [s], for any budget that covers
    its height. *)
Definition clone_statement (pf : nat) (s : shape) : Prop :=
  forall fuel h p a,
    sroot s = Some a -> repr h p s -> height s <= fuel ->
    (forall x nd t, in_shape x s -> h !! x = Some nd -> cloned_target nd = Some t ->
       exists pth, path_to_root pf h x = Ok pth) ->
    exists h' s', clone pf fuel h a = Ok (h', length h) /\ clone_post pf h h' s s'.

(** Stores that hold the same trees: same faces and links object by
    object. *)
Definition same_tree (h h' : heap num) : Prop :=
  forall x nd, h !! x = Some nd ->
    exists nd', h' !! x = Some nd'
      /\ face_of nd' = face_of nd
      /\ parent nd' = parent nd /\ left nd' = left nd /\ right nd' = right nd.

(** [x] and [c] are the roots of a tree of [h] and of a tree of [h'] that
    mirrors it, under parents of the same class. *)
Definition mirrored (h h' : heap num) (x c : addr) : Prop :=
  exists s s' p p',
    repr h p s /\ repr h' p' s' /\ mirror s s' /\ plain s
    /\ kind_at h p = kind_at h' p'
    /\ sroot s = Some x /\ sroot s' = Some c.

End Vocabulary.

Arguments face : clear implicits.
Arguments shape : clear implicits.

(** The tree [x + 3y] of [heap_x_plus_3y] as a shape. *)
Definition shape_x_plus_3y : shape pynum :=
  SNode 4 (Face KAdd None None false)
    (SNode 0 (Face KVariable None (Some "x") false) SNone SNone)
    (SNode 3 (Face KMultiply None None false)
       (SNode 1 (Face KConstant (Some (PyInt 3)) None false) SNone SNone)
       (SNode 2 (Face KVariable None (Some "y") false) SNone SNone)).

(** * More of the code *)

Section More.
Context {num : Type} {N : Num num} {C : Colr}.

(** ** Lists of nodes ([expressions.py]) *)

(** Modelled from the spec: the three walks of [core/tree.py] ("inorder =
    left, self, right; preorder = self, left, right; postorder = left, right,
    self"), with the visitor of [MathExpression.toList], which appends every
    node and never stops the walk. *)
Inductive visit_order := Inorder | Preorder | Postorder.

Fixpoint visit_list (order : visit_order) (fuel : nat) (h : heap num) (a : addr)
  : res (list addr) :=
  match fuel with
  | 0 => OutOfFuel
  | S f =>
      let* nd := deref h a in
      let* ls := match left nd with
                 | None => Ok []
                 | Some l => visit_list order f h l
                 end in
      let* rs := match right nd with
                 | None => Ok []
                 | Some r => visit_list order f h r
                 end in
      Ok (match order with
          | Inorder => ls ++ [a] ++ rs
          | Preorder => [a] ++ ls ++ rs
          | Postorder => ls ++ rs ++ [a]
          end)
  end.

(** [MathExpression.toList(visit)] *)
Definition toList (fuel : nat) (h : heap num) (a : addr) (visit : string)
  : res (list addr) :=
  if String.eqb visit "inorder" then visit_list Inorder fuel h a
  else if String.eqb visit "preorder" then visit_list Preorder fuel h a
  else if String.eqb visit "postorder" then visit_list Postorder fuel h a
  else Raise (ValueError ("invalid visit order: " +:+ visit)).

(** [MathExpression.count_nodes]: the inorder walk with a counting
    visitor. *)
Fixpoint count_nodes (fuel : nat) (h : heap num) (a : addr) : res nat :=
  match fuel with
  | 0 => OutOfFuel
  | S f =>
      let* nd := deref h a in
      let* cl := match left nd with
                 | None => Ok 0
                 | Some l => count_nodes f h l
                 end in
      let* cr := match right nd with
                 | None => Ok 0
                 | Some r => count_nodes f h r
                 end in
      Ok (cl + 1 + cr)
  end.

(** ** Helpers ([mathy/helpers.py]) *)

(** [unlink]: [None] stays [None]; otherwise the links of the parent that
    name the node are cleared, then the node's own [parent]. *)
Definition unlink (h : heap num) (node : option addr) : res (heap num * option addr) :=
  match node with
  | None => Ok (h, None)
  | Some a =>
      let* nd := deref h a in
      let* h1 := match parent nd with
                 | Some p =>
                     let* np := deref h p in
                     if bool_decide (left np = Some a) then set_left h p None
                     else Ok h
                 | None => Ok h
                 end in
      let* nd1 := deref h1 a in
      let* h2 := match parent nd1 with
                 | Some p =>
                     let* np := deref h1 p in
                     if bool_decide (right np = Some a) then set_right h1 p None
                     else Ok h1
                 | None => Ok h1
                 end in
      let* nd2 := deref h2 a in
      Ok (<[a := with_parent None nd2]> h2, Some a)
  end.

(** Modelled from the spec: [BinaryTreeNode.get_side] of [core/tree.py]:
    "returns which side a given child occupies, or 'none' if not a direct
    child." *)
Inductive side := side_left | side_right | side_none.

Definition get_side (np : node num) (c : addr) : side :=
  if bool_decide (left np = Some c) then side_left
  else if bool_decide (right np = Some c) then side_right
  else side_none.

(** [negate].  The last branch runs when [save] is [None], where calling a
    method on it raises; [saveSide] is used nowhere else. *)
Definition negate (h : heap num) (a : addr) : res (heap num * addr) :=
  let* nd := deref h a in
  let save := parent nd in
  let* saveSide := match save with
                   | Some p => let* np := deref h p in Ok (Some (get_side np a))
                   | None => Ok None
                   end in
  let* (h1, _) := unlink h (Some a) in
  let* nd1 := deref h1 a in
  let* (h2, neg) := construct_unary KNegate h1 (right nd1) in
  let* (h3, newNode) := construct_binary KAdd h2 (left nd1) (Some neg) in
  match save with
  | None => Raise AttributeError
  | Some _ => Ok (h3, newNode)
  end.

(** Truth value of an optional string and of an optional number: [None],
    the empty string and zero are false. *)
Definition truthy_str (v : option string) : bool :=
  match v with
  | None | Some EmptyString => false
  | Some _ => true
  end.

Definition truthy_opt (e : option num) : bool :=
  match e with
  | None => false
  | Some x => truthy x
  end.

(** [VariableExpression(identifier)] *)
Definition construct_variable (h : heap num) (x : option string) : heap num * addr :=
  alloc h (with_identifier x (new_node KVariable)).

(** [make_term] *)
Definition make_term (h : heap num) (coefficient : num) (variable : option string)
  (exponent : option num) : res (heap num * addr) :=
  let '(h1, constExp) := construct_constant h coefficient in
  if negb (truthy_str variable) && negb (truthy_opt exponent) then Ok (h1, constExp)
  else
    let '(h2, varExp) := construct_variable h1 variable in
    if num_eqb coefficient (num_of_Z 1) && negb (truthy_opt exponent) then Ok (h2, varExp)
    else
      let* (h3, multExp) := construct_binary KMultiply h2 (Some constExp) (Some varExp) in
      if negb (truthy_opt exponent) then Ok (h3, multExp)
      else
        let '(h4, expConstExp) := alloc h3 (with_value exponent (new_node KConstant)) in
        if num_eqb coefficient (num_of_Z 1)
        then construct_binary KPower h4 (Some varExp) (Some expConstExp)
        else construct_binary KPower h4 (Some multExp) (Some expConstExp).

(** [TermEx] *)
Record TermEx := mkTermEx {
  tx_coefficient : option num;
  tx_variable : option string;
  tx_exponent : option num
}.

(** [get_term_ex] *)
Definition get_term_ex (h : heap num) (node : option addr) : res (option TermEx) :=
  match node with
  | None => Ok None
  | Some a =>
      let* nd := deref h a in
      let free := negb (isinstance h (parent nd) (kind_eqb KPower)) in
      if kind_eqb KConstant (nkind nd) && free then
        Ok (Some (mkTermEx (value nd) None None))
      else if kind_eqb KVariable (nkind nd) && free then
        Ok (Some (mkTermEx None (identifier nd) None))
      else
        let value_of (o : option addr) : option num :=
          match o with
          | Some c => match h !! c with Some nc => value nc | None => None end
          | None => None
          end in
        let identifier_of (o : option addr) : option string :=
          match o with
          | Some c => match h !! c with Some nc => identifier nc | None => None end
          | None => None
          end in
        let var_pow (o : option addr) : option (option string * option num) :=
          match o with
          | Some c =>
              match h !! c with
              | Some nc =>
                  if isinstance h (left nc) (kind_eqb KVariable)
                     && isinstance h (right nc) (kind_eqb KConstant)
                  then Some (identifier_of (left nc), value_of (right nc))
                  else None
              | None => None
              end
          | None => None
          end in
        let compact :=
          if kind_eqb KMultiply (nkind nd)
             && isinstance h (left nd) (kind_eqb KConstant)
          then
            if isinstance h (right nd) (kind_eqb KVariable) then
              Some (mkTermEx (value_of (left nd)) (identifier_of (right nd)) None)
            else if isinstance h (right nd) (kind_eqb KPower) then
              match var_pow (right nd) with
              | Some (x, e) => Some (mkTermEx (value_of (left nd)) x e)
              | None => None
              end
            else None
          else None in
        match compact with
        | Some t => Ok (Some t)
        | None =>
            if kind_eqb KPower (nkind nd) then
              match var_pow (Some a) with
              | Some (x, e) => Ok (Some (mkTermEx None x e))
              | None => Ok None
              end
            else Ok None
        end
  end.

(** [is_const] *)
Fixpoint is_const (fuel : nat) (h : heap num) (node : option addr) : res bool :=
  match fuel with
  | 0 => OutOfFuel
  | S f =>
      match node with
      | None => Ok false
      | Some a =>
          let* nd := deref h a in
          if kind_eqb KConstant (nkind nd) then Ok true
          else if kind_eqb KNegate (nkind nd) then is_const f h (child nd)
          else Ok false
      end
  end.

(** ** Further vocabulary *)

(** Two trees with the same classes and payloads node by node, whatever
    their addresses and colours. *)
Fixpoint alike (s s' : shape num) : Prop :=
  match s, s' with
  | SNone, SNone => True
  | SNode _ f l r, SNode _ f' l' r' =>
      f_kind f' = f_kind f /\ f_value f' = f_value f
      /\ f_identifier f' = f_identifier f
      /\ alike l l' /\ alike r r'
  | _, _ => False
  end.

(** Objects at one address of two stores that hold the same tree there,
    under parents of the same class. *)
Definition same_place (h h' : heap num) (x y : addr) : Prop :=
  x = y /\ exists s p p', repr h p s /\ repr h' p' s
    /\ kind_at h p = kind_at h' p' /\ sroot s = Some x.

(** The store [h'] is [h] after some allocations and some writes to
    [parent]: an object of [h] is untouched, or its [parent] now names an
    object that [h] did not hold. *)
Definition reparented (h h' : heap num) : Prop :=
  forall x nd, h !! x = Some nd ->
    h' !! x = Some nd
    \/ exists p, length h <= p /\ h' !! x = Some (with_parent (Some p) nd).

(** Classes whose [differentiate] raises whatever the operands. *)
Definition no_derivative (k : kind) : bool :=
  match k with
  | KConstant | KEqual | KAbs | KPower => true
  | _ => false
  end.

(** Classes whose [differentiate] differentiates both operands. *)
Definition differentiates_both (k : kind) : bool :=
  match k with
  | KAdd | KSubtract | KMultiply | KDivide => true
  | _ => false
  end.

(** [differentiate] reaches, from the node, a node of a class without a
    derivative. *)
Inductive blocked (h : heap num) : addr -> Prop :=
| blocked_here a nd :
    h !! a = Some nd -> no_derivative (nkind nd) = true -> blocked h a
| blocked_left a nd l :
    h !! a = Some nd -> differentiates_both (nkind nd) = true ->
    left nd = Some l -> blocked h l -> blocked h a
| blocked_right a nd r :
    h !! a = Some nd -> differentiates_both (nkind nd) = true ->
    right nd = Some r -> blocked h r -> blocked h a
| blocked_child a nd c :
    h !! a = Some nd -> nkind nd = KNegate ->
    child nd = Some c -> blocked h c -> blocked h a.

(** What a successful [differentiate] leaves behind. *)
Definition differentiated (h h' : heap num) (d : addr) : Prop :=
  reparented h h'
  /\ length h <= d < length h'
  /\ exists nd, h' !! d = Some nd /\ parent nd = None.

(** A child that is there. *)
Definition present (s : shape num) : bool :=
  match s with SNone => false | SNode _ _ _ _ => true end.

(** The trees [__str__] can render: every node it reaches of a class that
    prints both operands has both ([Power] prints [None] for a missing
    one). *)
Fixpoint renders (s : shape num) : bool :=
  match s with
  | SNone => true
  | SNode _ f l r =>
      match f_kind f with
      | KConstant | KVariable => true
      | KNegate | KAbs | KSgn => renders l
      | KPower => renders l && renders r
      | KEqual | KAdd | KSubtract | KMultiply | KDivide =>
          present l && present r && renders l && renders r
      end
  end.

(** The one failure of [__str__] on a tree. *)
Definition missing_children (o : res string) : Prop :=
  exists k, o = Raise (ValueError (class_name k
                         +:+ ": left/right children must both be valid")).

(** The addresses of a tree in each of the three orders. *)
Fixpoint flatten (order : visit_order) (s : shape num) : list addr :=
  match s with
  | SNone => []
  | SNode a _ l r =>
      match order with
      | Inorder => flatten order l ++ [a] ++ flatten order r
      | Preorder => [a] ++ flatten order l ++ flatten order r
      | Postorder => flatten order l ++ flatten order r ++ [a]
      end
  end.

(** The parent after [unlink]: its links that named the node are cleared. *)
Definition detached (a : addr) (np : node num) : node num :=
  with_right (if bool_decide (right np = Some a) then None else right np)
    (with_left (if bool_decide (left np = Some a) then None else left np) np).

(** The slots [type_id] can return for a class. *)
Definition class_slots (k : kind) (t : Z) : Prop :=
  match k with
  | KNegate => t = 1%Z
  | KEqual => t = 2%Z
  | KAdd => t = 3%Z
  | KSubtract => t = 4%Z
  | KMultiply => t = 5%Z
  | KDivide => t = 6%Z
  | KPower => t = 7%Z
  | KConstant => (16 <= t <= 25)%Z
  | KVariable => (26 <= t <= 52)%Z
  | KAbs | KSgn => False
  end.

(** ** The terms of an expression ([mathy/helpers.py]) *)

(** The visitor of [get_terms] ([helpers.py]): at an addition or a
    subtraction, the operands that are not one themselves ([None] is not
    one). *)
Definition get_terms_visit_fn (h : heap num) (nd : node num) : list (option addr) :=
  if is_add_or_sub (nkind nd) then
    (if isinstance h (left nd) is_add_or_sub then [] else [left nd])
    ++ (if isinstance h (right nd) is_add_or_sub then [] else [right nd])
  else [].

(** Modelled from the spec: the inorder walk of [core/tree.py] ("inorder =
    left, self, right"), with the visitor of [get_terms], which never stops
    the walk. *)
Fixpoint get_terms_walk (fuel : nat) (h : heap num) (a : addr)
  : res (list (option addr)) :=
  match fuel with
  | 0 => OutOfFuel
  | S f =>
      let* nd := deref h a in
      let* ls := match left nd with
                 | None => Ok []
                 | Some l => get_terms_walk f h l
                 end in
      let* rs := match right nd with
                 | None => Ok []
                 | Some r => get_terms_walk f h r
                 end in
      Ok (ls ++ get_terms_visit_fn h nd ++ rs)
  end.

(** [get_terms] of [helpers.py] *)
Definition get_terms (fuel : nat) (h : heap num) (expression : addr)
  : res (list (option addr)) :=
  let* root := get_root fuel h expression in
  let* nroot := deref h root in
  let first := if kind_eqb KMultiply (nkind nroot) then [Some root] else [] in
  let* rest := get_terms_walk fuel h root in
  let results := first ++ rest in
  Ok (if (length results =? 0)%nat then [Some expression] else results).

(** A tree without additions and subtractions. *)
Fixpoint sum_free (s : shape num) : Prop :=
  match s with
  | SNone => True
  | SNode _ f l r => is_add_or_sub (f_kind f) = false /\ sum_free l /\ sum_free r
  end.

(** An addition or a subtraction at the root. *)
Definition is_sum (s : shape num) : bool :=
  match s with
  | SNone => false
  | SNode _ f _ _ => is_add_or_sub (f_kind f)
  end.

(** A sum of terms: the additions and subtractions sit at the top, each
    with both operands, over trees that hold none. *)
Fixpoint sum_of_terms (s : shape num) : Prop :=
  match s with
  | SNone => False
  | SNode _ f l r =>
      if is_add_or_sub (f_kind f) then sum_of_terms l /\ sum_of_terms r
      else sum_free l /\ sum_free r
  end.

(** The terms of a sum of terms, from left to right. *)
Fixpoint summands (s : shape num) : list addr :=
  match s with
  | SNone => []
  | SNode a f l r =>
      if is_add_or_sub (f_kind f) then summands l ++ summands r else [a]
  end.

(** The store [h'] is [h] after some allocations and some recordings of a
    new copy in [cloned_node] of a tracked object (one whose [cloned_target]
    is set). *)
Definition tracked_only (h h' : heap num) : Prop :=
  length h <= length h'
  /\ forall x nd, h !! x = Some nd ->
       h' !! x = Some nd
       \/ (cloned_target nd <> None
           /\ exists c, length h <= c
                /\ h' !! x = Some (with_cloned_node (Some c) nd)).

End More.

Arguments TermEx : clear implicits.

(** [x * y]: the multiply node is object 2. *)
Definition heap_x_times_y : heap pynum :=
  Eval cbv in (built (EBin KMultiply (EVar "x") (EVar "y"))).1.

(** [-3]: the negation is object 1, the constant 0. *)
Definition heap_neg_3 : heap pynum :=
  Eval cbv in (built (EUn KNegate (EConst (PyInt 3)))).1.

(** * Properties *)

Section Properties.
Context {num : Type} {N : Num num} {C : Colr} {Txt : Str}.

(** ** CommutativeSwapRule.can_apply_to *)

(** C3, as amended: [can_apply_to] accepts every Add node; it accepts every
    Multiply node when [preferred] is [True]; when [preferred] is [False] it
    refuses a Multiply node in canonical order ([Constant * Variable] or
    [Constant * (Variable ^ Constant)]) and accepts one that is neither
    [Constant * Variable] nor has a [Variable ^ Constant] on its right; it
    refuses every other kind of node. *)
Theorem can_apply_to_amended (rule : CommutativeSwapRule) (h : heap num)
  (a : addr) (nd : node num) :
  h !! a = Some nd ->
  (nkind nd = KAdd -> can_apply_to rule h a = true) /\
  (nkind nd = KMultiply -> preferred rule = true -> can_apply_to rule h a = true) /\
  (nkind nd = KMultiply -> preferred rule = false ->
   canonical_order h nd = true -> can_apply_to rule h a = false) /\
  (nkind nd = KMultiply -> preferred rule = false ->
   isinstance h (left nd) (kind_eqb KConstant)
   && isinstance h (right nd) (kind_eqb KVariable) = false ->
   var_pow_const h (right nd) = false -> can_apply_to rule h a = true) /\
  (nkind nd <> KAdd -> nkind nd <> KMultiply -> can_apply_to rule h a = false).
Proof.
  intros Hnd. unfold can_apply_to. rewrite Hnd.
  repeat split.
  - intros ->. reflexivity.
  - intros -> ->. reflexivity.
  - intros -> -> Hcan. cbn.
    unfold canonical_order in Hcan.
    apply andb_true_iff in Hcan as [Hl Hr]. rewrite Hl. cbn.
    destruct (isinstance h (right nd) (kind_eqb KVariable)) eqn:Hv; [reflexivity|].
    cbn in Hr. unfold var_pow_const in Hr.
    destruct (right nd) as [r|] eqn:Er; [|discriminate].
    destruct (h !! r) as [nr|] eqn:Enr; [|discriminate].
    apply andb_true_iff in Hr as [Hr Hrc].
    apply andb_true_iff in Hr as [Hp Hrv].
    assert (Hip : isinstance h (Some r) (kind_eqb KPower) = true).
    { unfold isinstance, kind_at. rewrite Enr. exact Hp. }
    rewrite Hip, Hrv, Hrc. reflexivity.
  - intros -> -> Hcv Hvp. cbn. rewrite Hcv.
    destruct (isinstance h (right nd) (kind_eqb KPower)) eqn:Hp; [|reflexivity].
    destruct (right nd) as [r|] eqn:Er; [|reflexivity].
    destruct (h !! r) as [nr|] eqn:Enr; [|reflexivity].
    unfold var_pow_const in Hvp. rewrite Enr in Hvp.
    unfold isinstance, kind_at in Hp. rewrite Enr in Hp. rewrite Hp in Hvp.
    cbn in Hvp. rewrite Hvp. reflexivity.
  - intros HA HM. destruct (nkind nd); try reflexivity; congruence.
Qed.

(** ** type_id *)

Lemma MathTypeKeysMax_value : MathTypeKeysMax = 52%Z.
Proof. reflexivity. Qed.

Lemma constant_slot (r : Z) :
  (0 <= r < 10)%Z ->
  MathTypeKeys_item ("constant" +:+ ("_" +:+ string_of_Z r)) = Ok (16 + r)%Z.
Proof.
  intros Hr.
  assert (r = 0 \/ r = 1 \/ r = 2 \/ r = 3 \/ r = 4 \/ r = 5 \/ r = 6
          \/ r = 7 \/ r = 8 \/ r = 9)%Z as Hc by lia.
  repeat (destruct Hc as [-> | Hc]; [reflexivity|]). subst r. reflexivity.
Qed.

Lemma variable_slot (c : ascii) :
  is_letter c = true ->
  MathTypeKeys_item ("variable" +:+ ("_" +:+ String (ascii_lower c) "")) = Ok (letter_slot c)
  /\ (27 <= letter_slot c <= 52)%Z.
Proof.
  destruct c as [[] [] [] [] [] [] [] []]; vm_compute; intros H;
    first [discriminate H | split; [reflexivity | split; discriminate]].
Qed.

Lemma is_letter_ascii (c : ascii) : is_letter c = true -> (nat_of_ascii c < 128)%nat.
Proof.
  destruct c as [[] [] [] [] [] [] [] []]; vm_compute; intros H;
    first [discriminate H | lia].
Qed.

(** C8, as amended: [type_id] returns an integer in [0, MathTypeKeysMax]
    for the operator kinds (Negate, Equal, Add, Subtract, Multiply, Divide,
    Power: a slot in 0..15), for a constant with an integer value, which goes
    to slot [16 + value mod 10] with Python's floor remainder (a number from
    0 to 9 also for a negative value), and for a variable whose identifier
    starts with an ASCII letter, which goes to the slot of that letter in
    lower case; [MathTypeKeysMax] is 52. *)
Theorem type_id_amended `{!NumIntegers num} `{StrAscii0 : !StrAscii} :
  (forall nd : node num,
     is_binary (nkind nd) = true \/ nkind nd = KNegate ->
     exists t, type_id nd = Ok t /\ (0 <= t <= 15)%Z)
  /\ (forall (nd : node num) (z : Z),
        nkind nd = KConstant -> value nd = Some (num_of_Z z) ->
        type_id nd = Ok (16 + z mod 10)%Z
        /\ (16 <= 16 + z mod 10 <= MathTypeKeysMax)%Z)
  /\ (forall (nd : node num) (c : ascii) (s : string),
        nkind nd = KVariable -> identifier nd = Some (String c s) ->
        is_letter c = true ->
        type_id nd = Ok (letter_slot c)
        /\ (16 <= letter_slot c <= MathTypeKeysMax)%Z)
  /\ MathTypeKeysMax = 52%Z.
Proof.
  repeat split.
  - intros nd [Hb | Hn]; unfold type_id.
    + destruct (nkind nd); try discriminate Hb; eexists; (split; [reflexivity|lia]).
    + rewrite Hn. eexists; (split; [reflexivity|lia]).
  - unfold type_id. rewrite H, H0. cbn [bind_res].
    rewrite num_int_mod_of_Z by lia. cbn [bind_res].
    apply constant_slot. apply Z.mod_pos_bound. lia.
  - pose proof (Z.mod_pos_bound z 10). lia.
  - rewrite MathTypeKeysMax_value. pose proof (Z.mod_pos_bound z 10). lia.
  - unfold type_id. rewrite H, H0. cbn [bind_res].
    rewrite (lower_first_ascii c s (is_letter_ascii c H1)).
    apply variable_slot. exact H1.
  - pose proof (variable_slot c H1) as [_ ?]. lia.
  - rewrite MathTypeKeysMax_value. pose proof (variable_slot c H1) as [_ ?]. lia.
Qed.

(** ** terms_are_like *)

Lemma ident_in_elem_of (v : option string) (l : list (option string)) :
  ident_in v l = true <-> v ∈ l.
Proof.
  unfold ident_in, ident_eqb. rewrite existsb_exists. split.
  - intros (x & Hin & Hx). apply bool_decide_eq_true in Hx. subst x.
    by apply list_elem_of_In.
  - intros Hin. exists v. split; [by apply list_elem_of_In|].
    by apply bool_decide_eq_true.
Qed.

Lemma no_missing_identifier (l1 l2 : list (option string)) :
  (0 <? length (List.filter (fun v => negb (ident_in v l2)) l1))%nat = false
  <-> forall v, v ∈ l1 -> v ∈ l2.
Proof.
  rewrite Nat.ltb_ge. split.
  - intros Hlen v Hv.
    destruct (ident_in v l2) eqn:E; [by apply ident_in_elem_of|].
    assert (In v (List.filter (fun v => negb (ident_in v l2)) l1)) as Hf.
    { apply filter_In. split; [by apply list_elem_of_In|]. by rewrite E. }
    destruct (List.filter _ l1); [destruct Hf|simpl in Hlen; lia].
  - intros Hall.
    destruct (List.filter (fun v => negb (ident_in v l2)) l1) as [|x l] eqn:E;
      [simpl; lia|].
    assert (In x (List.filter (fun v => negb (ident_in v l2)) l1)) as Hf
      by (rewrite E; left; reflexivity).
    apply filter_In in Hf as [Hin Hneg].
    apply list_elem_of_In, Hall, ident_in_elem_of in Hin.
    rewrite Hin in Hneg. discriminate.
Qed.

Lemma like_summaries_no_variables (one two : TermResult num) :
  variables one = [] -> variables two = [] -> like_summaries one two = true.
Proof. intros H1 H2. unfold like_summaries. rewrite H1, H2. reflexivity. Qed.

Lemma like_summaries_unfold (one two : TermResult num) :
  like_summaries one two =
  ((length (variables one) =? 0)%nat && (length (variables two) =? 0)%nat)
  || ((length (variables one) =? length (variables two))%nat
      && negb (0 <? length (List.filter (fun v => negb (ident_in v (variables two)))
                              (variables one)))%nat
      && exponent_eqb (exponent one) (exponent two)).
Proof.
  unfold like_summaries.
  destruct ((length (variables one) =? 0)%nat && (length (variables two) =? 0)%nat);
    [reflexivity|].
  destruct (length (variables one) =? length (variables two))%nat; [|reflexivity].
  destruct (0 <? length _)%nat; [reflexivity|].
  destruct (exponent_eqb _ _); reflexivity.
Qed.

Lemma like_summaries_nodup (one two : TermResult num) :
  NoDup (variables one) -> NoDup (variables two) ->
  variables one <> [] \/ variables two <> [] ->
  like_summaries one two = true <->
  (forall v, v ∈ variables one <-> v ∈ variables two)
  /\ exponent_eqb (exponent one) (exponent two) = true.
Proof.
  intros N1 N2 Hne. rewrite like_summaries_unfold.
  rewrite orb_true_iff, !andb_true_iff, negb_true_iff, !Nat.eqb_eq.
  rewrite no_missing_identifier, !length_zero_iff_nil.
  split.
  - intros [[H1 H2] | [[Hl Hsub] He]]; [tauto|]. split; [|exact He].
    assert (variables one ≡ₚ variables two) as Hp.
    { apply submseteq_length_Permutation; [|lia]. by apply NoDup_submseteq. }
    intros v. by rewrite Hp.
  - intros [Hset He]. right. split; [split|exact He].
    + apply Permutation_length. by apply NoDup_Permutation.
    + intros v. apply Hset.
Qed.

(** C9, as amended: for terms [a] and [b] from which [get_term] extracts
    summaries, [terms_are_like(a, b)] returns [True] when neither summary has
    a variable, whatever the exponents; and when the variable lists are free
    of repetitions and not both empty, it returns [True] if and only if the
    two have the same set of variables and equal exponents. *)
Theorem terms_are_like_amended (fuel : nat) (h : heap num) (a b : addr)
  (one two : TermResult num) :
  get_term fuel h a = Ok (Some one) ->
  get_term fuel h b = Ok (Some two) ->
  exists r, terms_are_like fuel h (TExpr a) (TExpr b) = Ok r
    /\ (variables one = [] -> variables two = [] -> r = true)
    /\ (NoDup (variables one) -> NoDup (variables two) ->
        variables one <> [] \/ variables two <> [] ->
        r = true <->
        (forall v, v ∈ variables one <-> v ∈ variables two)
        /\ exponent_eqb (exponent one) (exponent two) = true).
Proof.
  intros Ha Hb. exists (like_summaries one two).
  unfold terms_are_like. rewrite Ha, Hb. cbn [bind_res].
  split; [reflexivity|]. split.
  - apply like_summaries_no_variables.
  - apply like_summaries_nodup.
Qed.

(** ** The swap, in place *)

Lemma with_parent_same (x : node num) (p : addr) :
  parent x = Some p -> with_parent (Some p) x = x.
Proof. destruct x; simpl; intros ->; reflexivity. Qed.

Lemma set_right_linked (h : heap num) (n : addr) (nd : node num) (c : option addr) :
  h !! n = Some nd ->
  (forall c', c = Some c' -> exists nc, h !! c' = Some nc /\ parent nc = Some n) ->
  set_right h n c = Ok (<[n := with_right c nd]> h).
Proof.
  intros Hnd Hc. unfold set_right, deref. rewrite Hnd. cbn [bind_res].
  destruct c as [c'|]; [|reflexivity].
  destruct (Hc c' eq_refl) as (nc & Hnc & Hp).
  destruct (decide (c' = n)) as [->|Hne].
  - rewrite list_lookup_insert_eq by (by eapply lookup_lt_Some).
    cbn [bind_res]. f_equal.
    assert (nc = nd) by congruence. subst nc.
    rewrite with_parent_same; [|exact Hp].
    apply list_insert_insert_eq.
  - rewrite list_lookup_insert_ne by done. rewrite Hnc. cbn [bind_res]. f_equal.
    rewrite with_parent_same by exact Hp.
    apply list_insert_id. by rewrite list_lookup_insert_ne.
Qed.

Lemma set_left_linked (h : heap num) (n : addr) (nd : node num) (c : option addr) :
  h !! n = Some nd ->
  (forall c', c = Some c' -> exists nc, h !! c' = Some nc /\ parent nc = Some n) ->
  set_left h n c = Ok (<[n := with_left c nd]> h).
Proof.
  intros Hnd Hc. unfold set_left, deref. rewrite Hnd. cbn [bind_res].
  destruct c as [c'|]; [|reflexivity].
  destruct (Hc c' eq_refl) as (nc & Hnc & Hp).
  destruct (decide (c' = n)) as [->|Hne].
  - rewrite list_lookup_insert_eq by (by eapply lookup_lt_Some).
    cbn [bind_res]. f_equal.
    assert (nc = nd) by congruence. subst nc.
    rewrite with_parent_same; [|exact Hp].
    apply list_insert_insert_eq.
  - rewrite list_lookup_insert_ne by done. rewrite Hnc. cbn [bind_res]. f_equal.
    rewrite with_parent_same by exact Hp.
    apply list_insert_id. by rewrite list_lookup_insert_ne.
Qed.

(** Objects that agree on [parent] give the same root. *)
Lemma get_root_ext (h h' : heap num) :
  (forall x, parent <$> (h' !! x) = parent <$> (h !! x)) ->
  forall fuel a, get_root fuel h' a = get_root fuel h a.
Proof.
  intros Hext. induction fuel as [|f IH]; intros a; [reflexivity|].
  cbn [get_root]. unfold deref.
  specialize (Hext a).
  destruct (h' !! a) as [nd'|], (h !! a) as [nd|]; try discriminate Hext;
    cbn [bind_res]; [|reflexivity].
  injection Hext as ->. destruct (parent nd); [apply IH|reflexivity].
Qed.

Lemma apply_to_in_place (fuel : nat) (rule : CommutativeSwapRule) (h : heap num)
  (n : addr) (nd : node num) (rt : addr) :
  h !! n = Some nd ->
  linked h n nd ->
  can_apply_to rule h n = true ->
  get_root fuel h n = Ok rt ->
  apply_to fuel rule h n
  = Ok (<[n := swapped nd]> h, mkChange n (Some n) (Some rt)).
Proof.
  intros Hnd Hl Hcan Hroot.
  assert (n < length h) as Hlt by (by eapply lookup_lt_Some).
  unfold apply_to, BaseRule_apply_to. rewrite Hcan. cbn [bind_res].
  unfold deref at 1. rewrite Hnd. cbn [bind_res].
  rewrite (set_right_linked h n nd) by (eauto; intros c' Hc; apply Hl; auto).
  cbn [bind_res].
  rewrite (set_left_linked _ n (with_right (left nd) nd)).
  2:{ by apply list_lookup_insert_eq. }
  2:{ intros c' Hc. destruct (Hl c' (or_intror Hc)) as (nc & Hnc & Hp).
      destruct (decide (c' = n)) as [->|Hne].
      - rewrite list_lookup_insert_eq by done. eexists; split; [reflexivity|].
        assert (nc = nd) by congruence. subst nc. exact Hp.
      - rewrite list_lookup_insert_ne by done. eauto. }
  cbn [bind_res]. rewrite list_insert_insert_eq.
  unfold set_changed, deref. rewrite list_lookup_insert_eq by done.
  cbn [bind_res]. rewrite list_insert_insert_eq.
  unfold done.
  rewrite (get_root_ext h).
  2:{ intros x. destruct (decide (x = n)) as [->|Hne].
      - rewrite list_lookup_insert_eq by done. rewrite Hnd. reflexivity.
      - rewrite list_lookup_insert_ne by done. reflexivity. }
  rewrite Hroot. reflexivity.
Qed.

(** ** The swap preserves the value *)

Lemma bind_res_Ok {A B} (m : res A) (k : A -> res B) (b : B) :
  bind_res m k = Ok b -> exists a, m = Ok a /\ k a = Ok b.
Proof. destruct m; cbn; try discriminate. eauto. Qed.

Lemma operate2_comm `{!NumCommutative num} (k : kind) (one two : option num) :
  k = KAdd \/ k = KMultiply -> operate2 k one two = operate2 k two one.
Proof.
  intros [-> | ->]; destruct one, two; cbn; try reflexivity.
  - by rewrite num_add_comm.
  - by rewrite num_mul_comm.
Qed.

Lemma evaluate_swapped `{!NumCommutative num} (h : heap num) (n : addr) (nd : node num)
  (context : option (gmap string num)) :
  h !! n = Some nd ->
  nkind nd = KAdd \/ nkind nd = KMultiply ->
  forall fuel x v,
    evaluate fuel h context x = Ok v ->
    evaluate fuel (<[n := swapped nd]> h) context x = Ok v.
Proof.
  intros Hnd Hk. induction fuel as [|f IH]; intros x v Hev; [discriminate|].
  assert (n < length h) as Hlt by (by eapply lookup_lt_Some).
  cbn [evaluate] in *. unfold deref in *.
  assert (Hsub : forall o w,
    match o with None => Raise AttributeError | Some c => evaluate f h context c end = Ok w ->
    match o with None => Raise AttributeError
            | Some c => evaluate f (<[n := swapped nd]> h) context c end = Ok w).
  { intros [c|] w; [apply IH|done]. }
  destruct (decide (x = n)) as [->|Hne].
  - rewrite list_lookup_insert_eq by done. rewrite Hnd in Hev. cbn [bind_res] in *.
    assert (nkind (swapped nd) = nkind nd) as Hks by reflexivity. rewrite Hks.
    destruct Hk as [Hk|Hk]; rewrite Hk in *; cbn [swapped left right with_changed with_left with_right];
      apply bind_res_Ok in Hev as (one & H1 & Hev);
      apply bind_res_Ok in Hev as (two & H2 & Hev);
      rewrite (Hsub _ _ H1), (Hsub _ _ H2); cbn [bind_res];
      rewrite operate2_comm by auto; exact Hev.
  - rewrite list_lookup_insert_ne by done.
    destruct (h !! x) as [nx|]; [|discriminate]. cbn [bind_res] in *.
    destruct (nkind nx); try exact Hev;
      try (apply bind_res_Ok in Hev as (one & H1 & Hev);
           rewrite (Hsub _ _ H1); cbn [bind_res];
           first [ exact Hev
                 | apply bind_res_Ok in Hev as (two & H2 & Hev);
                   rewrite (Hsub _ _ H2); cbn [bind_res]; exact Hev ]).
Qed.

Lemma can_apply_to_kind (rule : CommutativeSwapRule) (h : heap num) (n : addr) :
  can_apply_to rule h n = true ->
  exists nd, h !! n = Some nd /\ (nkind nd = KAdd \/ nkind nd = KMultiply).
Proof.
  unfold can_apply_to. destruct (h !! n) as [nd|]; [|discriminate].
  intros H. exists nd. split; [reflexivity|].
  destruct (nkind nd); try discriminate H; auto.
Qed.

(** C1: for an Add or Multiply node [n] that the rule accepts, in a tree
    that keeps the parent invariant at [n], and for bindings under which the
    root of the tree evaluates to [v], [apply_to] returns a change whose root
    evaluates to [v] under the same bindings. *)
Theorem swap_preserves_value `{!NumCommutative num} (fuel : nat)
  (rule : CommutativeSwapRule) (h : heap num) (n rt : addr) (nd : node num)
  (context : option (gmap string num)) (v : option num) :
  h !! n = Some nd ->
  linked h n nd ->
  can_apply_to rule h n = true ->
  get_root fuel h n = Ok rt ->
  evaluate fuel h context rt = Ok v ->
  exists h' change rt',
    apply_to fuel rule h n = Ok (h', change)
    /\ root change = Some rt'
    /\ evaluate fuel h' context rt' = Ok v.
Proof.
  intros Hnd Hl Hcan Hroot Hev.
  destruct (can_apply_to_kind _ _ _ Hcan) as (nd' & Hnd' & Hk).
  assert (nd' = nd) by congruence. subst nd'.
  eexists _, _, rt. split; [by apply apply_to_in_place|].
  split; [reflexivity|].
  by apply evaluate_swapped.
Qed.

(** C2, as amended: [apply_to] works in place.  For a node [n] that the
    rule accepts, in a tree that keeps the parent invariant at [n], the call
    allocates nothing, exchanges the two children of [n] itself and marks it
    changed, leaves every other object as it was, and returns a change whose
    [before] and [after] are [n] and whose [root] is the root of [n]'s own
    tree. *)
Theorem apply_to_mutates_in_place (fuel : nat) (rule : CommutativeSwapRule)
  (h : heap num) (n rt : addr) (nd : node num) :
  h !! n = Some nd ->
  linked h n nd ->
  can_apply_to rule h n = true ->
  get_root fuel h n = Ok rt ->
  exists h' change nd',
    apply_to fuel rule h n = Ok (h', change)
    /\ length h' = length h
    /\ h' !! n = Some nd'
    /\ left nd' = right nd /\ right nd' = left nd /\ changed nd' = true
    /\ (forall x, x <> n -> h' !! x = h !! x)
    /\ before change = n /\ after change = Some n /\ root change = Some rt.
Proof.
  intros Hnd Hl Hcan Hroot.
  exists (<[n := swapped nd]> h), (mkChange n (Some n) (Some rt)), (swapped nd).
  split; [by apply apply_to_in_place|].
  split; [apply length_insert|].
  split; [apply list_lookup_insert_eq; by eapply lookup_lt_Some|].
  repeat (split; [reflexivity|]).
  split; [|repeat split].
  intros x Hx. by apply list_lookup_insert_ne.
Qed.

(** ** Rendering depends on what a node shows *)

Section Bisimulation.
Variables (h h' : heap num) (R : addr -> addr -> Prop).
Hypothesis HR : text_bisimulation h h' R.

Lemma bisim_self_parens (nd nd' : node num) :
  same_face h h' nd nd' -> self_parens h nd = self_parens h' nd'.
Proof. intros (Hk & _ & _ & _ & Hp). unfold self_parens. by rewrite Hk, Hp. Qed.

Lemma bisim_isinstance (o o' : option addr) (cls : kind -> bool) :
  opt_rel R o o' -> isinstance h o cls = isinstance h' o' cls.
Proof.
  unfold isinstance, kind_at.
  destruct o as [a|], o' as [a'|]; cbn; try done.
  intros Ha. specialize (HR a a' Ha).
  destruct (h !! a) as [nd|], (h' !! a') as [nd'|]; try done.
  destruct HR as ((Hk & _) & _). by rewrite Hk.
Qed.

Lemma bisim_left_parens (nd nd' : node num) :
  nkind nd = nkind nd' -> opt_rel R (left nd) (left nd') ->
  left_parens h nd = left_parens h' nd'.
Proof.
  intros Hk Hl. unfold left_parens.
  destruct (left nd) as [a|], (left nd') as [a'|]; cbn in Hl; try done.
  specialize (HR a a' Hl).
  destruct (h !! a) as [na|], (h' !! a') as [na'|]; try done.
  destruct HR as (Hf & _).
  rewrite (bisim_self_parens _ _ Hf). destruct Hf as (Hka & _).
  by rewrite Hka, Hk.
Qed.

Lemma bisim_right_parens (nd nd' : node num) :
  nkind nd = nkind nd' -> opt_rel R (right nd) (right nd') ->
  right_parens h nd = right_parens h' nd'.
Proof.
  intros Hk Hl. unfold right_parens.
  destruct (right nd) as [a|], (right nd') as [a'|]; cbn in Hl; try done.
  specialize (HR a a' Hl).
  destruct (h !! a) as [na|], (h' !! a') as [na'|]; try done.
  destruct HR as (Hf & _).
  rewrite (bisim_self_parens _ _ Hf). destruct Hf as (Hka & _).
  by rewrite Hka, Hk.
Qed.

(** Related objects render to the same text, with any budget. *)
Lemma to_text_bisim (fuel : nat) (a a' : addr) :
  R a a' -> to_text fuel h a = to_text fuel h' a'.
Proof.
  revert a a'. induction fuel as [|f IH]; intros a a' Ha; [reflexivity|].
  cbn [to_text]. unfold deref.
  pose proof (HR a a' Ha) as Hb.
  destruct (h !! a) as [nd|], (h' !! a') as [nd'|]; try done.
  destruct Hb as (Hf & Hl & Hr). cbn [bind_res]. pose proof Hf as HfK.
  pose proof Hf as (Hk & Hv & Hi & _).
  assert (Hsl : match left nd with None => Ok "None" | Some c => to_text f h c end
                = match left nd' with None => Ok "None" | Some c => to_text f h' c end).
  { destruct (left nd), (left nd'); cbn in Hl; try done. by apply IH. }
  assert (Hsr : match right nd with None => Ok "None" | Some c => to_text f h c end
                = match right nd' with None => Ok "None" | Some c => to_text f h' c end).
  { destruct (right nd), (right nd'); cbn in Hr; try done. by apply IH. }
  destruct Hf as (_ & _ & _ & Hc & _).
  unfold with_color. rewrite <- Hk, <- Hc.
  rewrite <- (bisim_self_parens _ _ (HfK)).
  rewrite <- (bisim_left_parens _ _ Hk Hl), <- (bisim_right_parens _ _ Hk Hr).
  rewrite <- !(bisim_isinstance _ _ _ Hl), <- !(bisim_isinstance _ _ _ Hr).
  rewrite <- Hsl, <- Hsr.
  assert (Hchild : forall (o o' : option addr) (k : string -> res string) (d : res string),
            opt_rel R o o' ->
            match o with Some c => let* cs := to_text f h c in k cs | None => d end
            = match o' with Some c => let* cs := to_text f h' c in k cs | None => d end).
  { intros [c|] [c'|] k d Ho; cbn in Ho; try done. by rewrite (IH _ _ Ho). }
  assert (Hbin : forall k : string -> string -> res string, forall d : res string,
    match left nd, right nd with
    | Some l, Some r =>
        let* ls := to_text f h l in let* rs := to_text f h r in k ls rs
    | _, _ => d
    end
    = match left nd', right nd' with
      | Some l, Some r =>
          let* ls := to_text f h' l in let* rs := to_text f h' r in k ls rs
      | _, _ => d
      end).
  { intros k d.
    destruct (left nd) as [l|], (left nd') as [l'|]; cbn in Hl; try done;
      destruct (right nd) as [r|], (right nd') as [r'|]; cbn in Hr; try done.
    by rewrite (IH _ _ Hl), (IH _ _ Hr). }
  destruct (nkind nd);
    try (rewrite <- Hv by reflexivity); try (rewrite <- Hi by reflexivity);
    try reflexivity;
    first [ apply (Hbin (fun ls rs => Ok _))
          | apply (Hchild _ _ (fun cs => Ok _)); exact Hl
          | idtac ].
  destruct (isinstance h (left nd) (kind_eqb KConstant) && _);
    [reflexivity|]. apply (Hbin (fun ls rs => Ok _)).
Qed.

End Bisimulation.
Lemma opt_rel_eq_refl (o : option addr) : opt_rel eq o o.
Proof. destruct o; cbn; done. Qed.

Lemma kind_at_insert (h : heap num) (n : addr) (nd nd' : node num) (o : option addr) :
  h !! n = Some nd -> nkind nd' = nkind nd ->
  kind_at (<[n := nd']> h) o = kind_at h o.
Proof.
  intros Hnd Hk. unfold kind_at. destruct o as [a|]; [|reflexivity].
  destruct (decide (a = n)) as [->|Hne].
  - rewrite list_lookup_insert_eq by (by eapply lookup_lt_Some).
    by rewrite Hnd, Hk.
  - by rewrite list_lookup_insert_ne.
Qed.

(** Replacing a node by one that shows the same leaves every text as it
    was. *)
Lemma text_bisimulation_insert (h : heap num) (n : addr) (nd nd' : node num) :
  h !! n = Some nd ->
  nkind nd' = nkind nd -> value nd' = value nd -> identifier nd' = identifier nd ->
  left nd' = left nd -> right nd' = right nd -> parent nd' = parent nd ->
  rendering_change nd' && changed nd' = rendering_change nd && changed nd ->
  text_bisimulation (<[n := nd']> h) h eq.
Proof.
  intros Hnd Hk Hv Hi Hl Hr Hp Hc a ? <-.
  destruct (decide (a = n)) as [->|Hne].
  - rewrite list_lookup_insert_eq by (by eapply lookup_lt_Some). rewrite Hnd.
    split; [|rewrite Hl, Hr; split; apply opt_rel_eq_refl].
    repeat split; try done; try (intros _; done).
    rewrite Hp. by eapply kind_at_insert.
  - rewrite list_lookup_insert_ne by done.
    destruct (h !! a) as [na|]; [|done].
    split; [|split; apply opt_rel_eq_refl].
    repeat split. by eapply kind_at_insert.
Qed.

Lemma swapped_swapped (nd : node num) : swapped (swapped nd) = with_changed true nd.
Proof. destruct nd; reflexivity. Qed.

Lemma linked_swapped (h : heap num) (n : addr) (nd : node num) :
  h !! n = Some nd -> linked h n nd -> linked (<[n := swapped nd]> h) n (swapped nd).
Proof.
  intros Hnd Hl c Hc.
  assert (left nd = Some c \/ right nd = Some c) as Hc' by (cbn in Hc; tauto).
  destruct (Hl c Hc') as (nc & Hnc & Hp).
  destruct (decide (c = n)) as [->|Hne].
  - rewrite list_lookup_insert_eq by (by eapply lookup_lt_Some).
    eexists; split; [reflexivity|].
    assert (nc = nd) by congruence. subst nc. exact Hp.
  - rewrite list_lookup_insert_ne by done. eauto.
Qed.

Lemma can_apply_to_again (rule : CommutativeSwapRule) (h : heap num) (n : addr)
  (nd : node num) :
  h !! n = Some nd -> can_apply_to rule h n = true ->
  nkind nd = KAdd \/ preferred rule = true ->
  can_apply_to rule (<[n := swapped nd]> h) n = true.
Proof.
  intros Hnd Hcan Hcase.
  destruct (can_apply_to_kind _ _ _ Hcan) as (nd' & Hnd' & Hk).
  assert (nd' = nd) by congruence. subst nd'.
  unfold can_apply_to.
  rewrite list_lookup_insert_eq by (by eapply lookup_lt_Some).
  assert (nkind (swapped nd) = nkind nd) as -> by reflexivity.
  destruct Hcase as [-> | Hp]; [reflexivity|].
  destruct Hk as [-> | ->]; [reflexivity|]. cbn. by rewrite Hp.
Qed.

(** ** A second swap undoes the first *)

(** C10: two [apply_to] in succession on the same node, each made on a
    node the rule accepts (the precondition of [apply_to]), put the children
    back where they were.  For a node that the rule accepts, in a tree that
    keeps the parent invariant at the node, the first [apply_to] succeeds;
    the rule accepts the node again when it is an Add or when [preferred] is
    [True]; and whenever it accepts the node again, the second [apply_to]
    succeeds and restores the children: the store is the original one with
    the node marked changed, and every text rendered from it is the text
    rendered before. *)
Theorem double_swap_restores (fuel : nat) (rule : CommutativeSwapRule)
  (h : heap num) (n rt : addr) (nd : node num) :
  h !! n = Some nd ->
  linked h n nd ->
  can_apply_to rule h n = true ->
  get_root fuel h n = Ok rt ->
  exists h1 c1,
    apply_to fuel rule h n = Ok (h1, c1)
    /\ (nkind nd = KAdd \/ preferred rule = true -> can_apply_to rule h1 n = true)
    /\ (can_apply_to rule h1 n = true ->
        exists h2 c2 nd2,
          apply_to fuel rule h1 n = Ok (h2, c2)
          /\ h2 !! n = Some nd2
          /\ left nd2 = left nd /\ right nd2 = right nd
          /\ h2 = <[n := with_changed true nd]> h
          /\ root c2 = Some rt
          /\ (rendering_change nd = false ->
              forall f x, to_text f h2 x = to_text f h x)).
Proof.
  intros Hnd Hl Hcan Hroot.
  assert (n < length h) as Hlt by (by eapply lookup_lt_Some).
  eexists _, _. split; [by apply apply_to_in_place|].
  split; [by apply can_apply_to_again|].
  intros Hcan2.
  exists (<[n := with_changed true nd]> h), (mkChange n (Some n) (Some rt)),
    (with_changed true nd).
  split.
  - rewrite (apply_to_in_place fuel rule _ n (swapped nd) rt).
    + by rewrite list_insert_insert_eq, swapped_swapped.
    + by apply list_lookup_insert_eq.
    + by apply linked_swapped.
    + exact Hcan2.
    + rewrite (get_root_ext h); [exact Hroot|].
      intros x. destruct (decide (x = n)) as [->|Hne].
      * rewrite list_lookup_insert_eq by done. by rewrite Hnd.
      * by rewrite list_lookup_insert_ne.
  - split; [by apply list_lookup_insert_eq|].
    repeat (split; [reflexivity|]).
    intros Hplain f x.
    apply (to_text_bisim _ h eq); [|reflexivity].
    apply (text_bisimulation_insert h n nd); try done.
    cbn. by rewrite Hplain.
Qed.

(** ** Parentheses *)

Lemma stated_self_wrap_eq (h : heap num) (nd : node num) :
  stated_self_wrap h nd = self_parens h nd.
Proof.
  unfold stated_self_wrap, self_parens, kind_at.
  destruct (parent nd) as [p|]; [|reflexivity]. by destruct (h !! p).
Qed.

Lemma stated_left_wrap_eq (h : heap num) (nd : node num) (l : addr) :
  left nd = Some l -> stated_child_wrap true h nd l = left_parens h nd.
Proof.
  intros Hl. unfold stated_child_wrap, left_parens. rewrite Hl.
  destruct (h !! l) as [nl|]; [|reflexivity].
  rewrite stated_self_wrap_eq.
  destruct (is_binary _), (self_parens h nl), (_ <? _)%Z; reflexivity.
Qed.

Lemma stated_right_wrap_eq (h : heap num) (nd : node num) (r : addr) :
  right nd = Some r -> stated_child_wrap false h nd r = right_parens h nd.
Proof.
  intros Hr. unfold stated_child_wrap, right_parens. rewrite Hr.
  destruct (h !! r) as [nr|]; [|reflexivity].
  rewrite stated_self_wrap_eq.
  destruct (is_binary _), (self_parens h nr), (_ <=? _)%Z; reflexivity.
Qed.

(** C7, as amended: a binary node with both children, rendered outside
    the coloured mode, gives [left OP right] with the stated parentheses when
    it is an Equal, Add, Subtract or Divide node, or a Multiply node outside
    the compact form; a Power node gives [left^right] with no blanks and no
    parentheses of its own; a Multiply node in the compact form (a constant
    times a variable or a power) gives the two texts side by side. *)
Theorem to_text_binary_amended (fuel : nat) (h : heap num) (a l r : addr)
  (nd : node num) (ls rs : string) :
  h !! a = Some nd ->
  left nd = Some l -> right nd = Some r ->
  rendering_change nd = false ->
  to_text fuel h l = Ok ls ->
  to_text fuel h r = Ok rs ->
  (nkind nd = KEqual \/ nkind nd = KAdd \/ nkind nd = KSubtract \/ nkind nd = KDivide
   \/ (nkind nd = KMultiply /\ compact_multiply h nd = false) ->
   to_text (S fuel) h a = Ok (stated_binary_text h nd l r ls rs))
  /\ (nkind nd = KPower -> to_text (S fuel) h a = Ok (ls +:+ "^" +:+ rs))
  /\ (nkind nd = KMultiply -> compact_multiply h nd = true ->
      to_text (S fuel) h a = Ok (ls +:+ rs)).
Proof.
  intros Hnd Hl Hr Hplain Hls Hrs.
  assert (Hwc : forall s, with_color nd s = s).
  { intros s. unfold with_color. by rewrite Hplain. }
  assert (Hbin :
    (let* ls := to_text fuel h l in
     let* rs := to_text fuel h r in
     Ok (parens (self_parens h nd)
           (parens (left_parens h nd) ls +:+ " "
            +:+ with_color nd (name (nkind nd)) +:+ " "
            +:+ parens (right_parens h nd) rs)))
    = Ok (stated_binary_text h nd l r ls rs)).
  { rewrite Hls, Hrs. cbn [bind_res]. unfold stated_binary_text.
    by rewrite Hwc, stated_self_wrap_eq, stated_left_wrap_eq, stated_right_wrap_eq. }
  assert (Hcat :
    (let* ls := to_text fuel h l in
     let* rs := to_text fuel h r in
     Ok (with_color nd (ls +:+ rs))) = Ok (ls +:+ rs)).
  { rewrite Hls, Hrs. cbn [bind_res]. by rewrite Hwc. }
  assert (Hpow :
    (let* ls := to_text fuel h l in
     let* rs := to_text fuel h r in
     Ok (ls +:+ with_color nd (name (nkind nd)) +:+ rs))
    = Ok (ls +:+ name (nkind nd) +:+ rs)).
  { rewrite Hls, Hrs. cbn [bind_res]. by rewrite Hwc. }
  cbn [to_text]. unfold deref. rewrite Hnd. cbn [bind_res]. rewrite Hl, Hr.
  unfold compact_multiply. rewrite Hl, Hr.
  revert Hbin Hcat Hpow.
  destruct (nkind nd); intros Hbin Hcat Hpow; repeat split;
    try (intros [Hk | [Hk | [Hk | [Hk | [Hk Hcm]]]]]; try discriminate Hk);
    try (intros Hk; discriminate Hk);
    try exact Hbin; try (intros _; exact Hpow).
  - rewrite Hcm. exact Hbin.
  - intros _ Hcm. rewrite Hcm. exact Hcat.
Qed.

(** ** Cloning a tree and tracking a node *)

Lemma with_cloned_node_same (nd : node num) :
  with_cloned_node (cloned_node nd) nd = nd.
Proof. by destruct nd. Qed.

Lemma evolved_app (h l : heap num) : evolved h (h ++ l).
Proof.
  intros x nd Hx. exists (cloned_node nd).
  rewrite with_cloned_node_same. by apply lookup_app_l_Some.
Qed.

Lemma same_tree_insert (h : heap num) (n : addr) (nd nd' : node num) :
  h !! n = Some nd ->
  face_of nd' = face_of nd -> parent nd' = parent nd ->
  left nd' = left nd -> right nd' = right nd ->
  same_tree h (<[n := nd']> h).
Proof.
  intros Hn Hf Hp Hl Hr x ndx Hx.
  destruct (decide (x = n)) as [->|Hne].
  - exists nd'. rewrite list_lookup_insert_eq by (by eapply lookup_lt_Some).
    assert (ndx = nd) by congruence. by subst.
  - exists ndx. by rewrite list_lookup_insert_ne.
Qed.

Lemma same_tree_trans (h1 h2 h3 : heap num) :
  same_tree h1 h2 -> same_tree h2 h3 -> same_tree h1 h3.
Proof.
  intros H12 H23 x nd Hx.
  destruct (H12 _ _ Hx) as (nd2 & Hx2 & Hf & Hp & Hl & Hr).
  destruct (H23 _ _ Hx2) as (nd3 & Hx3 & Hf3 & Hp3 & Hl3 & Hr3).
  exists nd3. repeat split; congruence.
Qed.

Lemma repr_same_tree (h h' : heap num) (s : shape num) :
  same_tree h h' -> forall p, repr h p s -> repr h' p s.
Proof.
  intros He. induction s as [|a f l IHl r IHr]; intros p Hr; [done|].
  destruct Hr as (nd & Hnd & Hf & Hp & Hl & Hrr & Hsl & Hsr).
  destruct (He _ _ Hnd) as (nd' & Hnd' & Hf' & Hp' & Hl' & Hr').
  exists nd'. repeat split; try congruence; auto.
Qed.

Lemma face_kind (nd nd' : node num) : face_of nd' = face_of nd -> nkind nd' = nkind nd.
Proof. intros H. exact (f_equal f_kind H). Qed.

Lemma path_points_same_tree (h h' : heap num) :
  same_tree h h' ->
  forall f a p, path_points f h a = Ok p -> path_points f h' a = Ok p.
Proof.
  intros He. induction f as [|f IH]; intros a p Hp; [done|].
  cbn [path_points] in *. unfold deref in *.
  destruct (h !! a) as [nd|] eqn:Hnd; [|done].
  destruct (He _ _ Hnd) as (nd' & Hnd' & Hf & Hpa & _). rewrite Hnd'.
  cbn [bind_res] in *. rewrite Hpa, (face_kind _ _ Hf).
  destruct (parent nd) as [q|]; [|done].
  destruct (path_points f h q) as [rest| | |] eqn:Hq; try done.
  by rewrite (IH _ _ Hq).
Qed.

Lemma get_root_same_tree (h h' : heap num) :
  same_tree h h' ->
  forall f a r, get_root f h a = Ok r -> get_root f h' a = Ok r.
Proof.
  intros He. induction f as [|f IH]; intros a r Hr; [done|].
  cbn [get_root] in *. unfold deref in *.
  destruct (h !! a) as [nd|] eqn:Hnd; [|done].
  destruct (He _ _ Hnd) as (nd' & Hnd' & _ & Hpa & _). rewrite Hnd'.
  cbn [bind_res] in *. rewrite Hpa.
  destruct (parent nd) as [q|]; [by apply IH|done].
Qed.

Lemma evolved_same_tree (h h' : heap num) : evolved h h' -> same_tree h h'.
Proof.
  intros He x nd Hx. destruct (He _ _ Hx) as (o & Ho).
  exists (with_cloned_node o nd). by repeat split.
Qed.

Lemma repr_evolved (h h' : heap num) (s : shape num) :
  evolved h h' -> forall p, repr h p s -> repr h' p s.
Proof. intros He. by apply repr_same_tree, evolved_same_tree. Qed.

Lemma path_to_root_same_tree (h h' : heap num) (f : nat) (a : addr) (p : string) :
  same_tree h h' -> path_to_root f h a = Ok p -> path_to_root f h' a = Ok p.
Proof.
  intros He. unfold path_to_root.
  destruct (path_points f h a) as [pts| | |] eqn:Hp; try done.
  by rewrite (path_points_same_tree _ _ He _ _ _ Hp).
Qed.

Lemma path_to_root_evolved (h h' : heap num) (f : nat) (a : addr) (p : string) :
  evolved h h' -> path_to_root f h a = Ok p -> path_to_root f h' a = Ok p.
Proof. intros He. by apply path_to_root_same_tree, evolved_same_tree. Qed.

Lemma repr_lookup (h : heap num) (s : shape num) :
  forall p x, repr h p s -> in_shape x s -> x < length h.
Proof.
  induction s as [|a f l IHl r IHr]; intros p x Hr Hin; [done|].
  destruct Hr as (nd & Hnd & _ & _ & _ & _ & Hl & Hrr).
  destruct Hin as [-> | [Hin | Hin]].
  - by eapply lookup_lt_Some.
  - by eapply IHl.
  - by eapply IHr.
Qed.

(** A tree keeps its shape when the store changes outside it. *)
Lemma repr_frame (h h' : heap num) (s : shape num) :
  (forall x, in_shape x s -> h' !! x = h !! x) ->
  forall p, repr h p s -> repr h' p s.
Proof.
  induction s as [|a f l IHl r IHr]; intros Hsame p Hr; [done|].
  destruct Hr as (nd & Hnd & Hf & Hp & Hl & Hrr & Hsl & Hsr).
  exists nd. rewrite Hsame by (by left).
  repeat split; auto.
  - apply IHl; [|done]. intros x Hx. apply Hsame. right. by left.
  - apply IHr; [|done]. intros x Hx. apply Hsame. right. by right.
Qed.

Lemma within_in_shape (lo hi : nat) (s : shape num) (x : addr) :
  within lo hi s -> in_shape x s -> lo <= x < hi.
Proof.
  induction s as [|a f l IHl r IHr]; intros Hw Hin; [done|].
  destruct Hw as (Ha & Hl & Hr). destruct Hin as [-> | [Hin | Hin]]; auto.
Qed.

Lemma within_weaken (lo hi lo' hi' : nat) (s : shape num) :
  lo' <= lo -> hi <= hi' -> within lo hi s -> within lo' hi' s.
Proof.
  intros Hlo Hhi. induction s as [|a f l IHl r IHr]; intros Hw; [done|].
  destruct Hw as (Ha & Hl & Hr). repeat split; auto; lia.
Qed.

Lemma corr_in_shape (s : shape num) :
  forall s' x c, corr s s' x c -> in_shape x s /\ in_shape c s'.
Proof.
  induction s as [|a f l IHl r IHr]; intros [|a' f' l' r'] x c Hc; try done.
  destruct Hc as [[-> ->] | [Hc | Hc]].
  - split; by left.
  - destruct (IHl _ _ _ Hc). split; right; by left.
  - destruct (IHr _ _ _ Hc). split; right; by right.
Qed.

(** The two link setters, on a parent and a child that are different
    objects. *)
Lemma set_left_fresh (h : heap num) (p c : addr) (np nc : node num) :
  h !! p = Some np -> h !! c = Some nc -> c <> p ->
  set_left h p (Some c)
  = Ok (<[c := with_parent (Some p) nc]> (<[p := with_left (Some c) np]> h)).
Proof.
  intros Hp Hc Hne. unfold set_left, deref. rewrite Hp. cbn [bind_res].
  rewrite list_lookup_insert_ne by done. by rewrite Hc.
Qed.

Lemma set_right_fresh (h : heap num) (p c : addr) (np nc : node num) :
  h !! p = Some np -> h !! c = Some nc -> c <> p ->
  set_right h p (Some c)
  = Ok (<[c := with_parent (Some p) nc]> (<[p := with_right (Some c) np]> h)).
Proof.
  intros Hp Hc Hne. unfold set_right, deref. rewrite Hp. cbn [bind_res].
  rewrite list_lookup_insert_ne by done. by rewrite Hc.
Qed.

Lemma clone_child (pf f : nat)
  (set : heap num -> addr -> option addr -> res (heap num))
  (upd : option addr -> node num -> node num)
  (sc : shape num) (hc : heap num) (pa res : addr) (nres : node num) :
  (forall h p c np nc, h !! p = Some np -> h !! c = Some nc -> c <> p ->
     set h p (Some c)
     = Ok (<[c := with_parent (Some p) nc]> (<[p := upd (Some c) np]> h))) ->
  upd None nres = nres ->
  clone_statement pf sc ->
  repr hc (Some pa) sc -> height sc <= f ->
  (forall x nd t, in_shape x sc -> hc !! x = Some nd -> cloned_target nd = Some t ->
     exists pth, path_to_root pf hc x = Ok pth) ->
  hc !! res = Some nres -> ~ in_shape res sc ->
  exists h1 sc',
    match sroot sc with
    | None => Ok hc
    | Some c => let* (hl, c') := clone pf f hc c in set hl res (Some c')
    end = Ok h1
    /\ child_post pf hc h1 res nres upd sc sc'.
Proof.
  intros Hset Hnone IH Hrepr Hh Hpath Hres Hnin.
  destruct sc as [|c fc lc rc].
  { exists hc, SNone. split; [reflexivity|].
    split; [done|]. split; [cbn [sroot]; by rewrite Hnone|].
    repeat split; try done. intros; by left. }
  destruct (IH f hc (Some pa) c eq_refl Hrepr Hh Hpath) as (hl & sc' & Hcl & Hpost).
  destruct Hpost as (Hlen & Hroot & Hr' & Hm & P1 & P2).
  destruct sc' as [|c' fc' lc' rc']; [done|].
  destruct Hroot as (-> & Hwl & Hwr).
  assert (res < length hc) as Hreslt by (by eapply lookup_lt_Some).
  assert (hl !! res = Some nres) as Hres'.
  { destruct (P1 _ _ Hres) as [?|(cc & Hcc & _)]; [done|].
    apply corr_in_shape in Hcc as [Hcc _]. done. }
  pose proof Hr' as (nc' & Hnc' & Hfc' & Hpc' & Hlc' & Hrc' & Hreprl & Hreprr).
  exists (<[length hc := with_parent (Some res) nc']>
            (<[res := upd (Some (length hc)) nres]> hl)),
         (SNode (length hc) fc' lc' rc').
  split.
  { cbn [sroot]. rewrite Hcl. cbn [bind_res].
    apply (Hset _ _ _ _ _ Hres' Hnc'). lia. }
  assert (Hother : forall x, x <> res -> x <> length hc ->
            <[length hc := with_parent (Some res) nc']>
              (<[res := upd (Some (length hc)) nres]> hl) !! x = hl !! x).
  { intros x H1 H2. by rewrite !list_lookup_insert_ne. }
  split; [rewrite !length_insert; lia|].
  split.
  { rewrite list_lookup_insert_ne by lia.
    apply list_lookup_insert_eq. by eapply lookup_lt_Some. }
  split.
  { exists (with_parent (Some res) nc').
    split; [apply list_lookup_insert_eq; rewrite length_insert; lia|].
    repeat split; try done.
    - eapply repr_frame; [|exact Hreprl].
      intros x Hx. pose proof (within_in_shape _ _ _ _ Hwl Hx).
      apply Hother; lia.
    - eapply repr_frame; [|exact Hreprr].
      intros x Hx. pose proof (within_in_shape _ _ _ _ Hwr Hx).
      apply Hother; lia. }
  split; [exact Hm|].
  split.
  { cbn [within]. rewrite !length_insert.
    split; [lia|].
    split; apply (within_weaken (S (length hc)) (length hl)); (lia || done). }
  split.
  - intros x nd Hx Hnd.
    assert (x < length hc) by (by eapply lookup_lt_Some).
    rewrite Hother by lia. by apply P1.
  - intros x nd t Hin Hnd Ht Hp.
    assert (x < length hc) by (by eapply lookup_lt_Some).
    assert (x <> res) by (intros ->; done).
    rewrite Hother by lia. by eapply P2.
Qed.


Lemma repr_node (h : heap num) (s : shape num) :
  forall p x, repr h p s -> in_shape x s -> exists nd, h !! x = Some nd.
Proof.
  intros p x Hr Hin. apply lookup_lt_is_Some_2. by eapply repr_lookup.
Qed.

Lemma clone_spec (pf : nat) (s : shape num) : clone_statement pf s.
Proof.
  induction s as [|a0 f l IHl r IHr]; intros fuel h p a Hroot Hrepr Hh Hpath; [done|].
  cbn [sroot] in Hroot. injection Hroot as ->.
  destruct fuel as [|fu]; [cbn in Hh; lia|].
  cbn [height] in Hh.
  pose proof Hrepr as (nd & Hnd & Hf & Hp & Hl & Hr & Hreprl & Hreprr).
  assert (a < length h) as Halt by (by eapply lookup_lt_Some).
  assert (H0res : (h ++ [new_node (nkind nd)]) !! length h = Some (new_node (nkind nd)))
    by (by apply list_lookup_middle).
  assert (E0 : evolved h (h ++ [new_node (nkind nd)])) by apply evolved_app.
  destruct (clone_child pf fu set_left with_left l (h ++ [new_node (nkind nd)]) a
              (length h) (new_node (nkind nd)))
    as (h1 & l' & Hstep1 & Post1).
  { intros; by apply set_left_fresh. }
  { reflexivity. }
  { exact IHl. }
  { by eapply repr_evolved. }
  { lia. }
  { intros x ndx t Hin Hx Ht.
    assert (x < length h) by exact (repr_lookup _ _ _ _ Hreprl Hin).
    assert (h !! x = Some ndx) by (rewrite lookup_app_l in Hx by done; exact Hx).
    destruct (Hpath x ndx t) as (pth & Hpth); [right; by left|done|done|].
    exists pth. by eapply path_to_root_evolved. }
  { exact H0res. }
  { intros Hin. pose proof (repr_lookup _ _ _ _ Hreprl Hin). lia. }
  destruct Post1 as (Hlen1 & Hres1 & Hrl' & Hml & Hwl & P1l & P2l).
  assert (E1 : evolved h h1).
  { intros x ndx Hx. assert (x < length h) by (by eapply lookup_lt_Some).
    assert ((h ++ [new_node (nkind nd)]) !! x = Some ndx) by (by apply lookup_app_l_Some).
    destruct (P1l x ndx) as [Hu | (c & _ & Hu)]; [lia|done| |].
    - exists (cloned_node ndx). by rewrite with_cloned_node_same.
    - eauto. }
  destruct (clone_child pf fu set_right with_right r h1 a
              (length h) (with_left (sroot l') (new_node (nkind nd))))
    as (h2 & r' & Hstep2 & Post2).
  { intros; by apply set_right_fresh. }
  { reflexivity. }
  { exact IHr. }
  { by eapply repr_evolved. }
  { lia. }
  { intros x nd1 t Hin Hx Ht.
    destruct (repr_node _ _ _ _ Hreprr Hin) as (ndx & Hndx).
    destruct (E1 _ _ Hndx) as (o & Ho).
    assert (nd1 = with_cloned_node o ndx) by congruence. subst nd1.
    destruct (Hpath x ndx t) as (pth & Hpth); [right; by right|done|done|].
    exists pth. by eapply path_to_root_evolved. }
  { exact Hres1. }
  { intros Hin. pose proof (repr_lookup _ _ _ _ Hreprr Hin). lia. }
  destruct Post2 as (Hlen2 & Hres2 & Hrr' & Hmr & Hwr & P1r & P2r).
  rewrite length_app in Hlen1, Hwl. cbn [length] in Hlen1, Hwl.
  cbn [clone]. unfold deref at 1. rewrite Hnd. cbn [bind_res alloc].
  rewrite Hl, Hstep1. cbn [bind_res]. rewrite Hr, Hstep2. cbn [bind_res].
  assert (E2 : evolved h h2).
  { intros x ndx Hx. assert (x < length h) by (by eapply lookup_lt_Some).
    destruct (E1 _ _ Hx) as (o & Ho).
    destruct (P1r x (with_cloned_node o ndx)) as [Hu | (c & _ & Hu)];
      [lia|exact Ho| |]; eauto. }
  destruct (E2 _ _ Hnd) as (oa & Hoa).
  assert (Htrack : exists h3,
    match cloned_target nd with
    | Some target =>
        let* path := path_to_root pf h2 a in
        if (path =? target)%string then
          let* self := deref h2 a in
          Ok (<[a := with_cloned_node (Some (length h)) self]> h2)
        else Ok h2
    | None => Ok h2
    end = Ok h3
    /\ length h3 = length h2
    /\ (forall x, x <> a -> h3 !! x = h2 !! x)
    /\ (h3 !! a = h2 !! a
        \/ h3 !! a = Some (with_cloned_node (Some (length h)) nd))
    /\ (forall t, cloned_target nd = Some t -> path_to_root pf h a = Ok t ->
        h3 !! a = Some (with_cloned_node (Some (length h)) nd))).
  { destruct (cloned_target nd) as [tgt|] eqn:Etgt.
    2:{ exists h2. repeat split; auto. intros t Ht. done. }
    destruct (Hpath a nd tgt) as (pth & Hpth); [by left|done|done|].
    rewrite (path_to_root_evolved _ _ _ _ _ E2 Hpth). cbn [bind_res].
    destruct (pth =? tgt)%string eqn:Eeq.
    - unfold deref. rewrite Hoa. cbn [bind_res].
      eexists. split; [reflexivity|].
      split; [apply length_insert|].
      split; [intros x Hx; by apply list_lookup_insert_ne|].
      assert (<[a := with_cloned_node (Some (length h)) (with_cloned_node oa nd)]> h2 !! a
              = Some (with_cloned_node (Some (length h)) nd)) as Hset.
      { apply list_lookup_insert_eq. by eapply lookup_lt_Some. }
      split; [by right|]. intros; exact Hset.
    - exists h2. repeat split; auto.
      intros t Ht Hpt. assert (t = tgt) by congruence. subst t.
      assert (pth = tgt) by congruence. subst pth.
      by rewrite String.eqb_refl in Eeq. }
  destruct Htrack as (h3 & -> & Hlen3 & Hoth3 & Ha3 & Htr3). cbn [bind_res].
  assert (h3 !! length h = Some (with_right (sroot r') (with_left (sroot l') (new_node (nkind nd)))))
    as Hres3 by (rewrite Hoth3 by lia; exact Hres2).
  unfold deref. rewrite Hres3. cbn [bind_res].
  set (nres := with_right (sroot r') (with_left (sroot l') (new_node (nkind nd)))) in *.
  set (nfinal := match nkind nd with
                 | KConstant => with_value (value nd) nres
                 | KVariable => with_identifier (identifier nd) nres
                 | KNegate | KAbs | KSgn => with_child (left nres) nres
                 | _ => nres
                 end).
  set (h4 := match nkind nd with
             | KConstant => <[length h:=with_value (value nd) nres]> h3
             | KVariable => <[length h:=with_identifier (identifier nd) nres]> h3
             | KNegate | KAbs | KSgn => <[length h:=with_child (left nres) nres]> h3
             | _ => h3
             end).
  assert (length h < length h3) as Hlt3 by (by eapply lookup_lt_Some).
  assert (Hlen4 : length h4 = length h3).
  { subst h4. destruct (nkind nd); try reflexivity; apply length_insert. }
  assert (Hres4 : h4 !! length h = Some nfinal).
  { subst h4 nfinal. destruct (nkind nd); try exact Hres3;
      by apply list_lookup_insert_eq. }
  assert (Hoth4 : forall x, x <> length h -> h4 !! x = h3 !! x).
  { intros x Hx. subst h4. destruct (nkind nd); try reflexivity;
      by apply list_lookup_insert_ne. }
  assert (Hfinal : face_of nfinal = Face (f_kind f) (f_value f) (f_identifier f) false
                   /\ parent nfinal = None
                   /\ left nfinal = sroot l' /\ right nfinal = sroot r').
  { subst nfinal nres. rewrite <- Hf. unfold face_of.
    destruct (nkind nd); repeat split; reflexivity. }
  destruct Hfinal as (Hff & Hfp & Hfl & Hfr).
  exists h4, (SNode (length h) (Face (f_kind f) (f_value f) (f_identifier f) false) l' r').
  split; [reflexivity|].
  assert (Hcopy : forall x, length h < x -> h4 !! x = h2 !! x).
  { intros x Hx. rewrite Hoth4 by lia. apply Hoth3. lia. }
  assert (Hkeep_l : forall x, in_shape x l' -> h2 !! x = h1 !! x).
  { intros x Hx. pose proof (within_in_shape _ _ _ _ Hwl Hx) as Hb.
    destruct (lookup_lt_is_Some_2 h1 x) as (ndx & Hndx); [lia|].
    destruct (P1r x ndx) as [Hu | (c & Hc & _)]; [lia|done|congruence|].
    apply corr_in_shape in Hc as [Hc _].
    pose proof (repr_lookup _ _ _ _ Hreprr Hc). lia. }
  (* the old objects, step by step *)
  assert (Hold : forall x ndx, h !! x = Some ndx ->
            h4 !! x = Some ndx
            \/ exists c, corr (SNode a f l r)
                           (SNode (length h) (Face (f_kind f) (f_value f) (f_identifier f) false) l' r')
                           x c
                        /\ h4 !! x = Some (with_cloned_node (Some c) ndx)).
  { intros x ndx Hx. assert (x < length h) by (by eapply lookup_lt_Some).
    rewrite Hoth4 by lia.
    assert (h2 !! x = Some ndx
            \/ exists c, (corr l l' x c \/ corr r r' x c)
                         /\ h2 !! x = Some (with_cloned_node (Some c) ndx)) as H2.
    { assert ((h ++ [new_node (nkind nd)]) !! x = Some ndx) as Hx0
        by (by apply lookup_app_l_Some).
      destruct (P1l x ndx) as [Hu | (c & Hc & Hu)]; [lia|done| |].
      - destruct (P1r x ndx) as [Hv | (c' & Hc' & Hv)]; [lia|done|by left|].
        right. exists c'. auto.
      - destruct (P1r x (with_cloned_node (Some c) ndx)) as [Hv | (c' & Hc' & Hv)];
          [lia|exact Hu| |].
        + right. exists c. auto.
        + right. exists c'. auto. }
    destruct (decide (x = a)) as [->|Hne].
    - assert (ndx = nd) by congruence. subst ndx.
      destruct Ha3 as [Ha3|Ha3].
      + rewrite Ha3. destruct H2 as [?|(c & Hc & ?)]; [by left|].
        right. exists c. split; [|done]. cbn [corr]. tauto.
      + right. exists (length h). split; [|done]. cbn [corr]. by left.
    - rewrite Hoth3 by done. destruct H2 as [?|(c & Hc & ?)]; [by left|].
      right. exists c. split; [|done]. cbn [corr]. tauto. }
  split; [lia|].
  split.
  { split; [reflexivity|]. rewrite Hlen4, Hlen3.
    split.
    - apply (within_weaken (length h + 1) (length h1)); (lia || done).
    - apply (within_weaken (length h1) (length h2)); (lia || done). }
  split.
  { exists nfinal. split; [exact Hres4|]. repeat split; try done.
    - eapply repr_frame; [|exact Hrl'].
      intros x Hx. pose proof (within_in_shape _ _ _ _ Hwl Hx).
      rewrite Hcopy by lia. by apply Hkeep_l.
    - eapply repr_frame; [|exact Hrr'].
      intros x Hx. pose proof (within_in_shape _ _ _ _ Hwr Hx).
      apply Hcopy. lia. }
  split; [by repeat split|].
  split; [exact Hold|].
  intros x ndx t Hin Hx Ht Hpt.
  assert (x < length h) by (by eapply lookup_lt_Some).
  assert (Hset2 : exists c, (x = a /\ c = length h \/ corr l l' x c \/ corr r r' x c)
                  /\ h4 !! x = Some (with_cloned_node (Some c) ndx)); [|exact Hset2].
  rewrite Hoth4 by lia.
  assert (Hx0 : (h ++ [new_node (nkind nd)]) !! x = Some ndx) by (by apply lookup_app_l_Some).
  assert (H2 : x <> a ->
          (in_shape x l \/ in_shape x r) ->
          exists c, (corr l l' x c \/ corr r r' x c)
                    /\ h2 !! x = Some (with_cloned_node (Some c) ndx)).
  { intros _ [Hil | Hir].
    - destruct (P2l x ndx t Hil Hx0 Ht) as (c & Hc & Hu);
        [by eapply path_to_root_evolved|].
      destruct (P1r x (with_cloned_node (Some c) ndx)) as [Hv | (c' & Hc' & Hv)];
        [lia|exact Hu| |]; eauto.
    - destruct (E1 _ _ Hx) as (o & Ho).
      destruct (P2r x (with_cloned_node o ndx) t Hir Ho Ht) as (c & Hc & Hu);
        [by eapply path_to_root_evolved|].
      eauto. }
  destruct (decide (x = a)) as [->|Hne].
  - assert (ndx = nd) by congruence. subst ndx.
    exists (length h). split; [by left|]. by apply (Htr3 t).
  - rewrite Hoth3 by done.
    destruct H2 as (c & Hc & Hu); [done|destruct Hin as [?|?]; [done|done]|].
    exists c. split; [tauto|done].
Qed.


Lemma get_root_mono (h : heap num) :
  forall f f' a r, get_root f h a = Ok r -> f <= f' -> get_root f' h a = Ok r.
Proof.
  induction f as [|f IH]; intros f' a r Hr Hle; [done|].
  destruct f' as [|f']; [lia|].
  cbn [get_root] in *. destruct (deref h a) as [nd| | |]; try done.
  cbn [bind_res] in *. destruct (parent nd); [|done]. apply (IH f'); [done|lia].
Qed.

Lemma path_points_mono (h : heap num) :
  forall f f' a p, path_points f h a = Ok p -> f <= f' -> path_points f' h a = Ok p.
Proof.
  induction f as [|f IH]; intros f' a p Hp Hle; [done|].
  destruct f' as [|f']; [lia|].
  cbn [path_points] in *. destruct (deref h a) as [nd| | |]; try done.
  cbn [bind_res] in *. destruct (parent nd) as [q|]; [|done].
  destruct (path_points f h q) as [rest| | |] eqn:Hq; try done.
  rewrite (IH f' _ _ Hq) by lia. done.
Qed.

(** From any node of a tree the walk up reaches what the walk from the
    root of the tree reaches. *)
Lemma get_root_in_shape (h : heap num) (s : shape num) :
  forall p a x f r,
    repr h p s -> sroot s = Some a -> in_shape x s ->
    get_root f h a = Ok r -> get_root (f + height s) h x = Ok r.
Proof.
  induction s as [|a0 fc l IHl r0 IHr]; intros p a x f r Hrepr Hroot Hin Hget; [done|].
  injection Hroot as ->.
  destruct Hrepr as (nd & Hnd & _ & _ & Hl & Hr & Hreprl & Hreprr).
  cbn [height].
  assert (Hchild : forall sc, repr h (Some a) sc -> in_shape x sc ->
            (forall al, sroot sc = Some al -> get_root (S f + height sc) h x = Ok r) ->
            height sc <= Nat.max (height l) (height r0) ->
            get_root (f + S (Nat.max (height l) (height r0))) h x = Ok r).
  { intros sc Hsc Hx Hgo Hle. destruct sc as [|al fl ll rl]; [done|].
    eapply get_root_mono; [apply (Hgo al eq_refl)|lia]. }
  destruct Hin as [-> | [Hin | Hin]].
  - eapply get_root_mono; [exact Hget|lia].
  - apply (Hchild l); [done|done| |lia].
    intros al Hal. apply (IHl (Some a) al); try done.
    destruct l as [|al' fl ll rl]; [done|]. injection Hal as ->.
    destruct Hreprl as (nl & Hnl & _ & Hpl & _).
    cbn [get_root]. unfold deref. rewrite Hnl. cbn [bind_res]. by rewrite Hpl.
  - apply (Hchild r0); [done|done| |lia].
    intros al Hal. apply (IHr (Some a) al); try done.
    destruct r0 as [|al' fl ll rl]; [done|]. injection Hal as ->.
    destruct Hreprr as (nl & Hnl & _ & Hpl & _).
    cbn [get_root]. unfold deref. rewrite Hnl. cbn [bind_res]. by rewrite Hpl.
Qed.

Lemma path_points_in_shape (h : heap num) (s : shape num) :
  forall p a x f pts,
    repr h p s -> sroot s = Some a -> in_shape x s ->
    path_points f h a = Ok pts ->
    exists pts', path_points (f + height s) h x = Ok pts'.
Proof.
  induction s as [|a0 fc l IHl r0 IHr]; intros p a x f pts Hrepr Hroot Hin Hget; [done|].
  injection Hroot as ->.
  destruct Hrepr as (nd & Hnd & _ & _ & Hl & Hr & Hreprl & Hreprr).
  cbn [height].
  assert (Hchild : forall sc, repr h (Some a) sc -> in_shape x sc ->
            (forall al, sroot sc = Some al ->
               exists pts', path_points (S f + height sc) h x = Ok pts') ->
            height sc <= Nat.max (height l) (height r0) ->
            exists pts', path_points (f + S (Nat.max (height l) (height r0))) h x = Ok pts').
  { intros sc Hsc Hx Hgo Hle. destruct sc as [|al fl ll rl]; [done|].
    destruct (Hgo al eq_refl) as (pts' & Hp'). exists pts'.
    eapply path_points_mono; [exact Hp'|lia]. }
  assert (Hstep : forall sc al, repr h (Some a) sc -> sroot sc = Some al ->
            exists pts', path_points (S f) h al = Ok pts').
  { intros sc al Hsc Hal. destruct sc as [|al' fl ll rl]; [done|]. injection Hal as ->.
    destruct Hsc as (nl & Hnl & _ & Hpl & _).
    cbn [path_points]. unfold deref. rewrite Hnl. cbn [bind_res].
    rewrite Hpl, Hget. cbn [bind_res]. eauto. }
  destruct Hin as [-> | [Hin | Hin]].
  - exists pts. eapply path_points_mono; [exact Hget|lia].
  - apply (Hchild l); [done|done| |lia].
    intros al Hal. destruct (Hstep l al Hreprl Hal) as (pts1 & Hp1).
    by apply (IHl (Some a) al x (S f) pts1).
  - apply (Hchild r0); [done|done| |lia].
    intros al Hal. destruct (Hstep r0 al Hreprr Hal) as (pts1 & Hp1).
    by apply (IHr (Some a) al x (S f) pts1).
Qed.


Lemma mirror_roots (s s' : shape num) :
  mirror s s' ->
  (sroot s = None /\ sroot s' = None)
  \/ exists a f l r a' f' l' r', s = SNode a f l r /\ s' = SNode a' f' l' r'.
Proof.
  destruct s, s'; cbn; try done; intros _; [by left|right].
  by eexists _, _, _, _, _, _, _, _.
Qed.

Lemma mirrored_bisimulation (h h' : heap num) : text_bisimulation h h' (mirrored h h').
Proof.
  intros x c (s & s' & p & p' & Hr & Hr' & Hm & Hpl & Hk & Hx & Hc).
  destruct s as [|a f l r]; [done|]. destruct s' as [|a' f' l' r']; [done|].
  injection Hx as ->. injection Hc as ->.
  destruct Hr as (nd & Hnd & Hf & Hp & Hl & Hrr & Hreprl & Hreprr).
  destruct Hr' as (nd' & Hnd' & Hf' & Hp' & Hl' & Hrr' & Hreprl' & Hreprr').
  destruct Hm as (Hff & Hml & Hmr). destruct Hpl as (Hcol & Hpll & Hplr).
  rewrite Hnd, Hnd'.
  assert (face_of nd' = face_of nd) as Hface.
  { rewrite Hf', Hf, Hff. destruct f; cbn in *. by rewrite Hcol. }
  assert (nkind nd' = nkind nd) as Hkind by exact (f_equal f_kind Hface).
  assert (Hchild : forall sc sc', repr h (Some x) sc -> repr h' (Some c) sc' ->
            mirror sc sc' -> plain sc -> opt_rel (mirrored h h') (sroot sc) (sroot sc')).
  { intros sc sc' H1 H2 H3 H4.
    destruct (mirror_roots _ _ H3) as [[-> ->] | (b & fb & lb & rb & b' & fb' & lb' & rb' & -> & ->)];
      [done|].
    cbn [sroot opt_rel].
    exists (SNode b fb lb rb), (SNode b' fb' lb' rb'), (Some x), (Some c).
    split; [exact H1|]. split; [exact H2|]. split; [exact H3|]. split; [exact H4|].
    split; [|done].
    unfold kind_at. by rewrite Hnd, Hnd', Hkind. }
  split; [|rewrite Hl, Hl', Hrr, Hrr'; split; by apply Hchild].
  split; [done|].
  split.
  { intros Hc. pose proof (f_equal f_value Hface) as Hv. cbn in Hv.
    rewrite Hkind, Hc in Hv. by cbn in Hv. }
  split.
  { intros Hc. pose proof (f_equal f_identifier Hface) as Hv. cbn in Hv.
    rewrite Hkind, Hc in Hv. by cbn in Hv. }
  split; [symmetry; exact (f_equal f_colored Hface)|].
  by rewrite Hp, Hp'.
Qed.

Lemma corr_mirrored (h h' : heap num) (s : shape num) :
  forall s' p p' x c,
    corr s s' x c -> repr h p s -> repr h' p' s' -> mirror s s' -> plain s ->
    kind_at h p = kind_at h' p' -> mirrored h h' x c.
Proof.
  induction s as [|a f l IHl r IHr]; intros [|a' f' l' r'] p p' x c Hc Hr Hr' Hm Hpl Hk;
    try done.
  destruct Hc as [[-> ->] | Hc].
  { by exists (SNode a f l r), (SNode a' f' l' r'), p, p'. }
  pose proof Hr as (nd & Hnd & Hf & Hp & Hl & Hrr & Hreprl & Hreprr).
  pose proof Hr' as (nd' & Hnd' & Hf' & Hp' & Hl' & Hrr' & Hreprl' & Hreprr').
  pose proof Hm as (Hff & Hml & Hmr). pose proof Hpl as (Hcol & Hpll & Hplr).
  assert (kind_at h (Some a) = kind_at h' (Some a')) as Hka.
  { unfold kind_at. rewrite Hnd, Hnd'. f_equal.
    rewrite <- (f_equal f_kind Hf) in Hff.
    pose proof (f_equal f_kind Hf') as H1. rewrite Hff in H1. cbn in H1. done. }
  destruct Hc as [Hc | Hc].
  - by apply (IHl l' (Some a) (Some a')).
  - by apply (IHr r' (Some a) (Some a')).
Qed.

(** C6: in a tree of the store (finite, with the parent invariant, not
    being rendered in colour), [n.clone_from_root()] succeeds for every node
    [n] of the tree once the budget exceeds the height; it leaves the tree in
    place and returns a node [c] that sits, where [n] sits in the tree, in a
    new tree that mirrors the whole tree from its root; and the text of [c]
    is the text of [n]. *)
Theorem clone_from_root_tracks (fuel : nat) (h : heap num) (s : shape num)
  (rt n : addr) :
  sroot s = Some rt -> repr h None s -> plain s -> in_shape n s ->
  height s < fuel ->
  exists h' c s',
    clone_from_root fuel h n None = Ok (h', c)
    /\ repr h' None s
    /\ repr h' None s' /\ mirror s s' /\ corr s s' n c
    /\ (forall x, in_shape x s' -> length h <= x)
    /\ forall f, to_text f h' c = to_text f h n.
Proof.
  intros Hroot Hrepr Hplain Hin Hfuel.
  destruct (repr_node _ _ _ _ Hrepr Hin) as (nd & Hnd).
  assert (n < length h) as Hnlt by (by eapply lookup_lt_Some).
  (* the walk from the root of the tree *)
  assert (Hrt : exists nrt, h !! rt = Some nrt /\ parent nrt = None).
  { destruct s as [|a f l r]; [done|]. injection Hroot as ->.
    destruct Hrepr as (nrt & ? & _ & ? & _). eauto. }
  destruct Hrt as (nrt & Hnrt & Hprt).
  assert (get_root 1 h rt = Ok rt) as Hg1.
  { cbn. unfold deref. rewrite Hnrt. cbn. by rewrite Hprt. }
  assert (path_points 1 h rt = Ok [class_name (nkind nrt)]) as Hp1.
  { cbn. unfold deref. rewrite Hnrt. cbn. by rewrite Hprt. }
  assert (Hpaths : forall x, in_shape x s -> exists pts, path_points fuel h x = Ok pts).
  { intros x Hx.
    destruct (path_points_in_shape h s None rt x 1 _ Hrepr Hroot Hx Hp1) as (pts & Hpts).
    exists pts. eapply path_points_mono; [exact Hpts|lia]. }
  assert (Hgroot : get_root fuel h n = Ok rt).
  { eapply get_root_mono; [apply (get_root_in_shape h s None rt n 1 rt); done|lia]. }
  (* the two writes before the clone *)
  set (h1 := <[n := with_cloned_node None nd]> h).
  assert (same_tree h h1) as T1 by (by apply (same_tree_insert h n nd)).
  assert (h1 !! n = Some (with_cloned_node None nd)) as Hn1
    by (by apply list_lookup_insert_eq).
  destruct (Hpaths n Hin) as (pts & Hpts).
  set (target := String.concat "." pts).
  set (nd2 := with_cloned_target (Some target) (with_cloned_node None nd)).
  set (h2 := <[n := nd2]> h1).
  assert (same_tree h1 h2) as T12 by (by apply (same_tree_insert h1 n _ nd2 Hn1)).
  assert (same_tree h h2) as T2 by (by eapply same_tree_trans).
  assert (h2 !! n = Some nd2) as Hn2
    by (apply list_lookup_insert_eq; subst h1; by rewrite length_insert).
  assert (length h2 = length h) as Hlen2 by (subst h2 h1; by rewrite !length_insert).
  assert (Hrepr2 : repr h2 None s) by (by eapply repr_same_tree).
  (* the clone of the whole tree *)
  destruct (clone_spec fuel s fuel h2 None rt Hroot Hrepr2) as (h3 & s' & Hclone & Hpost).
  { lia. }
  { intros x ndx t Hx _ _. destruct (Hpaths x Hx) as (px & Hpx).
    exists (String.concat "." px). unfold path_to_root.
    by rewrite (path_points_same_tree _ _ T2 _ _ _ Hpx). }
  destruct Hpost as (Hlen3 & Hs' & Hrepr3 & Hmirror & P1 & P2).
  destruct (P2 n nd2 target Hin Hn2 eq_refl) as (c & Hcorr & Hn3).
  { unfold path_to_root. by rewrite (path_points_same_tree _ _ T2 _ _ _ Hpts). }
  set (h4 := <[n := with_cloned_target None
                       (with_cloned_node None (with_cloned_node (Some c) nd2))]> h3).
  assert (Hs'lo : forall x, in_shape x s' -> length h <= x).
  { intros x Hx. destruct s' as [|a' f' l' r']; [done|].
    destruct Hs' as (-> & Hwl & Hwr). rewrite Hlen2 in *.
    destruct Hx as [-> | [Hx | Hx]]; [lia| |].
    - pose proof (within_in_shape _ _ _ _ Hwl Hx). lia.
    - pose proof (within_in_shape _ _ _ _ Hwr Hx). lia. }
  assert (Hrepr4' : repr h4 None s').
  { eapply repr_frame; [|exact Hrepr3].
    intros x Hx. pose proof (Hs'lo x Hx). subst h4.
    apply list_lookup_insert_ne. lia. }
  assert (T24 : same_tree h2 h4).
  { intros x ndx Hx. destruct (decide (x = n)) as [->|Hne].
    - assert (ndx = nd2) by congruence. subst ndx.
      eexists. split.
      + subst h4. apply list_lookup_insert_eq. by eapply lookup_lt_Some.
      + by repeat split.
    - subst h4. rewrite list_lookup_insert_ne by done.
      destruct (P1 _ _ Hx) as [Hu | (c' & _ & Hu)]; rewrite Hu; eexists;
        (split; [reflexivity|by repeat split]). }
  assert (Hrepr4 : repr h4 None s).
  { eapply repr_same_tree; [|exact Hrepr]. by eapply same_tree_trans. }
  exists h4, c, s'.
  split.
  { unfold clone_from_root. cbn [default]. unfold deref at 1. rewrite Hnd.
    cbn [bind_res]. fold h1.
    unfold path_to_root at 1. rewrite (path_points_same_tree _ _ T1 _ _ _ Hpts).
    cbn [bind_res]. unfold deref at 1. rewrite Hn1. cbn [bind_res].
    fold target. fold nd2. fold h2.
    rewrite (get_root_same_tree _ _ T2 _ _ _ Hgroot). cbn [bind_res].
    rewrite Hclone. cbn [bind_res]. unfold deref. rewrite Hn3. cbn [bind_res].
    reflexivity. }
  repeat (split; [done|]).
  intros f. symmetry.
  apply (to_text_bisim h h4 (mirrored h h4)).
  - apply mirrored_bisimulation.
  - by apply (corr_mirrored h h4 s s' None None).
Qed.

(** ** Clones and the swap rule *)

Lemma mirror_alike (s : shape num) : forall s', mirror s s' -> alike s s'.
Proof.
  induction s as [|a f l IHl r IHr]; intros [|a' f' l' r'] Hm; try done.
  destruct Hm as (-> & Hl & Hr). cbn. repeat split; auto.
Qed.

Lemma alike_refl (s : shape num) : alike s s.
Proof. induction s; cbn; auto. Qed.

Lemma face_value (nd : node num) (f : face num) :
  face_of nd = f -> nkind nd = KConstant -> value nd = f_value f.
Proof. intros <- Hk. cbn. by rewrite Hk. Qed.

Lemma face_identifier (nd : node num) (f : face num) :
  face_of nd = f -> nkind nd = KVariable -> identifier nd = f_identifier f.
Proof. intros <- Hk. cbn. by rewrite Hk. Qed.

(** Trees that are alike evaluate alike. *)
Lemma evaluate_alike (context : option (gmap string num)) (s : shape num) :
  forall s' h h' p p' a a' fuel,
    alike s s' -> repr h p s -> repr h' p' s' ->
    sroot s = Some a -> sroot s' = Some a' ->
    evaluate fuel h context a = evaluate fuel h' context a'.
Proof.
  induction s as [|a0 f l IHl r IHr];
    intros [|a0' f' l' r'] h h' p p' a a' fuel Hal Hr Hr' Ha Ha'; try done.
  injection Ha as ->. injection Ha' as ->.
  destruct fuel as [|fu]; [reflexivity|].
  destruct Hal as (Hk & Hv & Hi & Hal & Har).
  destruct Hr as (nd & Hnd & Hf & Hp & Hl & Hrr & Hreprl & Hreprr).
  destruct Hr' as (nd' & Hnd' & Hf' & Hp' & Hl' & Hrr' & Hreprl' & Hreprr').
  cbn [evaluate]. unfold deref. rewrite Hnd, Hnd'. cbn [bind_res].
  assert (nkind nd' = nkind nd) as Hkk.
  { rewrite <- (f_equal f_kind Hf), <- (f_equal f_kind Hf') in Hk. exact Hk. }
  assert (HL : match left nd with None => Raise AttributeError
                              | Some c => evaluate fu h context c end
               = match left nd' with None => Raise AttributeError
                                | Some c => evaluate fu h' context c end).
  { rewrite Hl, Hl'. destruct l as [|al fl ll rl], l' as [|al' fl' ll' rl']; try done.
    cbn [sroot]. by eapply IHl. }
  assert (HR : match right nd with None => Raise AttributeError
                              | Some c => evaluate fu h context c end
               = match right nd' with None => Raise AttributeError
                                | Some c => evaluate fu h' context c end).
  { rewrite Hrr, Hrr'. destruct r as [|al fl ll rl], r' as [|al' fl' ll' rl']; try done.
    cbn [sroot]. by eapply IHr. }
  rewrite Hkk, <- HL, <- HR.
  destruct (nkind nd) eqn:Hkn; try reflexivity.
  - rewrite (face_value _ _ Hf Hkn), (face_value _ _ Hf') by congruence. by rewrite Hv.
  - unfold evaluate_variable.
    rewrite (face_identifier _ _ Hf Hkn), (face_identifier _ _ Hf') by congruence.
    by rewrite Hi.
Qed.

(** The subtrees at corresponding nodes. *)
Lemma corr_subtrees (h h' : heap num) (s : shape num) :
  forall s' p p' x c,
    corr s s' x c -> repr h p s -> repr h' p' s' -> mirror s s' ->
    exists sx sc px pc,
      repr h px sx /\ repr h' pc sc /\ mirror sx sc
      /\ sroot sx = Some x /\ sroot sc = Some c
      /\ height sx <= height s.
Proof.
  induction s as [|a f l IHl r IHr]; intros [|a' f' l' r'] p p' x c Hc Hr Hr' Hm;
    try done.
  destruct Hc as [[-> ->] | Hc].
  { by exists (SNode a f l r), (SNode a' f' l' r'), p, p'. }
  destruct Hr as (nd & Hnd & Hf & Hp & Hl & Hrr & Hreprl & Hreprr).
  destruct Hr' as (nd' & Hnd' & Hf' & Hp' & Hl' & Hrr' & Hreprl' & Hreprr').
  destruct Hm as (Hff & Hml & Hmr).
  destruct Hc as [Hc | Hc].
  - destruct (IHl _ _ _ _ _ Hc Hreprl Hreprl' Hml)
      as (sx & sc & px & pc & H1 & H2 & H3 & H4 & H5 & H6).
    exists sx, sc, px, pc. repeat split; try done. cbn [height]. lia.
  - destruct (IHr _ _ _ _ _ Hc Hreprr Hreprr' Hmr)
      as (sx & sc & px & pc & H1 & H2 & H3 & H4 & H5 & H6).
    exists sx, sc, px, pc. repeat split; try done. cbn [height]. lia.
Qed.

(** One run of [clone_from_root] on a node of a tree. *)
Lemma clone_from_root_run (fuel : nat) (h : heap num) (s : shape num) (rt n : addr) :
  sroot s = Some rt -> repr h None s -> in_shape n s -> height s < fuel ->
  exists h' c s',
    clone_from_root fuel h n None = Ok (h', c)
    /\ same_tree h h'
    /\ repr h' None s' /\ mirror s s' /\ corr s s' n c
    /\ (forall x, in_shape x s' -> length h <= x).
Proof.
  intros Hroot Hrepr Hin Hfuel.
  destruct (repr_node _ _ _ _ Hrepr Hin) as (nd & Hnd).
  assert (n < length h) as Hnlt by (by eapply lookup_lt_Some).
  assert (Hrt : exists nrt, h !! rt = Some nrt /\ parent nrt = None).
  { destruct s as [|a f l r]; [done|]. injection Hroot as ->.
    destruct Hrepr as (nrt & ? & _ & ? & _). eauto. }
  destruct Hrt as (nrt & Hnrt & Hprt).
  assert (get_root 1 h rt = Ok rt) as Hg1.
  { cbn. unfold deref. rewrite Hnrt. cbn. by rewrite Hprt. }
  assert (path_points 1 h rt = Ok [class_name (nkind nrt)]) as Hp1.
  { cbn. unfold deref. rewrite Hnrt. cbn. by rewrite Hprt. }
  assert (Hpaths : forall x, in_shape x s -> exists pts, path_points fuel h x = Ok pts).
  { intros x Hx.
    destruct (path_points_in_shape h s None rt x 1 _ Hrepr Hroot Hx Hp1) as (pts & Hpts).
    exists pts. eapply path_points_mono; [exact Hpts|lia]. }
  assert (Hgroot : get_root fuel h n = Ok rt).
  { eapply get_root_mono; [apply (get_root_in_shape h s None rt n 1 rt); done|lia]. }
  set (h1 := <[n := with_cloned_node None nd]> h).
  assert (same_tree h h1) as T1 by (by apply (same_tree_insert h n nd)).
  assert (h1 !! n = Some (with_cloned_node None nd)) as Hn1
    by (by apply list_lookup_insert_eq).
  destruct (Hpaths n Hin) as (pts & Hpts).
  set (target := String.concat "." pts).
  set (nd2 := with_cloned_target (Some target) (with_cloned_node None nd)).
  set (h2 := <[n := nd2]> h1).
  assert (same_tree h1 h2) as T12 by (by apply (same_tree_insert h1 n _ nd2 Hn1)).
  assert (same_tree h h2) as T2 by (by eapply same_tree_trans).
  assert (h2 !! n = Some nd2) as Hn2
    by (apply list_lookup_insert_eq; subst h1; by rewrite length_insert).
  assert (length h2 = length h) as Hlen2 by (subst h2 h1; by rewrite !length_insert).
  assert (Hrepr2 : repr h2 None s) by (by eapply repr_same_tree).
  destruct (clone_spec fuel s fuel h2 None rt Hroot Hrepr2) as (h3 & s' & Hclone & Hpost).
  { lia. }
  { intros x ndx t Hx _ _. destruct (Hpaths x Hx) as (px & Hpx).
    exists (String.concat "." px). unfold path_to_root.
    by rewrite (path_points_same_tree _ _ T2 _ _ _ Hpx). }
  destruct Hpost as (Hlen3 & Hs' & Hrepr3 & Hmirror & P1 & P2).
  destruct (P2 n nd2 target Hin Hn2 eq_refl) as (c & Hcorr & Hn3).
  { unfold path_to_root. by rewrite (path_points_same_tree _ _ T2 _ _ _ Hpts). }
  set (h4 := <[n := with_cloned_target None
                       (with_cloned_node None (with_cloned_node (Some c) nd2))]> h3).
  assert (Hs'lo : forall x, in_shape x s' -> length h <= x).
  { intros x Hx. destruct s' as [|a' f' l' r']; [done|].
    destruct Hs' as (-> & Hwl & Hwr). rewrite Hlen2 in *.
    destruct Hx as [-> | [Hx | Hx]]; [lia| |].
    - pose proof (within_in_shape _ _ _ _ Hwl Hx). lia.
    - pose proof (within_in_shape _ _ _ _ Hwr Hx). lia. }
  assert (Hrepr4' : repr h4 None s').
  { eapply repr_frame; [|exact Hrepr3].
    intros x Hx. pose proof (Hs'lo x Hx). subst h4.
    apply list_lookup_insert_ne. lia. }
  assert (T24 : same_tree h2 h4).
  { intros x ndx Hx. destruct (decide (x = n)) as [->|Hne].
    - assert (ndx = nd2) by congruence. subst ndx.
      eexists. split.
      + subst h4. apply list_lookup_insert_eq. by eapply lookup_lt_Some.
      + by repeat split.
    - subst h4. rewrite list_lookup_insert_ne by done.
      destruct (P1 _ _ Hx) as [Hu | (c' & _ & Hu)]; rewrite Hu; eexists;
        (split; [reflexivity|by repeat split]). }
  exists h4, c, s'.
  split.
  { unfold clone_from_root. cbn [default]. unfold deref at 1. rewrite Hnd.
    cbn [bind_res]. fold h1.
    unfold path_to_root at 1. rewrite (path_points_same_tree _ _ T1 _ _ _ Hpts).
    cbn [bind_res]. unfold deref at 1. rewrite Hn1. cbn [bind_res].
    fold target. fold nd2. fold h2.
    rewrite (get_root_same_tree _ _ T2 _ _ _ Hgroot). cbn [bind_res].
    rewrite Hclone. cbn [bind_res]. unfold deref. rewrite Hn3. cbn [bind_res].
    reflexivity. }
  split; [by eapply same_tree_trans|].
  done.
Qed.

(** The subtree at a node of a tree. *)
Lemma subtree_at (s : shape num) :
  forall p x, in_shape x s ->
    exists sx px,
      sroot sx = Some x /\ height sx <= height s
      /\ (px = p \/ exists q, px = Some q /\ in_shape q s)
      /\ forall h : heap num, repr h p s -> repr h px sx.
Proof.
  induction s as [|a f l IHl r IHr]; intros p x Hin; [done|].
  destruct Hin as [-> | [Hin | Hin]].
  - exists (SNode a f l r), p. repeat split; auto.
  - destruct (IHl (Some a) x Hin) as (sx & px & H1 & H2 & H4 & H3).
    exists sx, px. repeat split; [done|cbn [height]; lia| |].
    + right. destruct H4 as [-> | (q & -> & Hq)].
      * exists a. split; [done|by left].
      * exists q. split; [done|]. right. by left.
    + intros h (nd & _ & _ & _ & _ & _ & Hl & _). by apply H3.
  - destruct (IHr (Some a) x Hin) as (sx & px & H1 & H2 & H4 & H3).
    exists sx, px. repeat split; [done|cbn [height]; lia| |].
    + right. destruct H4 as [-> | (q & -> & Hq)].
      * exists a. split; [done|by left].
      * exists q. split; [done|]. right. by right.
    + intros h (nd & _ & _ & _ & _ & _ & _ & Hr). by apply H3.
Qed.

Lemma kind_at_repr (h h' : heap num) (s : shape num) :
  forall p p' q, repr h p s -> repr h' p' s -> in_shape q s ->
    kind_at h (Some q) = kind_at h' (Some q).
Proof.
  induction s as [|a f l IHl r IHr]; intros p p' q Hr Hr' Hin; [done|].
  destruct Hr as (nd & Hnd & Hf & _ & _ & _ & Hreprl & Hreprr).
  destruct Hr' as (nd' & Hnd' & Hf' & _ & _ & _ & Hreprl' & Hreprr').
  destruct Hin as [-> | [Hin | Hin]].
  - unfold kind_at. rewrite Hnd, Hnd'. f_equal.
    rewrite <- Hf' in Hf. exact (f_equal f_kind Hf).
  - by eapply IHl.
  - by eapply IHr.
Qed.

(** X1: in a tree of the store, [n.clone_from_root()] returns a node that
    evaluates, under every context and with every budget, to the outcome of
    [n] before the call, and [n] still evaluates to it afterwards. *)
Theorem clone_from_root_preserves_value (fuel : nat) (h : heap num) (s : shape num)
  (rt n : addr) :
  sroot s = Some rt -> repr h None s -> in_shape n s -> height s < fuel ->
  exists h' c,
    clone_from_root fuel h n None = Ok (h', c)
    /\ forall f context,
         evaluate f h' context c = evaluate f h context n
         /\ evaluate f h' context n = evaluate f h context n.
Proof.
  intros Hroot Hrepr Hin Hfuel.
  destruct (clone_from_root_run fuel h s rt n Hroot Hrepr Hin Hfuel)
    as (h' & c & s' & Hrun & Hsame & Hrepr' & Hm & Hcorr & _).
  exists h', c. split; [exact Hrun|]. intros f context.
  pose proof (repr_same_tree _ _ _ Hsame _ Hrepr) as Hrepr0.
  destruct (corr_subtrees h h' s s' None None n c Hcorr Hrepr Hrepr' Hm)
    as (sx & sc & px & pc & H1 & H2 & H3 & H4 & H5 & _).
  destruct (subtree_at s None n Hin) as (sy & py & G1 & _ & _ & G2).
  split.
  - symmetry. eapply (evaluate_alike context sx sc); eauto using mirror_alike.
  - symmetry. eapply (evaluate_alike context sy sy); eauto using alike_refl.
Qed.

Lemma isinstance_alike (cls : kind -> bool) (h h' : heap num) (s s' : shape num)
  (p p' : option addr) :
  alike s s' -> repr h p s -> repr h' p' s' ->
  isinstance h (sroot s) cls = isinstance h' (sroot s') cls.
Proof.
  destruct s as [|a f l r], s' as [|a' f' l' r']; try done.
  intros (Hk & _) (nd & Hnd & Hf & _) (nd' & Hnd' & Hf' & _).
  unfold isinstance, kind_at. cbn [sroot]. rewrite Hnd, Hnd'.
  rewrite <- (f_equal f_kind Hf), <- (f_equal f_kind Hf') in Hk. cbn in Hk.
  by rewrite Hk.
Qed.

(** Nodes at the roots of trees that are alike are accepted alike. *)
Lemma can_apply_to_alike (rule : CommutativeSwapRule) (h h' : heap num)
  (s s' : shape num) (p p' : option addr) (a a' : addr) :
  alike s s' -> repr h p s -> repr h' p' s' ->
  sroot s = Some a -> sroot s' = Some a' ->
  can_apply_to rule h a = can_apply_to rule h' a'.
Proof.
  destruct s as [|a0 f l r], s' as [|a0' f' l' r']; try done.
  intros (Hk & _ & _ & Hal & Har) Hr Hr' [= ->] [= ->].
  destruct Hr as (nd & Hnd & Hf & Hp & Hl & Hrr & Hreprl & Hreprr).
  destruct Hr' as (nd' & Hnd' & Hf' & Hp' & Hl' & Hrr' & Hreprl' & Hreprr').
  unfold can_apply_to. rewrite Hnd, Hnd'.
  rewrite <- (f_equal f_kind Hf), <- (f_equal f_kind Hf') in Hk. cbn in Hk.
  rewrite Hk, Hl, Hl', Hrr, Hrr'.
  rewrite !(isinstance_alike _ h h' l l' _ _ Hal Hreprl Hreprl').
  rewrite !(isinstance_alike _ h h' r r' _ _ Har Hreprr Hreprr').
  destruct r as [|ar fr lr rr], r' as [|ar' fr' lr' rr']; try done.
  destruct Har as (_ & _ & _ & Harl & Harr).
  destruct Hreprr as (nr & Hnr & _ & _ & Hrl & Hrrr & Hreprrl & Hreprrr).
  destruct Hreprr' as (nr' & Hnr' & _ & _ & Hrl' & Hrrr' & Hreprrl' & Hreprrr').
  cbn [sroot]. rewrite Hnr, Hnr', Hrl, Hrl', Hrrr, Hrrr'.
  rewrite !(isinstance_alike _ h h' lr lr' _ _ Harl Hreprrl Hreprrl').
  rewrite !(isinstance_alike _ h h' rr rr' _ _ Harr Hreprrr Hreprrr').
  reflexivity.
Qed.

(** X2: the swap rule accepts the node returned by [n.clone_from_root()]
    exactly when it accepts [n]. *)
Theorem can_apply_to_clone (fuel : nat) (rule : CommutativeSwapRule) (h : heap num)
  (s : shape num) (rt n : addr) :
  sroot s = Some rt -> repr h None s -> in_shape n s -> height s < fuel ->
  exists h' c,
    clone_from_root fuel h n None = Ok (h', c)
    /\ can_apply_to rule h' c = can_apply_to rule h n.
Proof.
  intros Hroot Hrepr Hin Hfuel.
  destruct (clone_from_root_run fuel h s rt n Hroot Hrepr Hin Hfuel)
    as (h' & c & s' & Hrun & Hsame & Hrepr' & Hm & Hcorr & _).
  exists h', c. split; [exact Hrun|].
  destruct (corr_subtrees h h' s s' None None n c Hcorr Hrepr Hrepr' Hm)
    as (sx & sc & px & pc & H1 & H2 & H3 & H4 & H5 & _).
  symmetry. eapply can_apply_to_alike; eauto using mirror_alike.
Qed.

Lemma mirror_height (s : shape num) : forall s', mirror s s' -> height s' = height s.
Proof.
  induction s as [|a f l IHl r IHr]; intros [|a' f' l' r'] Hm; try done.
  destruct Hm as (_ & Hl & Hr). cbn [height]. by rewrite (IHl _ Hl), (IHr _ Hr).
Qed.

Lemma repr_linked (h : heap num) (s : shape num) (p : option addr) (a : addr)
  (nd : node num) :
  repr h p s -> sroot s = Some a -> h !! a = Some nd -> linked h a nd.
Proof.
  destruct s as [|a0 f l r]; [done|].
  intros (nd0 & Hnd0 & _ & _ & Hl & Hr & Hreprl & Hreprr) [= ->] Hnd.
  assert (nd0 = nd) as -> by congruence.
  intros c [Hc | Hc].
  - rewrite Hl in Hc. destruct l as [|al fl ll rl]; [done|]. injection Hc as ->.
    destruct Hreprl as (nl & ? & _ & ? & _). eauto.
  - rewrite Hr in Hc. destruct r as [|al fl ll rl]; [done|]. injection Hc as ->.
    destruct Hreprr as (nl & ? & _ & ? & _). eauto.
Qed.

Lemma same_place_bisimulation (h h' : heap num) :
  text_bisimulation h h' (same_place h h').
Proof.
  intros x ? (<- & s & p & p' & Hr & Hr' & Hk & Hx).
  destruct s as [|a f l r]; [done|]. injection Hx as ->.
  destruct Hr as (nd & Hnd & Hf & Hp & Hl & Hrr & Hreprl & Hreprr).
  destruct Hr' as (nd' & Hnd' & Hf' & Hp' & Hl' & Hrr' & Hreprl' & Hreprr').
  rewrite Hnd, Hnd'.
  assert (face_of nd' = face_of nd) as Hface by congruence.
  assert (nkind nd' = nkind nd) as Hkind by exact (f_equal f_kind Hface).
  assert (Hchild : forall sc, repr h (Some x) sc -> repr h' (Some x) sc ->
            opt_rel (same_place h h') (sroot sc) (sroot sc)).
  { intros sc H1 H2. destruct sc as [|ac fc lc rc]; [done|]. cbn.
    split; [done|]. exists (SNode ac fc lc rc), (Some x), (Some x).
    repeat split; try done. unfold kind_at. by rewrite Hnd, Hnd', Hkind. }
  split; [|split].
  - unfold same_face. rewrite Hp, Hp'.
    split; [done|]. split; [|split; [|split; [|done]]].
    + intros Hc. pose proof (f_equal f_value Hface) as Hv. cbn in Hv.
      rewrite Hkind, Hc in Hv. by cbn in Hv.
    + intros Hc. pose proof (f_equal f_identifier Hface) as Hv. cbn in Hv.
      rewrite Hkind, Hc in Hv. by cbn in Hv.
    + symmetry. exact (f_equal f_colored Hface).
  - rewrite Hl, Hl'. by apply Hchild.
  - rewrite Hrr, Hrr'. by apply Hchild.
Qed.

(** X3: the way the callers use the rule: a swap applied to the node
    returned by [n.clone_from_root()] succeeds when the rule accepts [n],
    rewrites a new object, and leaves the original tree as it was, with the
    text and the value of [n]. *)
Theorem apply_to_clone_isolated (fuel : nat) (rule : CommutativeSwapRule)
  (h : heap num) (s : shape num) (rt n : addr) :
  sroot s = Some rt -> repr h None s -> in_shape n s -> height s < fuel ->
  can_apply_to rule h n = true ->
  exists h' c h'' change,
    clone_from_root fuel h n None = Ok (h', c)
    /\ apply_to fuel rule h' c = Ok (h'', change)
    /\ after change = Some c
    /\ length h <= c
    /\ repr h'' None s
    /\ forall f,
         to_text f h'' n = to_text f h n
         /\ forall context, evaluate f h'' context n = evaluate f h context n.
Proof.
  intros Hroot Hrepr Hin Hfuel Hcan.
  destruct (clone_from_root_run fuel h s rt n Hroot Hrepr Hin Hfuel)
    as (h' & c & s' & Hrun & Hsame & Hrepr' & Hm & Hcorr & Hlo).
  destruct (corr_subtrees h h' s s' None None n c Hcorr Hrepr Hrepr' Hm)
    as (sx & sc & px & pc & H1 & H2 & H3 & H4 & H5 & _).
  assert (can_apply_to rule h' c = true) as Hcan'.
  { rewrite <- Hcan. symmetry. eapply can_apply_to_alike; eauto using mirror_alike. }
  destruct (corr_in_shape _ _ _ _ Hcorr) as (_ & Hcin).
  destruct (repr_node _ _ _ _ Hrepr' Hcin) as (nc & Hnc).
  destruct (mirror_roots _ _ Hm) as [(Hn & _) | (a & f & l & r & a' & f' & l' & r' & -> & ->)];
    [congruence|].
  assert (get_root 1 h' a' = Ok a') as Hg1.
  { destruct Hrepr' as (nrt & Hnrt & _ & Hp & _).
    cbn. unfold deref. rewrite Hnrt. cbn. by rewrite Hp. }
  assert (get_root fuel h' c = Ok a') as Hg.
  { eapply get_root_mono;
      [apply (get_root_in_shape h' _ None a' c 1 a' Hrepr' eq_refl Hcin Hg1)|].
    rewrite (mirror_height _ _ Hm). lia. }
  pose proof (apply_to_in_place fuel rule h' c nc a' Hnc
                (repr_linked _ _ _ _ _ H2 H5 Hnc) Hcan' Hg) as Happly.
  exists h', c, (<[c := swapped nc]> h'), (mkChange c (Some c) (Some a')).
  split; [exact Hrun|]. split; [exact Happly|]. split; [reflexivity|].
  split; [by apply Hlo|].
  assert (Hrepr'' : repr (<[c := swapped nc]> h') None (SNode a f l r)).
  { eapply repr_frame; [|by eapply repr_same_tree].
    intros x Hx. apply list_lookup_insert_ne.
    pose proof (repr_lookup _ _ _ _ Hrepr Hx). pose proof (Hlo c Hcin). lia. }
  split; [exact Hrepr''|].
  destruct (subtree_at _ None n Hin) as (sy & py & G1 & _ & Gp & G2).
  intros fu. split.
  - symmetry. apply (to_text_bisim h _ (same_place h (<[c := swapped nc]> h'))).
    + apply same_place_bisimulation.
    + split; [done|]. exists sy, py, py. repeat split; auto.
      destruct Gp as [-> | (q & -> & Hq)]; [done|].
      exact (kind_at_repr _ _ _ _ _ q Hrepr Hrepr'' Hq).
  - intros context. symmetry.
    eapply (evaluate_alike context sy sy); eauto using alike_refl.
Qed.


(** ** Differentiation *)

Lemma reparented_refl (h : heap num) : reparented h h.
Proof. intros x nd Hx. by left. Qed.

Lemma reparented_length (h h' : heap num) : reparented h h' -> length h <= length h'.
Proof.
  intros Hr. destruct (decide (length h = 0)) as [->|Hne]; [lia|].
  destruct (lookup_lt_is_Some_2 h (length h - 1)) as (nd & Hnd); [lia|].
  destruct (Hr _ _ Hnd) as [Hx | (p & _ & Hx)]; apply lookup_lt_Some in Hx; lia.
Qed.

Lemma with_parent_with_parent (p q : option addr) (nd : node num) :
  with_parent p (with_parent q nd) = with_parent p nd.
Proof. by destruct nd. Qed.

Lemma reparented_trans (h1 h2 h3 : heap num) :
  reparented h1 h2 -> reparented h2 h3 -> reparented h1 h3.
Proof.
  intros H12 H23 x nd Hx. pose proof (reparented_length _ _ H12) as Hlen.
  destruct (H12 _ _ Hx) as [Hx2 | (p & Hp & Hx2)];
    destruct (H23 _ _ Hx2) as [Hx3 | (q & Hq & Hx3)].
  - by left.
  - right. exists q. split; [lia|done].
  - right. by exists p.
  - right. exists q. split; [lia|]. by rewrite with_parent_with_parent in Hx3.
Qed.

Lemma reparented_alloc (h : heap num) (n : node num) : reparented h (h ++ [n]).
Proof. intros x nd Hx. left. by apply lookup_app_l_Some. Qed.

(** What the link setters write. *)
Lemma set_left_writes (h h' : heap num) (p : addr) (c : option addr) :
  set_left h p c = Ok h' ->
  length h' = length h
  /\ (forall x nd, x <> p -> h !! x = Some nd ->
        h' !! x = Some nd \/ h' !! x = Some (with_parent (Some p) nd) /\ c = Some x)
  /\ (forall x, c = Some x -> exists nx, h' !! x = Some nx /\ parent nx = Some p)
  /\ exists np, h !! p = Some np
       /\ (c <> Some p -> h' !! p = Some (with_left c np))
       /\ exists q, h' !! p = Some (with_parent q (with_left c np)).
Proof.
  unfold set_left, deref. destruct (h !! p) as [np|] eqn:Hp; [|done].
  cbn [bind_res]. assert (p < length h) as Hlt by (by eapply lookup_lt_Some).
  destruct c as [c|].
  - destruct (<[p:=with_left (Some c) np]> h !! c) as [nc|] eqn:Hc; [|done].
    cbn [bind_res]. intros [= <-].
    assert (c < length (<[p:=with_left (Some c) np]> h)) as Hclt
      by (by eapply lookup_lt_Some).
    split; [by rewrite !length_insert|]. split; [|split].
    + intros x nd Hxp Hx. destruct (decide (x = c)) as [->|Hne].
      * right. rewrite list_lookup_insert_eq by done.
        rewrite list_lookup_insert_ne in Hc by done. split; [|done]. congruence.
      * left. by rewrite !list_lookup_insert_ne.
    + intros x [= <-]. eexists. rewrite list_lookup_insert_eq by done.
      split; [done|]. by destruct nc.
    + exists np. split; [done|]. split.
      * intros Hne. rewrite list_lookup_insert_ne by congruence.
        by rewrite list_lookup_insert_eq.
      * destruct (decide (c = p)) as [->|Hne].
        -- rewrite list_lookup_insert_eq in Hc by done. injection Hc as <-.
           eexists. by rewrite list_lookup_insert_eq.
        -- exists (parent np). rewrite list_lookup_insert_ne by done.
           rewrite list_lookup_insert_eq by done. by destruct np.
  - intros [= <-]. split; [by rewrite length_insert|]. split; [|split].
    + intros x nd Hxp Hx. left. by rewrite list_lookup_insert_ne.
    + done.
    + exists np. split; [done|]. split.
      * intros _. by rewrite list_lookup_insert_eq.
      * exists (parent np). rewrite list_lookup_insert_eq by done. by destruct np.
Qed.

Lemma set_right_writes (h h' : heap num) (p : addr) (c : option addr) :
  set_right h p c = Ok h' ->
  length h' = length h
  /\ (forall x nd, x <> p -> h !! x = Some nd ->
        h' !! x = Some nd \/ h' !! x = Some (with_parent (Some p) nd) /\ c = Some x)
  /\ (forall x, c = Some x -> exists nx, h' !! x = Some nx /\ parent nx = Some p)
  /\ exists np, h !! p = Some np
       /\ (c <> Some p -> h' !! p = Some (with_right c np))
       /\ exists q, h' !! p = Some (with_parent q (with_right c np)).
Proof.
  unfold set_right, deref. destruct (h !! p) as [np|] eqn:Hp; [|done].
  cbn [bind_res]. assert (p < length h) as Hlt by (by eapply lookup_lt_Some).
  destruct c as [c|].
  - destruct (<[p:=with_right (Some c) np]> h !! c) as [nc|] eqn:Hc; [|done].
    cbn [bind_res]. intros [= <-].
    assert (c < length (<[p:=with_right (Some c) np]> h)) as Hclt
      by (by eapply lookup_lt_Some).
    split; [by rewrite !length_insert|]. split; [|split].
    + intros x nd Hxp Hx. destruct (decide (x = c)) as [->|Hne].
      * right. rewrite list_lookup_insert_eq by done.
        rewrite list_lookup_insert_ne in Hc by done. split; [|done]. congruence.
      * left. by rewrite !list_lookup_insert_ne.
    + intros x [= <-]. eexists. rewrite list_lookup_insert_eq by done.
      split; [done|]. by destruct nc.
    + exists np. split; [done|]. split.
      * intros Hne. rewrite list_lookup_insert_ne by congruence.
        by rewrite list_lookup_insert_eq.
      * destruct (decide (c = p)) as [->|Hne].
        -- rewrite list_lookup_insert_eq in Hc by done. injection Hc as <-.
           eexists. by rewrite list_lookup_insert_eq.
        -- exists (parent np). rewrite list_lookup_insert_ne by done.
           rewrite list_lookup_insert_eq by done. by destruct np.
  - intros [= <-]. split; [by rewrite length_insert|]. split; [|split].
    + intros x nd Hxp Hx. left. by rewrite list_lookup_insert_ne.
    + done.
    + exists np. split; [done|]. split.
      * intros _. by rewrite list_lookup_insert_eq.
      * exists (parent np). rewrite list_lookup_insert_eq by done. by destruct np.
Qed.

Lemma construct_binary_writes (k : kind) (h h' : heap num) (l r : option addr)
  (a : addr) :
  construct_binary k h l r = Ok (h', a) ->
  a = length h /\ length h' = S (length h)
  /\ reparented h h'
  /\ (forall x, x < length h -> l = Some x \/ r = Some x ->
        exists nx, h' !! x = Some nx /\ parent nx = Some a)
  /\ exists nd, h' !! a = Some nd /\ nkind nd = k /\ left nd = l /\ right nd = r
       /\ child nd = None
       /\ (l <> Some a -> r <> Some a -> parent nd = None).
Proof.
  unfold construct_binary, alloc. intros H.
  apply bind_res_Ok in H as (h1 & Hl & H).
  apply bind_res_Ok in H as (h2 & Hr & H). injection H as <- <-.
  destruct (set_left_writes _ _ _ _ Hl) as (Hlen1 & Hoth1 & Hch1 & np & Hnp & Hp1 & q1 & Hq1).
  destruct (set_right_writes _ _ _ _ Hr) as (Hlen2 & Hoth2 & Hch2 & np2 & Hnp2 & Hp2 & q2 & Hq2).
  rewrite lookup_app_r in Hnp by done. rewrite Nat.sub_diag in Hnp. injection Hnp as <-.
  rewrite length_app in Hlen1. cbn in Hlen1.
  split; [done|]. split; [lia|]. split; [|split].
  - intros x nd Hx. assert (x < length h) as Hlt by (by eapply lookup_lt_Some).
    assert ((h ++ [new_node k]) !! x = Some nd) as Hx0 by (by apply lookup_app_l_Some).
    destruct (Hoth1 x nd ltac:(lia) Hx0) as [Hx1 | (Hx1 & _)];
      destruct (Hoth2 x _ ltac:(lia) Hx1) as [Hx2 | (Hx2 & _)].
    + by left.
    + right. by exists (length h).
    + right. by exists (length h).
    + right. exists (length h). by rewrite with_parent_with_parent in Hx2.
  - intros x Hlt [-> | ->].
    + destruct (Hch1 x eq_refl) as (nx & Hx1 & Hpx).
      destruct (Hoth2 x _ ltac:(lia) Hx1) as [Hx2 | (Hx2 & _)];
        (eexists; split; [exact Hx2|]); [done|by destruct nx].
    + by apply Hch2.
  - rewrite Hq1 in Hnp2. injection Hnp2 as <-.
    eexists. split; [exact Hq2|]. repeat split; try done.
    intros Hla Hra. rewrite (Hp1 Hla) in Hq1. injection Hq1 as Hq1.
    rewrite (Hp2 Hra) in Hq2. injection Hq2 as Hq2.
    rewrite <- Hq2, <- Hq1. done.
Qed.

Lemma construct_unary_writes (k : kind) (h h' : heap num) (c : option addr)
  (a : addr) :
  construct_unary k h c = Ok (h', a) ->
  a = length h /\ length h' = S (length h)
  /\ reparented h h'
  /\ exists nd, h' !! a = Some nd /\ nkind nd = k /\ left nd = c /\ child nd = c
       /\ (c <> Some a -> parent nd = None).
Proof.
  unfold construct_unary, alloc. intros H.
  apply bind_res_Ok in H as (h1 & Hl & H). injection H as <- <-.
  destruct (set_left_writes _ _ _ _ Hl) as (Hlen1 & Hoth1 & Hch1 & np & Hnp & Hp1 & q1 & Hq1).
  rewrite lookup_app_r in Hnp by done. rewrite Nat.sub_diag in Hnp. injection Hnp as <-.
  rewrite length_app in Hlen1. cbn in Hlen1.
  split; [done|]. split; [lia|]. split.
  - intros x nd Hx. assert (x < length h) as Hlt by (by eapply lookup_lt_Some).
    assert ((h ++ [with_child c (new_node k)]) !! x = Some nd) as Hx0
      by (by apply lookup_app_l_Some).
    destruct (Hoth1 x nd ltac:(lia) Hx0) as [Hx1 | (Hx1 & _)].
    + by left.
    + right. by exists (length h).
  - eexists. split; [exact Hq1|]. repeat split; try done.
    intros Hc. rewrite (Hp1 Hc) in Hq1. injection Hq1 as Hq1. by rewrite <- Hq1.
Qed.

Lemma construct_constant_writes (h : heap num) (v : num) :
  reparented h (construct_constant h v).1
  /\ (construct_constant h v).2 = length h
  /\ length (construct_constant h v).1 = S (length h)
  /\ (construct_constant h v).1 !! length h
     = Some (with_value (Some v) (new_node KConstant)).
Proof.
  unfold construct_constant, alloc. cbn [fst snd]. split; [apply reparented_alloc|].
  split; [done|]. split; [rewrite length_app; cbn; lia|].
  rewrite lookup_app_r by done. by rewrite Nat.sub_diag.
Qed.

Lemma differentiated_constant (h : heap num) (v : num) :
  differentiated h (construct_constant h v).1 (construct_constant h v).2.
Proof.
  destruct (construct_constant_writes h v) as (H1 & H2 & H3 & H4).
  split; [done|]. rewrite H2, H3. split; [lia|]. by eexists.
Qed.

Lemma differentiated_binary (k : kind) (h0 h h' : heap num) (l r : option addr)
  (a : addr) :
  reparented h0 h ->
  (forall x, l = Some x \/ r = Some x -> x < length h) ->
  construct_binary k h l r = Ok (h', a) ->
  differentiated h0 h' a.
Proof.
  intros H0 Hlt Hc.
  destruct (construct_binary_writes _ _ _ _ _ _ Hc) as (-> & Hlen & Hr & _ & nd & Hnd & _ & _ & _ & _ & Hp).
  pose proof (reparented_length _ _ H0).
  split; [by eapply reparented_trans|]. split; [lia|].
  exists nd. split; [done|]. apply Hp; intros ->.
  - pose proof (Hlt (length h) (or_introl eq_refl)). lia.
  - pose proof (Hlt (length h) (or_intror eq_refl)). lia.
Qed.

Lemma differentiate_writes (by_variable : string) (fuel : nat) :
  forall (h h' : heap num) (a d : addr),
    differentiate fuel h a by_variable = Ok (h', d) -> differentiated h h' d.
Proof.
  induction fuel as [|f IH]; intros h h' a d H; [done|].
  cbn [differentiate] in H.
  apply bind_res_Ok in H as (nd & _ & H).
  assert (IHo : forall h h' o d,
            match o with
            | None => Raise AttributeError
            | Some c => differentiate f h c by_variable
            end = Ok (h', d) -> differentiated h h' d).
  { intros h0 h0' [c|] d0 H0; [by eapply IH|done]. }
  destruct (nkind nd).
  - (* Negate *)
    apply bind_res_Ok in H as ([h1 d1] & H1 & H).
    destruct (IHo _ _ _ _ H1) as (R1 & L1 & _).
    destruct (construct_unary_writes _ _ _ _ _ H) as (-> & Hlen & Hr & n' & Hn' & _ & _ & _ & Hp).
    pose proof (reparented_length _ _ R1).
    split; [by eapply reparented_trans|]. split; [lia|].
    exists n'. split; [done|]. apply Hp. intros [= ->]. lia.
  - (* Abs *)
    apply bind_res_Ok in H as ([h1 d1] & _ & H). done.
  - (* Sgn *) injection H as <- <-. apply differentiated_constant.
  - done.
  - (* Add *)
    apply bind_res_Ok in H as ([h1 dl] & H1 & H).
    apply bind_res_Ok in H as ([h2 dr] & H2 & H).
    destruct (IHo _ _ _ _ H1) as (R1 & L1 & _).
    destruct (IHo _ _ _ _ H2) as (R2 & L2 & _).
    pose proof (reparented_length _ _ R2).
    eapply differentiated_binary; [|
      |exact H].
    + by eapply reparented_trans.
    + intros x [[= <-] | [= <-]]; lia.
  - (* Subtract *)
    apply bind_res_Ok in H as ([h1 dl] & H1 & H).
    apply bind_res_Ok in H as ([h2 dr] & H2 & H).
    destruct (IHo _ _ _ _ H1) as (R1 & L1 & _).
    destruct (IHo _ _ _ _ H2) as (R2 & L2 & _).
    pose proof (reparented_length _ _ R2).
    eapply differentiated_binary; [| |exact H].
    + by eapply reparented_trans.
    + intros x [[= <-] | [= <-]]; lia.
  - (* Multiply *)
    apply bind_res_Ok in H as ([h1 dr] & H1 & H).
    apply bind_res_Ok in H as ([h2 m1] & H2 & H).
    apply bind_res_Ok in H as ([h3 dl] & H3 & H).
    apply bind_res_Ok in H as ([h4 m2] & H4 & H).
    destruct (IHo _ _ _ _ H1) as (R1 & L1 & _).
    destruct (construct_binary_writes _ _ _ _ _ _ H2) as (-> & Hlen2 & R2 & _).
    destruct (IHo _ _ _ _ H3) as (R3 & L3 & _).
    destruct (construct_binary_writes _ _ _ _ _ _ H4) as (-> & Hlen4 & R4 & _).
    pose proof (reparented_length _ _ R3).
    eapply differentiated_binary; [| |exact H].
    + repeat (eapply reparented_trans; [eassumption|]). apply reparented_refl.
    + intros x [[= <-] | [= <-]]; lia.
  - (* Divide *)
    apply bind_res_Ok in H as ([h1 dl] & H1 & H).
    apply bind_res_Ok in H as ([h2 gprimeh] & H2 & H).
    apply bind_res_Ok in H as ([h3 dr] & H3 & H).
    apply bind_res_Ok in H as ([h4 ghprime] & H4 & H).
    destruct (construct_constant h4 (num_of_Z 2)) as [h5 two] eqn:H5.
    apply bind_res_Ok in H as ([h6 hsquare] & H6 & H).
    apply bind_res_Ok in H as ([h7 sub] & H7 & H).
    destruct (IHo _ _ _ _ H1) as (R1 & L1 & _).
    destruct (construct_binary_writes _ _ _ _ _ _ H2) as (-> & Hlen2 & R2 & _).
    destruct (IHo _ _ _ _ H3) as (R3 & L3 & _).
    destruct (construct_binary_writes _ _ _ _ _ _ H4) as (-> & Hlen4 & R4 & _).
    destruct (construct_constant_writes h4 (num_of_Z 2)) as (R5 & E5 & Hlen5 & _).
    rewrite H5 in R5, E5, Hlen5. cbn [fst snd] in R5, E5, Hlen5.
    destruct (construct_binary_writes _ _ _ _ _ _ H6) as (-> & Hlen6 & R6 & _).
    destruct (construct_binary_writes _ _ _ _ _ _ H7) as (-> & Hlen7 & R7 & _).
    eapply differentiated_binary; [| |exact H].
    + repeat (eapply reparented_trans; [eassumption|]). apply reparented_refl.
    + intros x [[= <-] | [= <-]]; lia.
  - done.
  - done.
  - (* Variable *)
    destruct (bool_decide _); injection H as <- <-; apply differentiated_constant.
Qed.

(** X4: when [differentiate] returns, the derivative is a new object
    without a parent, and every object that existed before is kept as it was
    but for its [parent]. *)
Theorem differentiate_returns_new_root (fuel : nat) (h h' : heap num) (a d : addr)
  (by_variable : string) :
  differentiate fuel h a by_variable = Ok (h', d) ->
  length h <= d
  /\ (exists nd, h' !! d = Some nd /\ parent nd = None)
  /\ forall x nd, h !! x = Some nd -> exists p, h' !! x = Some (with_parent p nd).
Proof.
  intros H. destruct (differentiate_writes _ _ _ _ _ _ H) as (R & L & P).
  split; [lia|]. split; [done|].
  intros x nd Hx. destruct (R _ _ Hx) as [Hx' | (p & _ & Hx')].
  - exists (parent nd). rewrite Hx'. by destruct nd.
  - by exists (Some p).
Qed.

Lemma evaluate_reparented (h h' : heap num) (context : option (gmap string num)) :
  reparented h h' ->
  forall fuel x,
    evaluate fuel h context x <> Dangling ->
    evaluate fuel h' context x = evaluate fuel h context x.
Proof.
  intros R. induction fuel as [|f IH]; intros x Hx; [done|].
  cbn [evaluate] in *. unfold deref in *.
  destruct (h !! x) as [nd|] eqn:Hnd; [|done].
  assert (exists nd', h' !! x = Some nd' /\ nkind nd' = nkind nd
            /\ value nd' = value nd /\ identifier nd' = identifier nd
            /\ left nd' = left nd /\ right nd' = right nd) as (nd' & Hnd' & Hk & Hv & Hi & Hl & Hr).
  { destruct (R _ _ Hnd) as [H | (p & _ & H)]; eexists; (split; [exact H|]); done. }
  rewrite Hnd'. cbn [bind_res] in *. rewrite Hk, Hl, Hr, Hv.
  assert (Hev : forall o,
            match o with None => Raise AttributeError
                    | Some c => evaluate f h context c end <> Dangling ->
            match o with None => Raise AttributeError
                    | Some c => evaluate f h' context c end
            = match o with None => Raise AttributeError
                      | Some c => evaluate f h context c end).
  { intros [c|] Hc; [by apply IH|done]. }
  assert (Hvar : evaluate_variable nd' context = evaluate_variable nd context).
  { unfold evaluate_variable. by rewrite Hi. }
  destruct (nkind nd); try done;
    try (rewrite (Hev (left nd)); [reflexivity|];
         intros Hd; rewrite Hd in Hx; by cbn in Hx);
    (rewrite (Hev (left nd)) by (intros Hd; rewrite Hd in Hx; by cbn in Hx);
     destruct (match left nd with None => Raise AttributeError
                             | Some c => evaluate f h context c end) as [one| | |];
       try done; cbn [bind_res] in *;
     rewrite (Hev (right nd)) by (intros Hd; rewrite Hd in Hx; by cbn in Hx);
     reflexivity).
Qed.

(** X5: when [differentiate] returns, every expression of the store that
    could be evaluated before (no reference to a missing object) evaluates to
    the same outcome afterwards, under every context. *)
Theorem differentiate_keeps_values (fuel : nat) (h h' : heap num) (a d : addr)
  (by_variable : string) :
  differentiate fuel h a by_variable = Ok (h', d) ->
  forall f context x,
    evaluate f h context x <> Dangling ->
    evaluate f h' context x = evaluate f h context x.
Proof.
  intros H f context x. apply evaluate_reparented.
  by destruct (differentiate_writes _ _ _ _ _ _ H).
Qed.

Lemma reparented_fields (h h' : heap num) (x : addr) (nd : node num) :
  reparented h h' -> h !! x = Some nd ->
  exists nd', h' !! x = Some nd' /\ nkind nd' = nkind nd
    /\ left nd' = left nd /\ right nd' = right nd /\ child nd' = child nd.
Proof.
  intros R Hnd.
  destruct (R _ _ Hnd) as [H | (p & _ & H)]; eexists; (split; [exact H|]); done.
Qed.

Lemma blocked_reparented (h h' : heap num) (a : addr) :
  blocked h a -> reparented h h' -> blocked h' a.
Proof.
  intros Hb R. induction Hb as [a nd Hnd Hk | a nd l Hnd Hk Hl _ IH
                               | a nd r Hnd Hk Hr _ IH | a nd c Hnd Hk Hc _ IH];
    destruct (reparented_fields _ _ _ _ R Hnd) as (nd' & Hnd' & Hk' & Hl' & Hr' & Hc').
  - eapply blocked_here; [exact Hnd'|]. by rewrite Hk'.
  - eapply blocked_left; [exact Hnd'| | |exact IH]; congruence.
  - eapply blocked_right; [exact Hnd'| | |exact IH]; congruence.
  - eapply blocked_child; [exact Hnd'| | |exact IH]; congruence.
Qed.

(** X6: [differentiate] never returns a derivative for an expression in
    which it reaches a constant, an equality, an absolute value or a power:
    through the operands of [+ - * /] and the operand of a negation. *)
Theorem differentiate_blocked (by_variable : string) (fuel : nat) :
  forall (h : heap num) (a : addr),
    blocked h a -> forall r, differentiate fuel h a by_variable <> Ok r.
Proof.
  induction fuel as [|f IH]; intros h a Hb [h' d] H; [done|].
  cbn [differentiate] in H.
  apply bind_res_Ok in H as (nd & Hnd & H).
  unfold deref in Hnd. destruct (h !! a) as [nd0|] eqn:Hnd0; [|done].
  injection Hnd as ->.
  assert (IHo : forall h0 h0' o c d0,
            reparented h h0 -> o = Some c -> blocked h c ->
            match o with
            | None => Raise AttributeError
            | Some c => differentiate f h0 c by_variable
            end = Ok (h0', d0) -> False).
  { intros h0 h0' o c d0 R -> Hc H0.
    eapply IH; [|exact H0]. by eapply blocked_reparented. }
  assert (Wo : forall h0 h0' o d0,
            match o with
            | None => Raise AttributeError
            | Some c => differentiate f h0 c by_variable
            end = Ok (h0', d0) -> reparented h0 h0').
  { intros h0 h0' [c|] d0 H0; [|done].
    by destruct (differentiate_writes _ _ _ _ _ _ H0). }
  inversion Hb as [a0 nd1 Hnd1 Hk | a0 nd1 l Hnd1 Hk Hl Hbl
                  | a0 nd1 r Hnd1 Hk Hr Hbr | a0 nd1 c Hnd1 Hk Hc Hbc]; subst a0;
    assert (nd1 = nd) as -> by congruence.
  - destruct (nkind nd); try done.
    apply bind_res_Ok in H as ([h1 d1] & _ & H). done.
  - destruct (nkind nd); try done.
    + apply bind_res_Ok in H as ([h1 dl] & H1 & H).
      eapply (IHo h); eauto using reparented_refl.
    + apply bind_res_Ok in H as ([h1 dl] & H1 & H).
      eapply (IHo h); eauto using reparented_refl.
    + apply bind_res_Ok in H as ([h1 dr] & H1 & H).
      apply bind_res_Ok in H as ([h2 m1] & H2 & H).
      apply bind_res_Ok in H as ([h3 dl] & H3 & H).
      destruct (construct_binary_writes _ _ _ _ _ _ H2) as (_ & _ & R2 & _).
      eapply (IHo h2); [|exact Hl|exact Hbl|exact H3].
      eapply reparented_trans; [|exact R2]. by eapply Wo.
    + apply bind_res_Ok in H as ([h1 dl] & H1 & H).
      eapply (IHo h); eauto using reparented_refl.
  - destruct (nkind nd); try done.
    + apply bind_res_Ok in H as ([h1 dl] & H1 & H).
      apply bind_res_Ok in H as ([h2 dr] & H2 & H).
      eapply (IHo h1); [|exact Hr|exact Hbr|exact H2]. by eapply Wo.
    + apply bind_res_Ok in H as ([h1 dl] & H1 & H).
      apply bind_res_Ok in H as ([h2 dr] & H2 & H).
      eapply (IHo h1); [|exact Hr|exact Hbr|exact H2]. by eapply Wo.
    + apply bind_res_Ok in H as ([h1 dr] & H1 & H).
      eapply (IHo h); eauto using reparented_refl.
    + apply bind_res_Ok in H as ([h1 dl] & H1 & H).
      apply bind_res_Ok in H as ([h2 gprimeh] & H2 & H).
      apply bind_res_Ok in H as ([h3 dr] & H3 & H).
      destruct (construct_binary_writes _ _ _ _ _ _ H2) as (_ & _ & R2 & _).
      eapply (IHo h2); [|exact Hr|exact Hbr|exact H3].
      eapply reparented_trans; [|exact R2]. by eapply Wo.
  - rewrite Hk in H.
    apply bind_res_Ok in H as ([h1 d1] & H1 & H).
    eapply (IHo h); eauto using reparented_refl.
Qed.

Lemma reparented_fresh_parent (h h' : heap num) (lo x p : addr) (nx : node num) :
  reparented h h' -> h !! x = Some nx -> parent nx = Some p -> lo <= p ->
  lo <= length h ->
  exists nx' p', h' !! x = Some nx' /\ parent nx' = Some p' /\ lo <= p'.
Proof.
  intros R Hx Hp Hlo Hlen. destruct (R _ _ Hx) as [H | (q & Hq & H)].
  - by exists nx, p.
  - eexists _, q. split; [exact H|]. split; [done|lia].
Qed.

(** X7: when [differentiate] returns on a product or a quotient, each
    operand of the node has been moved under a new object: its [parent] no
    longer names the node, whose links still name the operand. *)
Theorem differentiate_reparents_operands (fuel : nat) (h h' : heap num) (a d : addr)
  (nd : node num) (by_variable : string) :
  h !! a = Some nd ->
  nkind nd = KMultiply \/ nkind nd = KDivide ->
  differentiate fuel h a by_variable = Ok (h', d) ->
  forall c, c < length h -> left nd = Some c \/ right nd = Some c ->
    exists nc p, h' !! c = Some nc /\ parent nc = Some p /\ a < p.
Proof.
  intros Hnd Hk H c Hc Hlr.
  assert (a < length h) as Ha by (by eapply lookup_lt_Some).
  cut (exists nc p, h' !! c = Some nc /\ parent nc = Some p /\ length h <= p).
  { intros (nc & p & ? & ? & ?). exists nc, p. repeat split; [done..|lia]. }
  destruct fuel as [|f]; [done|]. cbn [differentiate] in H.
  unfold deref in H. rewrite Hnd in H. cbn [bind_res] in H.
  assert (Wo : forall h0 h0' o d0,
            match o with
            | None => Raise AttributeError
            | Some c => differentiate f h0 c by_variable
            end = Ok (h0', d0) -> reparented h0 h0').
  { intros h0 h0' [c'|] d0 H0; [|done].
    by destruct (differentiate_writes _ _ _ _ _ _ H0). }
  destruct Hk as [Hk | Hk]; rewrite Hk in H.
  - apply bind_res_Ok in H as ([h1 dr] & H1 & H).
    apply bind_res_Ok in H as ([h2 m1] & H2 & H).
    apply bind_res_Ok in H as ([h3 dl] & H3 & H).
    apply bind_res_Ok in H as ([h4 m2] & H4 & H).
    pose proof (Wo _ _ _ _ H1) as R1. pose proof (Wo _ _ _ _ H3) as R3.
    destruct (construct_binary_writes _ _ _ _ _ _ H2) as (-> & Hlen2 & R2 & Hch2 & _).
    destruct (construct_binary_writes _ _ _ _ _ _ H4) as (-> & Hlen4 & R4 & Hch4 & _).
    destruct (construct_binary_writes _ _ _ _ _ _ H) as (_ & _ & R5 & _).
    pose proof (reparented_length _ _ R1). pose proof (reparented_length _ _ R3).
    destruct Hlr as [Hl | Hr].
    + destruct (Hch2 c ltac:(lia) (or_introl Hl)) as (nx & Hx & Hp).
      eapply (reparented_fresh_parent h2 h'); [|exact Hx|exact Hp|lia|lia].
      repeat (eapply reparented_trans; [eassumption|]). apply reparented_refl.
    + destruct (Hch4 c ltac:(lia) (or_intror Hr)) as (nx & Hx & Hp).
      eapply (reparented_fresh_parent h4 h'); [exact R5|exact Hx|exact Hp|lia|lia].
  - apply bind_res_Ok in H as ([h1 dl] & H1 & H).
    apply bind_res_Ok in H as ([h2 gprimeh] & H2 & H).
    apply bind_res_Ok in H as ([h3 dr] & H3 & H).
    apply bind_res_Ok in H as ([h4 ghprime] & H4 & H).
    destruct (construct_constant h4 (num_of_Z 2)) as [h5 two] eqn:H5.
    apply bind_res_Ok in H as ([h6 hsquare] & H6 & H).
    apply bind_res_Ok in H as ([h7 sub] & H7 & H).
    pose proof (Wo _ _ _ _ H1) as R1. pose proof (Wo _ _ _ _ H3) as R3.
    destruct (construct_binary_writes _ _ _ _ _ _ H2) as (-> & Hlen2 & R2 & Hch2 & _).
    destruct (construct_binary_writes _ _ _ _ _ _ H4) as (-> & Hlen4 & R4 & Hch4 & _).
    destruct (construct_constant_writes h4 (num_of_Z 2)) as (R5 & E5 & Hlen5 & _).
    rewrite H5 in R5, E5, Hlen5. cbn [fst snd] in R5, E5, Hlen5.
    destruct (construct_binary_writes _ _ _ _ _ _ H6) as (_ & Hlen6 & R6 & _).
    destruct (construct_binary_writes _ _ _ _ _ _ H7) as (_ & Hlen7 & R7 & _).
    destruct (construct_binary_writes _ _ _ _ _ _ H) as (_ & _ & R8 & _).
    pose proof (reparented_length _ _ R1). pose proof (reparented_length _ _ R3).
    destruct Hlr as [Hl | Hr].
    + destruct (Hch4 c ltac:(lia) (or_introl Hl)) as (nx & Hx & Hp).
      eapply (reparented_fresh_parent h4 h'); [|exact Hx|exact Hp|lia|lia].
      repeat (eapply reparented_trans; [eassumption|]). apply reparented_refl.
    + destruct (Hch2 c ltac:(lia) (or_intror Hr)) as (nx & Hx & Hp).
      eapply (reparented_fresh_parent h2 h'); [|exact Hx|exact Hp|lia|lia].
      repeat (eapply reparented_trans; [eassumption|]). apply reparented_refl.
Qed.


(** ** Rendering a tree *)

Lemma to_text_node (h : heap num) (a : addr) (nd : node num) (fu : nat)
  (bl br : bool) :
  h !! a = Some nd ->
  match left nd with
  | Some c => if bl then exists t, to_text fu h c = Ok t
              else missing_children (to_text fu h c)
  | None => bl = true
  end ->
  match right nd with
  | Some c => if br then exists t, to_text fu h c = Ok t
              else missing_children (to_text fu h c)
  | None => br = true
  end ->
  if match nkind nd with
     | KConstant | KVariable => true
     | KNegate | KAbs | KSgn => bl
     | KPower => bl && br
     | KEqual | KAdd | KSubtract | KMultiply | KDivide =>
         bool_decide (is_Some (left nd)) && bool_decide (is_Some (right nd))
         && bl && br
     end
  then exists t, to_text (S fu) h a = Ok t
  else missing_children (to_text (S fu) h a).
Proof.
  intros Hnd Hl Hr. unfold missing_children in *.
  cbn [to_text]. unfold deref. rewrite Hnd. cbn [bind_res].
  destruct (left nd) as [l|], (right nd) as [r|].
  all: try (destruct bl; [destruct Hl as (tl & ->)|destruct Hl as (kl & ->)]).
  all: try (destruct br; [destruct Hr as (tr & ->)|destruct Hr as (kr & ->)]).
  all: try subst bl; try subst br.
  all: rewrite ?(bool_decide_eq_true_2 (is_Some (Some _))) by (by eexists).
  all: rewrite ?(bool_decide_eq_false_2 (is_Some None)) by (by intros [? ?]).
  all: unfold isinstance; cbn [kind_at orb]; rewrite ?andb_false_r.
  all: destruct (nkind nd); cbn [bind_res andb orb bool_decide]; eauto.
  all: try (destruct (identifier nd); eauto).
  all: try (match goal with |- context [if ?b then _ else _] => destruct b end;
            cbn [bind_res]; eauto).
Qed.

(** X8: on a tree of the store, with a budget that covers its height,
    [__str__] returns a text exactly when every node it reaches of a class
    that prints both operands ([= + - * /]) has both; otherwise it raises the
    [ValueError] about the children of such a node, and nothing else. *)
Theorem to_text_of_tree (fuel : nat) (h : heap num) (s : shape num)
  (p : option addr) (a : addr) :
  repr h p s -> sroot s = Some a -> height s <= fuel ->
  if renders s then exists t, to_text fuel h a = Ok t
  else exists k, to_text fuel h a
                 = Raise (ValueError (class_name k
                            +:+ ": left/right children must both be valid")).
Proof.
  revert h p a fuel.
  change (forall (h : heap num) p a fuel,
            repr h p s -> sroot s = Some a -> height s <= fuel ->
            if renders s then exists t, to_text fuel h a = Ok t
            else missing_children (to_text fuel h a)).
  induction s as [|a0 f l IHl r IHr]; intros h p a fuel Hrepr Ha Hfuel; [done|].
  injection Ha as ->. cbn [height] in Hfuel.
  destruct fuel as [|fu]; [lia|].
  destruct Hrepr as (nd & Hnd & Hf & Hp & Hl & Hr & Hreprl & Hreprr).
  assert (nkind nd = f_kind f) as Hk by (by rewrite <- Hf).
  pose proof (to_text_node h a nd fu (renders l) (renders r) Hnd) as Hnode.
  rewrite Hl, Hr, Hk in Hnode.
  assert (present l = bool_decide (is_Some (sroot l))) as Hpl by (by destruct l).
  assert (present r = bool_decide (is_Some (sroot r))) as Hpr by (by destruct r).
  cbn [renders]. rewrite Hpl, Hpr. apply Hnode.
  - destruct (sroot l) as [c|] eqn:Hc; [|by destruct l].
    eapply IHl; eauto. lia.
  - destruct (sroot r) as [c|] eqn:Hc; [|by destruct r].
    eapply IHr; eauto. lia.
Qed.

(** ** Lists of nodes *)

Lemma count_nodes_visit_list (order : visit_order) (fuel : nat) :
  forall (h : heap num) (a : addr) (l : list addr),
    visit_list order fuel h a = Ok l -> count_nodes fuel h a = Ok (length l).
Proof.
  induction fuel as [|f IH]; intros h a l H; [done|].
  cbn [visit_list count_nodes] in *.
  destruct (deref h a) as [nd| | |]; try done. cbn [bind_res] in *.
  apply bind_res_Ok in H as (ls & Hl & H).
  apply bind_res_Ok in H as (rs & Hr & H). injection H as <-.
  assert (match left nd with None => Ok 0 | Some c => count_nodes f h c end
          = Ok (length ls)) as ->.
  { destruct (left nd); [by apply IH|]. by injection Hl as <-. }
  assert (match right nd with None => Ok 0 | Some c => count_nodes f h c end
          = Ok (length rs)) as ->.
  { destruct (right nd); [by apply IH|]. by injection Hr as <-. }
  cbn [bind_res]. f_equal. destruct order; simpl; rewrite ?length_app; simpl; lia.
Qed.

(** X9: whenever [toList] returns, in any of its three orders,
    [count_nodes] returns the length of that list. *)
Theorem count_nodes_is_length_of_toList (fuel : nat) (h : heap num) (a : addr)
  (visit : string) (l : list addr) :
  toList fuel h a visit = Ok l -> count_nodes fuel h a = Ok (length l).
Proof.
  unfold toList.
  destruct (String.eqb visit "inorder"); [apply count_nodes_visit_list|].
  destruct (String.eqb visit "preorder"); [apply count_nodes_visit_list|].
  destruct (String.eqb visit "postorder"); [apply count_nodes_visit_list|done].
Qed.

(** X10: [findByType] returns the nodes of the inorder [toList] that are
    instances of the class, in that order. *)
Theorem findByType_filters_toList (fuel : nat) (cls : kind -> bool) :
  forall (h : heap num) (a : addr) (l : list addr),
    toList fuel h a "inorder" = Ok l ->
    findByType fuel h a cls
    = Ok (List.filter (fun x => isinstance h (Some x) cls) l).
Proof.
  unfold toList. cbn [String.eqb Ascii.eqb Bool.eqb].
  induction fuel as [|f IH]; intros h a l H; [done|].
  cbn [visit_list findByType] in *. unfold deref in *.
  destruct (h !! a) as [nd|] eqn:Hnd; try done. cbn [bind_res] in *.
  apply bind_res_Ok in H as (ls & Hl & H).
  apply bind_res_Ok in H as (rs & Hr & H). injection H as <-.
  assert (match left nd with None => Ok [] | Some c => findByType f h c cls end
          = Ok (List.filter (fun x => isinstance h (Some x) cls) ls)) as ->.
  { destruct (left nd); [by apply IH|]. by injection Hl as <-. }
  assert (match right nd with None => Ok [] | Some c => findByType f h c cls end
          = Ok (List.filter (fun x => isinstance h (Some x) cls) rs)) as ->.
  { destruct (right nd); [by apply IH|]. by injection Hr as <-. }
  assert (isinstance h (Some a) cls = cls (nkind nd)) as Ha.
  { unfold isinstance, kind_at. by rewrite Hnd. }
  cbn [bind_res]. rewrite !List.filter_app. cbn [List.filter]. rewrite Ha.
  by destruct (cls (nkind nd)).
Qed.

Lemma visit_list_on_tree (order : visit_order) (s : shape num) :
  forall (h : heap num) p a fuel,
    repr h p s -> sroot s = Some a -> height s <= fuel ->
    visit_list order fuel h a = Ok (flatten order s).
Proof.
  induction s as [|a0 f l IHl r IHr]; intros h p a fuel Hrepr Ha Hfuel; [done|].
  injection Ha as ->. cbn [height] in Hfuel.
  destruct fuel as [|fu]; [lia|].
  destruct Hrepr as (nd & Hnd & Hf & Hp & Hl & Hr & Hreprl & Hreprr).
  cbn [visit_list]. unfold deref. rewrite Hnd. cbn [bind_res]. rewrite Hl, Hr.
  assert (match sroot l with None => Ok [] | Some c => visit_list order fu h c end
          = Ok (flatten order l)) as ->.
  { destruct (sroot l) eqn:Hc; [|by destruct l]. eapply IHl; eauto. lia. }
  assert (match sroot r with None => Ok [] | Some c => visit_list order fu h c end
          = Ok (flatten order r)) as ->.
  { destruct (sroot r) eqn:Hc; [|by destruct r]. eapply IHr; eauto. lia. }
  cbn [bind_res flatten]. by destruct order.
Qed.

Lemma flatten_in_shape (order : visit_order) (s : shape num) (x : addr) :
  x ∈ flatten order s <-> in_shape x s.
Proof.
  induction s as [|a f l IHl r IHr]; cbn [flatten in_shape].
  - by rewrite elem_of_nil.
  - destruct order; rewrite !elem_of_app, !list_elem_of_singleton, IHl, IHr; tauto.
Qed.

(** X11: on a tree of the store, with a budget that covers its height,
    [toList] returns the nodes of the tree in the order asked for, each
    order listing exactly the nodes of the tree, and [count_nodes] their
    number. *)
Theorem toList_of_tree (fuel : nat) (h : heap num) (s : shape num)
  (p : option addr) (a : addr) :
  repr h p s -> sroot s = Some a -> height s <= fuel ->
  toList fuel h a "inorder" = Ok (flatten Inorder s)
  /\ toList fuel h a "preorder" = Ok (flatten Preorder s)
  /\ toList fuel h a "postorder" = Ok (flatten Postorder s)
  /\ count_nodes fuel h a = Ok (length (flatten Inorder s))
  /\ forall order x, x ∈ flatten order s <-> in_shape x s.
Proof.
  intros Hrepr Ha Hfuel. unfold toList. cbn [String.eqb Ascii.eqb Bool.eqb].
  repeat split; try (by eapply visit_list_on_tree).
  - eapply count_nodes_visit_list. by eapply visit_list_on_tree.
  - by apply flatten_in_shape.
  - by apply flatten_in_shape.
Qed.


(** ** Terms, unlinking and negation *)

Lemma reparented_payload (h h' : heap num) (x : addr) (nd : node num) :
  reparented h h' -> h !! x = Some nd ->
  exists nd', h' !! x = Some nd' /\ nkind nd' = nkind nd
    /\ value nd' = value nd /\ identifier nd' = identifier nd
    /\ left nd' = left nd /\ right nd' = right nd.
Proof.
  intros R Hnd.
  destruct (R _ _ Hnd) as [H | (p & _ & H)]; eexists; (split; [exact H|]); done.
Qed.

Lemma set_left_ok (h : heap num) (p : addr) (c : option addr) :
  p < length h -> (forall x, c = Some x -> x < length h) ->
  exists h', set_left h p c = Ok h'.
Proof.
  intros Hp Hc. unfold set_left, deref.
  destruct (lookup_lt_is_Some_2 h p Hp) as (np & ->). cbn [bind_res].
  destruct c as [c|]; [|by eexists].
  destruct (lookup_lt_is_Some_2 (<[p:=with_left (Some c) np]> h) c) as (nc & ->).
  { rewrite length_insert. by apply Hc. }
  by eexists.
Qed.

Lemma set_right_ok (h : heap num) (p : addr) (c : option addr) :
  p < length h -> (forall x, c = Some x -> x < length h) ->
  exists h', set_right h p c = Ok h'.
Proof.
  intros Hp Hc. unfold set_right, deref.
  destruct (lookup_lt_is_Some_2 h p Hp) as (np & ->). cbn [bind_res].
  destruct c as [c|]; [|by eexists].
  destruct (lookup_lt_is_Some_2 (<[p:=with_right (Some c) np]> h) c) as (nc & ->).
  { rewrite length_insert. by apply Hc. }
  by eexists.
Qed.

(** A constructor call succeeds on operands that are objects of the store. *)
Lemma construct_binary_ok (k : kind) (h : heap num) (l r : option addr) :
  (forall x, l = Some x \/ r = Some x -> x < length h) ->
  exists h', construct_binary k h l r = Ok (h', length h).
Proof.
  intros Hc. unfold construct_binary, alloc.
  destruct (set_left_ok (h ++ [new_node k]) (length h) l) as (h1 & H1).
  { rewrite length_app. cbn. lia. }
  { intros x ->. rewrite length_app. cbn. specialize (Hc x (or_introl eq_refl)). lia. }
  rewrite H1. cbn [bind_res].
  destruct (set_left_writes _ _ _ _ H1) as (Hlen & _).
  rewrite length_app in Hlen. cbn in Hlen.
  destruct (set_right_ok h1 (length h) r) as (h2 & H2).
  { lia. }
  { intros x ->. specialize (Hc x (or_intror eq_refl)). lia. }
  rewrite H2. cbn [bind_res]. by eexists.
Qed.

Lemma construct_unary_ok (k : kind) (h : heap num) (c : option addr) :
  (forall x, c = Some x -> x < length h) ->
  exists h', construct_unary k h c = Ok (h', length h).
Proof.
  intros Hc. unfold construct_unary, alloc.
  destruct (set_left_ok (h ++ [with_child c (new_node k)]) (length h) c) as (h1 & H1).
  { rewrite length_app. cbn. lia. }
  { intros x ->. rewrite length_app. cbn. specialize (Hc x eq_refl). lia. }
  rewrite H1. cbn [bind_res]. by eexists.
Qed.

(** X12: [make_term] always returns, and [get_term_ex] reads back from the
    node it built the components it was given, the implicit coefficient 1
    left out, in every case but one: for a coefficient other than 1 with an
    exponent, [make_term] builds the power of a product, which [get_term_ex]
    does not take for a term. *)
Theorem get_term_ex_make_term (h : heap num) (coefficient : num)
  (variable : option string) (exponent : option num) :
  exists h' a,
    make_term h coefficient variable exponent = Ok (h', a)
    /\ get_term_ex h' (Some a)
       = Ok (if truthy_opt exponent then
               if num_eqb coefficient (num_of_Z 1)
               then Some (mkTermEx None variable exponent)
               else None
             else if truthy_str variable then
               if num_eqb coefficient (num_of_Z 1)
               then Some (mkTermEx None variable None)
               else Some (mkTermEx (Some coefficient) variable None)
             else Some (mkTermEx (Some coefficient) None None)).
Proof.
  unfold make_term, construct_constant, construct_variable, alloc.
  set (nc := with_value (Some coefficient) (new_node KConstant)).
  set (nv := with_identifier variable (new_node KVariable)).
  set (h1 := h ++ [nc]). set (h2 := h1 ++ [nv]).
  assert (length h1 = S (length h)) as Hlen1
    by (subst h1; rewrite length_app; cbn; lia).
  assert (length h2 = S (S (length h))) as Hlen2
    by (subst h2; rewrite length_app; cbn; lia).
  assert (h1 !! length h = Some nc) as Hc1.
  { subst h1. rewrite lookup_app_r by done. by rewrite Nat.sub_diag. }
  assert (h2 !! length h = Some nc) as Hc2 by (by apply lookup_app_l_Some).
  assert (h2 !! length h1 = Some nv) as Hv2.
  { subst h2. rewrite lookup_app_r by done. by rewrite Nat.sub_diag. }
  destruct (truthy_opt exponent) eqn:He; cbn [negb andb].
  2: destruct (truthy_str variable) eqn:Hv; cbn [negb andb].
  - (* an exponent *)
    rewrite !andb_false_r.
    destruct (construct_binary_ok KMultiply h2 (Some (length h)) (Some (length h1)))
      as (h3 & H3).
    { intros x [[= <-] | [= <-]]; lia. }
    rewrite H3. cbn [bind_res].
    destruct (construct_binary_writes _ _ _ _ _ _ H3)
      as (_ & Hlen3 & R3 & _ & nm & Hnm & Hkm & Hlm & Hrm & _).
    set (ne := with_value exponent (new_node KConstant)).
    set (h4 := h3 ++ [ne]).
    assert (length h4 = S (length h3)) as Hlen4
      by (subst h4; rewrite length_app; cbn; lia).
    assert (h4 !! length h3 = Some ne) as He4.
    { subst h4. rewrite lookup_app_r by done. by rewrite Nat.sub_diag. }
    assert (reparented h2 h4) as R4.
    { eapply reparented_trans; [exact R3|apply reparented_alloc]. }
    destruct (num_eqb coefficient (num_of_Z 1)) eqn:Hone.
    + destruct (construct_binary_ok KPower h4 (Some (length h1)) (Some (length h3)))
        as (h5 & H5).
      { intros x [[= <-] | [= <-]]; lia. }
      exists h5, (length h4). split; [exact H5|].
      destruct (construct_binary_writes _ _ _ _ _ _ H5)
        as (_ & Hlen5 & R5 & _ & np & Hnp & Hkp & Hlp & Hrp & _ & Hpp).
      destruct (reparented_payload _ _ _ _ (reparented_trans _ _ _ R4 R5) Hv2)
        as (nv' & Hnv' & Hkv & _ & Hiv & _).
      destruct (reparented_payload _ _ _ _ R5 He4)
        as (ne' & Hne' & Hke & Hve & _).
      unfold get_term_ex, deref. rewrite Hnp. cbn [bind_res].
      rewrite Hkp, Hlp, Hrp. cbn [kind_eqb]. unfold isinstance, kind_at.
      rewrite Hnv', Hne', Hkv, Hke, Hiv, Hve. reflexivity.
    + destruct (construct_binary_ok KPower h4 (Some (length h2)) (Some (length h3)))
        as (h5 & H5).
      { intros x [[= <-] | [= <-]]; lia. }
      exists h5, (length h4). split; [exact H5|].
      destruct (construct_binary_writes _ _ _ _ _ _ H5)
        as (_ & Hlen5 & R5 & _ & np & Hnp & Hkp & Hlp & Hrp & _ & Hpp).
      assert (h4 !! length h2 = Some nm) as Hnm4 by (by apply lookup_app_l_Some).
      destruct (reparented_payload _ _ _ _ R5 Hnm4)
        as (nm' & Hnm' & Hkm' & _).
      unfold get_term_ex, deref. rewrite Hnp. cbn [bind_res].
      rewrite Hkp, Hlp, Hrp. cbn [kind_eqb]. unfold isinstance, kind_at.
      rewrite Hnm', Hkm', Hkm. reflexivity.
  - (* a variable, no exponent *)
    rewrite !andb_true_r.
    destruct (num_eqb coefficient (num_of_Z 1)) eqn:Hone.
    + exists h2, (length h1). split; [reflexivity|].
      unfold get_term_ex, deref. rewrite Hv2. reflexivity.
    + destruct (construct_binary_ok KMultiply h2 (Some (length h)) (Some (length h1)))
        as (h3 & H3).
      { intros x [[= <-] | [= <-]]; lia. }
      rewrite H3. cbn [bind_res]. exists h3, (length h2). split; [reflexivity|].
      destruct (construct_binary_writes _ _ _ _ _ _ H3)
        as (_ & Hlen3 & R3 & _ & nm & Hnm & Hkm & Hlm & Hrm & _).
      destruct (reparented_payload _ _ _ _ R3 Hc2) as (nc' & Hnc' & Hkc & Hvc & _).
      destruct (reparented_payload _ _ _ _ R3 Hv2) as (nv' & Hnv' & Hkv & _ & Hiv & _).
      unfold get_term_ex, deref. rewrite Hnm. cbn [bind_res].
      rewrite Hkm, Hlm, Hrm. cbn [kind_eqb]. unfold isinstance, kind_at.
      rewrite Hnc', Hnv', Hkc, Hkv, Hvc, Hiv. reflexivity.
  - (* a constant *)
    exists h1, (length h). split; [reflexivity|].
    unfold get_term_ex, deref. rewrite Hc1. reflexivity.
Qed.

Lemma with_left_same (o : option addr) (nd : node num) :
  left nd = o -> with_left o nd = nd.
Proof. intros <-. by destruct nd. Qed.

Lemma with_right_same (o : option addr) (nd : node num) :
  right nd = o -> with_right o nd = nd.
Proof. intros <-. by destruct nd. Qed.

Lemma with_parent_None_same (nd : node num) :
  parent nd = None -> with_parent None nd = nd.
Proof. intros H. destruct nd. cbn in *. by subst. Qed.

(** [unlink] in closed form. *)
Lemma unlink_root (h : heap num) (a : addr) (nd : node num) :
  h !! a = Some nd -> parent nd = None ->
  unlink h (Some a) = Ok (h, Some a).
Proof.
  intros Hnd Hp. unfold unlink, deref. rewrite Hnd. cbn [bind_res].
  rewrite Hp. cbn [bind_res]. rewrite Hnd. cbn [bind_res]. rewrite Hp.
  cbn [bind_res]. rewrite Hnd. cbn [bind_res].
  rewrite with_parent_None_same by done. by rewrite list_insert_id.
Qed.

Lemma unlink_child (h : heap num) (a p : addr) (nd np : node num) :
  h !! a = Some nd -> parent nd = Some p -> p <> a -> h !! p = Some np ->
  unlink h (Some a)
  = Ok (<[a := with_parent None nd]> (<[p := detached a np]> h), Some a).
Proof.
  intros Hnd Hp Hne Hnp.
  assert (p < length h) as Hlt by (by eapply lookup_lt_Some).
  unfold unlink, deref. rewrite Hnd. cbn [bind_res]. rewrite Hp, Hnp.
  cbn [bind_res].
  set (np1 := with_left (if bool_decide (left np = Some a) then None else left np) np).
  assert ((if bool_decide (left np = Some a) then set_left h p None else Ok h)
          = Ok (<[p := np1]> h)) as ->.
  { subst np1. destruct (bool_decide (left np = Some a)).
    - unfold set_left, deref. by rewrite Hnp.
    - rewrite with_left_same by done. by rewrite list_insert_id. }
  cbn [bind_res]. rewrite list_lookup_insert_ne by done. rewrite Hnd.
  cbn [bind_res]. rewrite Hp. rewrite list_lookup_insert_eq by done.
  cbn [bind_res].
  assert (right np1 = right np) as Hr1 by (subst np1; by destruct np).
  rewrite Hr1.
  assert ((if bool_decide (right np = Some a) then set_right (<[p := np1]> h) p None
           else Ok (<[p := np1]> h))
          = Ok (<[p := detached a np]> h)) as ->.
  { unfold detached. fold np1. destruct (bool_decide (right np = Some a)).
    - unfold set_right, deref. rewrite list_lookup_insert_eq by done.
      cbn [bind_res]. by rewrite list_insert_insert_eq.
    - rewrite with_right_same by done. done. }
  cbn [bind_res]. rewrite list_lookup_insert_ne by done. rewrite Hnd.
  reflexivity.
Qed.

(** X13: [unlink] of a node that hangs under another object clears the
    node's [parent] and the links of that object that named the node, keeps
    its other link, and touches no third object. *)
Theorem unlink_detaches (h : heap num) (a p : addr) (nd np : node num) :
  h !! a = Some nd -> parent nd = Some p -> p <> a -> h !! p = Some np ->
  exists h',
    unlink h (Some a) = Ok (h', Some a)
    /\ h' !! a = Some (with_parent None nd)
    /\ (exists np', h' !! p = Some np'
          /\ left np' <> Some a /\ right np' <> Some a
          /\ (left np <> Some a -> left np' = left np)
          /\ (right np <> Some a -> right np' = right np)
          /\ nkind np' = nkind np /\ parent np' = parent np)
    /\ forall x, x <> a -> x <> p -> h' !! x = h !! x.
Proof.
  intros Hnd Hp Hne Hnp.
  assert (p < length h) as Hlt by (by eapply lookup_lt_Some).
  assert (a < length h) as Hlta by (by eapply lookup_lt_Some).
  eexists. split; [by apply (unlink_child h a p nd np)|].
  split; [|split].
  - apply list_lookup_insert_eq. by rewrite length_insert.
  - exists (detached a np). rewrite list_lookup_insert_ne by done.
    rewrite list_lookup_insert_eq by done. split; [done|].
    unfold detached. destruct np as [k v i c l r pp ch rc cn ct]. cbn.
    repeat split.
    + destruct (bool_decide (l = Some a)) eqn:E; [done|].
      by apply bool_decide_eq_false_1 in E.
    + destruct (bool_decide (r = Some a)) eqn:E; [done|].
      by apply bool_decide_eq_false_1 in E.
    + intros H. by rewrite bool_decide_eq_false_2.
    + intros H. by rewrite bool_decide_eq_false_2.
  - intros x Hxa Hxp. by rewrite !list_lookup_insert_ne.
Qed.

(** X14: when [unlink] returns, it returns its argument, the store keeps
    its size, and a second [unlink] of the same node changes nothing. *)
Theorem unlink_idempotent (h h' : heap num) (node r : option addr) :
  unlink h node = Ok (h', r) ->
  r = node /\ length h' = length h /\ unlink h' node = Ok (h', node).
Proof.
  destruct node as [a|]; [|by intros [= <- <-]].
  unfold unlink at 1. intros H.
  apply bind_res_Ok in H as (nd & _ & H).
  apply bind_res_Ok in H as (h1 & H1 & H).
  apply bind_res_Ok in H as (nd1 & _ & H).
  apply bind_res_Ok in H as (h2 & H2 & H).
  apply bind_res_Ok in H as (nd2 & Hnd2 & H). injection H as <- <-.
  unfold deref in Hnd2. destruct (h2 !! a) as [n2|] eqn:Ha2; [|done].
  injection Hnd2 as ->.
  assert (a < length h2) as Hlt by (by eapply lookup_lt_Some).
  assert (length h1 = length h) as L1.
  { destruct (parent nd) as [p|]; [|by injection H1 as <-].
    apply bind_res_Ok in H1 as (np & _ & H1).
    destruct (bool_decide _); [|by injection H1 as <-].
    by destruct (set_left_writes _ _ _ _ H1). }
  assert (length h2 = length h1) as L2.
  { destruct (parent nd1) as [p|]; [|by injection H2 as <-].
    apply bind_res_Ok in H2 as (np & _ & H2).
    destruct (bool_decide _); [|by injection H2 as <-].
    by destruct (set_right_writes _ _ _ _ H2). }
  split; [done|]. split; [rewrite length_insert; lia|].
  apply (unlink_root _ a (with_parent None nd2)).
  - by apply list_lookup_insert_eq.
  - by destruct nd2.
Qed.

(** X15: [negate] of a node without a parent, whose operands are objects of
    the store, raises [AttributeError]: the test before [save.set_side] is
    [save is None]. *)
Theorem negate_root_raises (h : heap num) (a : addr) (nd : node num) :
  h !! a = Some nd -> parent nd = None ->
  (forall c, left nd = Some c \/ right nd = Some c -> c < length h) ->
  negate h a = Raise AttributeError.
Proof.
  intros Hnd Hp Hc. unfold negate, deref. rewrite Hnd. cbn [bind_res].
  rewrite Hp. cbn [bind_res]. rewrite (unlink_root h a nd Hnd Hp).
  cbn [bind_res]. rewrite Hnd. cbn [bind_res].
  destruct (construct_unary_ok KNegate h (right nd)) as (h2 & H2).
  { intros x Hx. apply Hc. by right. }
  rewrite H2. cbn [bind_res].
  destruct (construct_unary_writes _ _ _ _ _ H2) as (_ & Hlen2 & _).
  destruct (construct_binary_ok KAdd h2 (left nd) (Some (length h))) as (h3 & H3).
  { intros x [Hx | [= <-]]; [|lia]. specialize (Hc x (or_introl Hx)). lia. }
  rewrite H3. reflexivity.
Qed.

(** X16: [negate] of a node that hangs under a parent returns a new
    addition without a parent, whose left operand is the node's and whose
    right operand is a new negation; the link of the parent that named the
    node is left empty: the new node is not put in its place. *)
Theorem negate_drops_node (h : heap num) (a p : addr) (nd np : node num) :
  h !! a = Some nd -> parent nd = Some p -> p <> a -> h !! p = Some np ->
  (forall c, left nd = Some c \/ right nd = Some c -> c < length h) ->
  exists h' nn np',
    negate h a = Ok (h', S (length h))
    /\ h' !! S (length h) = Some nn
    /\ nkind nn = KAdd /\ parent nn = None
    /\ left nn = left nd /\ right nn = Some (length h)
    /\ h' !! p = Some np'
    /\ left np' = (if bool_decide (left np = Some a) then None else left np)
    /\ right np' = (if bool_decide (right np = Some a) then None else right np).
Proof.
  intros Hnd Hp Hne Hnp Hc.
  assert (p < length h) as Hlt by (by eapply lookup_lt_Some).
  assert (a < length h) as Hlta by (by eapply lookup_lt_Some).
  unfold negate, deref. rewrite Hnd. cbn [bind_res]. rewrite Hp, Hnp.
  cbn [bind_res]. rewrite (unlink_child h a p nd np Hnd Hp Hne Hnp).
  cbn [bind_res].
  set (h1 := <[a:=with_parent None nd]> (<[p:=detached a np]> h)).
  assert (length h1 = length h) as Hlen1 by (subst h1; by rewrite !length_insert).
  assert (h1 !! a = Some (with_parent None nd)) as Ha1.
  { subst h1. apply list_lookup_insert_eq. by rewrite length_insert. }
  assert (h1 !! p = Some (detached a np)) as Hp1.
  { subst h1. rewrite list_lookup_insert_ne by done.
    by apply list_lookup_insert_eq. }
  rewrite Ha1. cbn [bind_res].
  assert (right (with_parent None nd) = right nd) as -> by (by destruct nd).
  assert (left (with_parent None nd) = left nd) as -> by (by destruct nd).
  destruct (construct_unary_ok KNegate h1 (right nd)) as (h2 & H2).
  { intros x Hx. rewrite Hlen1. apply Hc. by right. }
  rewrite H2. cbn [bind_res].
  destruct (construct_unary_writes _ _ _ _ _ H2) as (_ & Hlen2 & R2 & _).
  destruct (construct_binary_ok KAdd h2 (left nd) (Some (length h1))) as (h3 & H3).
  { intros x [Hx | [= <-]]; [|lia]. specialize (Hc x (or_introl Hx)). lia. }
  rewrite H3. cbn [bind_res].
  destruct (construct_binary_writes _ _ _ _ _ _ H3)
    as (_ & Hlen3 & R3 & _ & nn & Hnn & Hkn & Hln & Hrn & _ & Hpn).
  destruct (reparented_fields _ _ _ _ (reparented_trans _ _ _ R2 R3) Hp1)
    as (np' & Hnp' & _ & Hl' & Hr' & _).
  rewrite Hlen2, Hlen1 in *.
  exists h3, nn, np'. split; [reflexivity|]. split; [exact Hnn|].
  split; [exact Hkn|]. split.
  { apply Hpn.
    - intros Hx. specialize (Hc _ (or_introl Hx)). lia.
    - intros [= Hx]. lia. }
  split; [exact Hln|]. split; [exact Hrn|]. split; [exact Hnp'|].
  rewrite Hl', Hr'. unfold detached. by destruct np.
Qed.

(** ** Constant terms *)

(** X18: in a store where every negation keeps its operand in [child] as
    the constructor leaves it, an expression on which [is_const] answers
    [True] evaluates to the same outcome under every context. *)
Theorem is_const_evaluates_alike (fuel : nat) :
  forall (h : heap num) (a : addr),
    (forall x nx, h !! x = Some nx -> nkind nx = KNegate -> child nx = left nx) ->
    is_const fuel h (Some a) = Ok true ->
    forall f context context',
      evaluate f h context a = evaluate f h context' a.
Proof.
  induction fuel as [|fu IH]; intros h a Hinv H f context context'; [done|].
  cbn [is_const] in H. unfold deref in H.
  destruct (h !! a) as [nd|] eqn:Hnd; [|done]. cbn [bind_res] in H.
  destruct f as [|f]; [done|]. cbn [evaluate]. unfold deref. rewrite Hnd.
  cbn [bind_res].
  destruct (nkind nd) eqn:Hk; cbn in H; try done.
  rewrite (Hinv _ _ Hnd Hk) in H.
  destruct (left nd) as [c|]; [|done].
  by rewrite (IH h c Hinv H f context context').
Qed.


(** ** Type ids of the classes *)

Lemma constant_keys (s : string) (t : Z) :
  MathTypeKeys_item ("constant" +:+ s) = Ok t -> (16 <= t <= 25)%Z.
Proof.
  change ("constant" +:+ s) with
    (String "c" (String "o" (String "n" (String "s" (String "t" (String "a" (String "n" (String "t" s)))))))).
  unfold MathTypeKeys_item, MathTypeKeys. cbn.
  repeat match goal with
         | |- context [if ?b then _ else _] => destruct b
         end; intros [= <-]; lia.
Qed.

Lemma variable_keys (s : string) (t : Z) :
  MathTypeKeys_item ("variable" +:+ s) = Ok t -> (26 <= t <= 52)%Z.
Proof.
  change ("variable" +:+ s) with
    (String "v" (String "a" (String "r" (String "i" (String "a" (String "b" (String "l" (String "e" s)))))))).
  unfold MathTypeKeys_item, MathTypeKeys. cbn.
  repeat match goal with
         | |- context [if ?b then _ else _] => destruct b
         end; intros [= <-]; lia.
Qed.

Lemma type_id_slots (nd : node num) (t : Z) :
  type_id nd = Ok t -> class_slots (nkind nd) t.
Proof.
  unfold type_id. destruct (nkind nd); cbn [class_slots];
    try (vm_compute; congruence).
  - intros H. apply bind_res_Ok in H as (id & _ & H). by eapply constant_keys.
  - intros H. apply bind_res_Ok in H as (id & _ & H). by eapply variable_keys.
Qed.

(** X19: two nodes to which [type_id] gives the same number are of the
    same class: the operators have a slot each, the constants the slots 16
    to 25 and the variables the slots 26 to 52. *)
Theorem type_id_separates_classes (nd nd' : node num) (t : Z) :
  type_id nd = Ok t -> type_id nd' = Ok t -> nkind nd = nkind nd'.
Proof.
  intros H H'. apply type_id_slots in H. apply type_id_slots in H'.
  destruct (nkind nd), (nkind nd'); cbn [class_slots] in *; try done; lia.
Qed.

Lemma variable_no_slot (c : ascii) :
  is_letter c = false ->
  MathTypeKeys_item ("variable" +:+ ("_" +:+ String (ascii_lower c) ""))
  = Raise (KeyError ("variable_" +:+ String (ascii_lower c) "")).
Proof.
  destruct c as [[] [] [] [] [] [] [] []]; vm_compute; intros H;
    first [discriminate H | reflexivity].
Qed.

(** X20: [type_id] of a variable: slot 26 without an identifier,
    [IndexError] on the empty identifier and, on an identifier that starts
    with an ASCII character, the slot of that character in lower case when it
    is a letter and [KeyError] otherwise.  (Beyond ASCII the outcome follows
    the Unicode tables of [str.lower]: the Kelvin sign goes to the slot of
    [k].) *)
Theorem type_id_of_variable `{StrAscii0 : !StrAscii} (nd : node num) :
  nkind nd = KVariable ->
  match identifier nd with
  | None => type_id nd = Ok 26%Z
  | Some EmptyString => type_id nd = Raise IndexError
  | Some (String c _) =>
      (nat_of_ascii c < 128)%nat ->
      type_id nd
      = if is_letter c then Ok (letter_slot c)
        else Raise (KeyError ("variable_" +:+ String (ascii_lower c) ""))
  end.
Proof.
  intros Hk. unfold type_id. rewrite Hk.
  destruct (identifier nd) as [[|c s]|]; cbn [bind_res]; try reflexivity.
  intros Hascii. rewrite (lower_first_ascii c s Hascii).
  destruct (is_letter c) eqn:Hc.
  - by destruct (variable_slot c Hc).
  - by apply variable_no_slot.
Qed.


(** ** The terms of a sum *)

Lemma get_terms_walk_sum_free (s : shape num) :
  forall (h : heap num) p a fuel,
    repr h p s -> sroot s = Some a -> height s <= fuel -> sum_free s ->
    get_terms_walk fuel h a = Ok [].
Proof.
  induction s as [|a0 f l IHl r IHr]; intros h p a fuel Hrepr Ha Hfuel Hfree; [done|].
  injection Ha as ->. cbn [height] in Hfuel. destruct fuel as [|fu]; [lia|].
  destruct Hrepr as (nd & Hnd & Hf & Hp & Hl & Hr & Hreprl & Hreprr).
  destruct Hfree as (Hk & Hfl & Hfr).
  cbn [get_terms_walk]. unfold deref. rewrite Hnd. cbn [bind_res]. rewrite Hl, Hr.
  assert (match sroot l with None => Ok [] | Some c => get_terms_walk fu h c end
          = Ok []) as ->.
  { destruct (sroot l) eqn:Hc; [|done]. eapply IHl; eauto. lia. }
  assert (match sroot r with None => Ok [] | Some c => get_terms_walk fu h c end
          = Ok []) as ->.
  { destruct (sroot r) eqn:Hc; [|done]. eapply IHr; eauto. lia. }
  cbn [bind_res]. unfold get_terms_visit_fn.
  assert (nkind nd = f_kind f) as -> by (by rewrite <- Hf). by rewrite Hk.
Qed.

Lemma isinstance_sroot (h : heap num) (p : option addr) (s : shape num) :
  repr h p s -> isinstance h (sroot s) is_add_or_sub = is_sum s.
Proof.
  destruct s as [|a f l r]; [done|].
  intros (nd & Hnd & Hf & _). unfold isinstance, kind_at. cbn [sroot].
  rewrite Hnd. cbn [is_sum]. by rewrite <- Hf.
Qed.

Lemma get_terms_walk_sum (s : shape num) :
  forall (h : heap num) p a fuel,
    repr h p s -> sroot s = Some a -> height s <= fuel -> sum_of_terms s ->
    get_terms_walk fuel h a = Ok (if is_sum s then Some <$> summands s else []).
Proof.
  induction s as [|a0 f l IHl r IHr]; intros h p a fuel Hrepr Ha Hfuel Hsum; [done|].
  destruct (is_add_or_sub (f_kind f)) eqn:Hk; cbn [is_sum]; rewrite Hk.
  2: { eapply get_terms_walk_sum_free; eauto. cbn [sum_of_terms] in Hsum.
       rewrite Hk in Hsum. cbn [sum_free]. tauto. }
  injection Ha as ->. cbn [height] in Hfuel. destruct fuel as [|fu]; [lia|].
  pose proof Hrepr as (nd & Hnd & Hf & Hp & Hl & Hr & Hreprl & Hreprr).
  cbn [sum_of_terms] in Hsum. rewrite Hk in Hsum. destruct Hsum as (Hsl & Hsr).
  cbn [get_terms_walk]. unfold deref. rewrite Hnd. cbn [bind_res]. rewrite Hl, Hr.
  destruct l as [|al fl ll rl]; [done|]. destruct r as [|ar fr lr rr]; [done|].
  cbn [sroot].
  rewrite (IHl h (Some a) al fu Hreprl eq_refl ltac:(lia) Hsl).
  rewrite (IHr h (Some a) ar fu Hreprr eq_refl ltac:(lia) Hsr).
  cbn [bind_res]. unfold get_terms_visit_fn.
  assert (nkind nd = f_kind f) as -> by (by rewrite <- Hf). rewrite Hk, Hl, Hr.
  rewrite (isinstance_sroot h _ _ Hreprl), (isinstance_sroot h _ _ Hreprr).
  cbn [is_sum sroot summands]. rewrite Hk. cbn [summands].
  destruct (is_add_or_sub (f_kind fl)), (is_add_or_sub (f_kind fr));
    cbn [app]; rewrite ?fmap_app, ?app_nil_r; cbn [fmap list_fmap];
    rewrite ?fmap_app, <- ?app_assoc; done.
Qed.

Lemma summands_nonempty (s : shape num) : sum_of_terms s -> summands s <> [].
Proof.
  induction s as [|a f l IHl r IHr]; [done|]. cbn [sum_of_terms summands].
  destruct (is_add_or_sub (f_kind f)); [|done].
  intros (Hl & _) Happ. apply app_eq_nil in Happ as (H & _). by apply IHl.
Qed.

(** X21: on a tree that is a sum of terms (the additions and subtractions
    sit at the top, each with both operands), [get_terms] called on any node
    returns the terms of the whole tree from left to right; on a tree without
    additions and subtractions it returns the root when that is a product,
    and otherwise the node it was called on. *)
Theorem get_terms_of_sum (fuel : nat) (h : heap num) (s : shape num)
  (rt x : addr) :
  sroot s = Some rt -> repr h None s -> in_shape x s -> height s < fuel ->
  sum_of_terms s ->
  get_terms fuel h x
  = Ok (if is_sum s then Some <$> summands s
        else if isinstance h (Some rt) (kind_eqb KMultiply) then [Some rt]
        else [Some x]).
Proof.
  intros Hroot Hrepr Hin Hfuel Hsum.
  assert (Hrt : exists nrt, h !! rt = Some nrt /\ parent nrt = None).
  { destruct s as [|a f l r]; [done|]. injection Hroot as ->.
    destruct Hrepr as (nrt & ? & _ & ? & _). eauto. }
  destruct Hrt as (nrt & Hnrt & Hprt).
  assert (get_root 1 h rt = Ok rt) as Hg1.
  { cbn. unfold deref. rewrite Hnrt. cbn. by rewrite Hprt. }
  assert (Hgroot : get_root fuel h x = Ok rt).
  { eapply get_root_mono; [apply (get_root_in_shape h s None rt x 1 rt); done|lia]. }
  unfold get_terms. rewrite Hgroot. cbn [bind_res]. unfold deref. rewrite Hnrt.
  cbn [bind_res].
  rewrite (get_terms_walk_sum s h None rt fuel Hrepr Hroot ltac:(lia) Hsum).
  cbn [bind_res]. unfold isinstance, kind_at. rewrite Hnrt.
  destruct (is_sum s) eqn:Hs.
  - assert (kind_eqb KMultiply (nkind nrt) = false) as ->.
    { destruct s as [|a f l r]; [done|]. injection Hroot as ->.
      destruct Hrepr as (n0 & Hn0 & Hf & _). assert (n0 = nrt) as -> by congruence.
      cbn [is_sum] in Hs. rewrite <- Hf in Hs. cbn in Hs.
      by destruct (nkind nrt). }
    cbn [app]. pose proof (summands_nonempty s Hsum) as Hne.
    destruct (summands s); [done|]. reflexivity.
  - rewrite app_nil_r. by destruct (kind_eqb KMultiply (nkind nrt)).
Qed.

(** ** What a clone writes *)

Lemma tracked_only_agree (h h1 h2 : heap num) :
  tracked_only h h1 -> length h1 <= length h2 ->
  (forall x, x < length h -> h2 !! x = h1 !! x) ->
  tracked_only h h2.
Proof.
  intros (L & T) L2 A. split; [lia|]. intros x nd Hx.
  rewrite A by (by eapply lookup_lt_Some). by apply T.
Qed.

Lemma with_cloned_node_twice (o o' : option addr) (nd : node num) :
  with_cloned_node o (with_cloned_node o' nd) = with_cloned_node o nd.
Proof. by destruct nd. Qed.

Lemma tracked_only_trans (h1 h2 h3 : heap num) :
  tracked_only h1 h2 -> tracked_only h2 h3 -> tracked_only h1 h3.
Proof.
  intros (L12 & T12) (L23 & T23). split; [lia|]. intros x nd Hx.
  destruct (T12 _ _ Hx) as [Hx2 | (Ht & c & Hc & Hx2)];
    destruct (T23 _ _ Hx2) as [Hx3 | (Ht3 & c3 & Hc3 & Hx3)].
  - by left.
  - right. split; [done|]. exists c3. split; [lia|done].
  - right. split; [done|]. by exists c.
  - right. split; [done|]. exists c3. split; [lia|].
    by rewrite with_cloned_node_twice in Hx3.
Qed.

Lemma tracked_only_alloc (h : heap num) (n : node num) : tracked_only h (h ++ [n]).
Proof.
  split; [rewrite length_app; lia|]. intros x nd Hx. left.
  by apply lookup_app_l_Some.
Qed.

Lemma set_left_above (h h' : heap num) (lo p c : addr) :
  set_left h p (Some c) = Ok h' -> lo <= p -> lo <= c ->
  length h' = length h /\ forall x, x < lo -> h' !! x = h !! x.
Proof.
  unfold set_left, deref. destruct (h !! p) as [np|]; [|done]. cbn [bind_res].
  destruct (<[p:=with_left (Some c) np]> h !! c) as [nc|]; [|done].
  cbn [bind_res]. intros [= <-] Hp Hc. split; [by rewrite !length_insert|].
  intros x Hx. rewrite !list_lookup_insert_ne by lia. done.
Qed.

Lemma set_right_above (h h' : heap num) (lo p c : addr) :
  set_right h p (Some c) = Ok h' -> lo <= p -> lo <= c ->
  length h' = length h /\ forall x, x < lo -> h' !! x = h !! x.
Proof.
  unfold set_right, deref. destruct (h !! p) as [np|]; [|done]. cbn [bind_res].
  destruct (<[p:=with_right (Some c) np]> h !! c) as [nc|]; [|done].
  cbn [bind_res]. intros [= <-] Hp Hc. split; [by rewrite !length_insert|].
  intros x Hx. rewrite !list_lookup_insert_ne by lia. done.
Qed.

(** X22: whenever [clone] returns, the copy is a new object and no object
    that existed before is changed, but for the recording of a new object in
    [cloned_node] of an object that is being tracked ([cloned_target]
    set). *)
Theorem clone_writes_only_tracking (pf fuel : nat) :
  forall (h h' : heap num) (a r : addr),
    clone pf fuel h a = Ok (h', r) ->
    r = length h
    /\ length h < length h'
    /\ forall x nd, h !! x = Some nd ->
         h' !! x = Some nd
         \/ (cloned_target nd <> None
             /\ exists c, length h <= c
                  /\ h' !! x = Some (with_cloned_node (Some c) nd)).
Proof.
  cut (forall (h h' : heap num) (a r : addr),
         clone pf fuel h a = Ok (h', r) ->
         r = length h /\ length h < length h' /\ tracked_only h h').
  { intros Hc h h' a r H. destruct (Hc _ _ _ _ H) as (? & ? & _ & ?). done. }
  induction fuel as [|f IH]; intros h h' a r H; [done|].
  cbn [clone] in H. unfold deref at 1 in H.
  destruct (h !! a) as [nd|] eqn:Hnd; [|done]. cbn [bind_res] in H.
  unfold alloc in H.
  apply bind_res_Ok in H as (h1 & H1 & H).
  apply bind_res_Ok in H as (h2 & H2 & H).
  apply bind_res_Ok in H as (h3 & H3 & H).
  apply bind_res_Ok in H as (nr & Hnr & H). injection H as <- <-.
  set (h0 := h ++ [new_node (nkind nd)]) in *.
  assert (length h0 = S (length h)) as L0
    by (subst h0; rewrite length_app; cbn; lia).
  assert (tracked_only h h0) as T0 by apply tracked_only_alloc.
  assert (length h0 <= length h1 /\ tracked_only h h1) as (L1 & T1).
  { destruct (left nd) as [l|]; [|by injection H1 as <-].
    apply bind_res_Ok in H1 as ([hl l'] & Hl & H1).
    destruct (IH _ _ _ _ Hl) as (-> & Ll & Tl).
    destruct (set_left_above _ _ (length h) _ _ H1) as (Le & A); [lia..|].
    split; [lia|].
    eapply (tracked_only_agree h hl h1); [by eapply tracked_only_trans|lia|].
    intros x Hx. by apply A. }
  assert (length h1 <= length h2 /\ tracked_only h h2) as (L2 & T2).
  { destruct (right nd) as [rr|]; [|by injection H2 as <-].
    apply bind_res_Ok in H2 as ([hr r'] & Hr & H2).
    destruct (IH _ _ _ _ Hr) as (-> & Lr & Tr).
    destruct (set_right_above _ _ (length h) _ _ H2) as (Le & A); [lia..|].
    split; [lia|].
    eapply (tracked_only_agree h hr h2); [by eapply tracked_only_trans|lia|].
    intros x Hx. by apply A. }
  assert (length h2 = length h3 /\ tracked_only h h3) as (L3 & T3).
  { destruct (cloned_target nd) as [t|] eqn:Ht; [|by injection H3 as <-].
    apply bind_res_Ok in H3 as (path & _ & H3).
    destruct (String.eqb path t); [|by injection H3 as <-].
    apply bind_res_Ok in H3 as (self & Hself & H3). injection H3 as <-.
    unfold deref in Hself. destruct (h2 !! a) as [s0|] eqn:Ha; [|done].
    injection Hself as ->. split; [by rewrite length_insert|].
    destruct T2 as (L & T). split; [rewrite length_insert; lia|].
    intros x ndx Hx. destruct (decide (x = a)) as [->|Hne].
    - assert (ndx = nd) as -> by congruence.
      right. split; [by rewrite Ht|]. exists (length h). split; [done|].
      rewrite list_lookup_insert_eq by (by eapply lookup_lt_Some).
      destruct (T _ _ Hx) as [Hx2 | (_ & c & _ & Hx2)].
      + congruence.
      + rewrite Ha in Hx2. injection Hx2 as ->.
        by rewrite with_cloned_node_twice.
    - rewrite list_lookup_insert_ne by done. by apply T. }
  split; [done|]. split.
  { destruct (nkind nd); rewrite ?length_insert; lia. }
  eapply (tracked_only_agree h h3); [done| |].
  - destruct (nkind nd); rewrite ?length_insert; lia.
  - intros x Hx. destruct (nkind nd); try done;
      by rewrite list_lookup_insert_ne by lia.
Qed.

(** ** Summaries of built terms *)

(** The constructor of a binary node, on two operands that are distinct
    objects of the store. *)
Lemma construct_binary_exact (k : kind) (h : heap num) (l r : addr)
  (nl nr : node num) :
  h !! l = Some nl -> h !! r = Some nr -> l <> r ->
  exists h',
    construct_binary k h (Some l) (Some r) = Ok (h', length h)
    /\ length h' = S (length h)
    /\ h' !! length h = Some (with_right (Some r) (with_left (Some l) (new_node k)))
    /\ h' !! l = Some (with_parent (Some (length h)) nl)
    /\ h' !! r = Some (with_parent (Some (length h)) nr)
    /\ forall x, x <> l -> x <> r -> x < length h -> h' !! x = h !! x.
Proof.
  intros Hl Hr Hne.
  assert (l < length h) as Ll by (by eapply lookup_lt_Some).
  assert (r < length h) as Lr by (by eapply lookup_lt_Some).
  set (h0 := h ++ [new_node k]).
  assert (length h0 = S (length h)) as L0
    by (subst h0; rewrite length_app; cbn; lia).
  assert (h0 !! length h = Some (new_node k)) as H0p.
  { subst h0. rewrite lookup_app_r by done. by rewrite Nat.sub_diag. }
  assert (h0 !! l = Some nl) as H0l by (by apply lookup_app_l_Some).
  assert (h0 !! r = Some nr) as H0r by (by apply lookup_app_l_Some).
  unfold construct_binary, alloc. fold h0.
  rewrite (set_left_fresh h0 (length h) l _ _ H0p H0l) by lia. cbn [bind_res].
  set (h1 := <[l:=with_parent (Some (length h)) nl]>
               (<[length h:=with_left (Some l) (new_node k)]> h0)).
  assert (h1 !! length h = Some (with_left (Some l) (new_node k))) as H1p.
  { subst h1. rewrite list_lookup_insert_ne by lia.
    apply list_lookup_insert_eq. lia. }
  assert (h1 !! r = Some nr) as H1r.
  { subst h1. by rewrite !list_lookup_insert_ne by lia. }
  rewrite (set_right_fresh h1 (length h) r _ _ H1p H1r) by lia. cbn [bind_res].
  eexists. split; [reflexivity|]. subst h1.
  split; [by rewrite !length_insert|]. split; [|split; [|split]].
  - rewrite list_lookup_insert_ne by lia. apply list_lookup_insert_eq.
    rewrite !length_insert. lia.
  - rewrite !list_lookup_insert_ne by lia. apply list_lookup_insert_eq.
    rewrite length_insert. lia.
  - apply list_lookup_insert_eq. rewrite !length_insert. lia.
  - intros x Hxl Hxr Hx. rewrite !list_lookup_insert_ne by lia.
    subst h0. by apply lookup_app_l.
Qed.

Lemma findByType_leaf (f : nat) (h : heap num) (a : addr) (nd : node num)
  (cls : kind -> bool) :
  h !! a = Some nd -> left nd = None -> right nd = None ->
  findByType (S f) h a cls = Ok (if cls (nkind nd) then [a] else []).
Proof.
  intros Hnd Hl Hr. cbn [findByType]. unfold deref. rewrite Hnd. cbn [bind_res].
  rewrite Hl, Hr. cbn [bind_res]. by rewrite app_nil_r.
Qed.

Lemma findByType_binary (f : nat) (h : heap num) (a l r : addr) (nd : node num)
  (cls : kind -> bool) (ls rs : list addr) :
  h !! a = Some nd -> left nd = Some l -> right nd = Some r ->
  findByType f h l cls = Ok ls -> findByType f h r cls = Ok rs ->
  findByType (S f) h a cls = Ok (ls ++ (if cls (nkind nd) then [a] else []) ++ rs).
Proof.
  intros Hnd Hl Hr Hls Hrs. cbn [findByType]. unfold deref. rewrite Hnd.
  cbn [bind_res]. rewrite Hl, Hr, Hls. cbn [bind_res]. by rewrite Hrs.
Qed.

Ltac decide_kinds :=
  repeat match goal with
         | |- context [kind_eqb ?a ?b] =>
             let v := eval vm_compute in (kind_eqb a b) in
             change (kind_eqb a b) with v
         end;
  cbn [app andb negb];
  rewrite ?(bool_decide_eq_true_2 (@nil addr = [])) by done;
  repeat match goal with
         | |- context [bool_decide (?x :: ?l = [])] =>
             rewrite (bool_decide_eq_false_2 (x :: l = [])) by done
         end;
  cbn [app andb negb bind_res].

Lemma has_type_under_found (fuel : nat) (h : heap num) (c : addr)
  (cls : kind -> bool) (found : list addr) :
  findByType fuel h c cls = Ok found ->
  has_type_under fuel h (Some c) cls = Ok (negb (bool_decide (found = []))).
Proof. intros H. unfold has_type_under. by rewrite H. Qed.

Lemma sort_identifiers_single (x : option string) :
  sort_identifiers [x] = Ok [x].
Proof. by destruct x. Qed.

Lemma get_term_product (f : nat) (h : heap num) (m c v : addr)
  (nm ncst nvar : node num) :
  h !! m = Some nm -> nkind nm = KMultiply -> parent nm = None ->
  left nm = Some c -> right nm = Some v ->
  h !! c = Some ncst -> nkind ncst = KConstant -> parent ncst = Some m ->
  left ncst = None -> right ncst = None ->
  h !! v = Some nvar -> nkind nvar = KVariable ->
  left nvar = None -> right nvar = None ->
  get_term (S (S f)) h m
  = Ok (Some (mkTerm [value ncst] [identifier nvar] None [c] [v] None)).
Proof.
  intros Hm Hkm Hpm Hlm Hrm Hc Hkc Hpc Hlc Hrc Hv Hkv Hlv Hrv.
  assert (FBc : forall cls, findByType (S (S f)) h c cls
                            = Ok (if cls KConstant then [c] else [])).
  { intros cls. rewrite (findByType_leaf _ h c ncst cls Hc Hlc Hrc). by rewrite Hkc. }
  assert (FBv : forall cls, findByType (S (S f)) h v cls
                            = Ok (if cls KVariable then [v] else [])).
  { intros cls. rewrite (findByType_leaf _ h v nvar cls Hv Hlv Hrv). by rewrite Hkv. }
  assert (FBm : forall cls, findByType (S (S f)) h m cls
                            = Ok ((if cls KConstant then [c] else [])
                                  ++ (if cls KMultiply then [m] else [])
                                  ++ (if cls KVariable then [v] else []))).
  { intros cls.
    rewrite (findByType_binary (S f) h m c v nm cls _ _ Hm Hlm Hrm
               (eq_trans (findByType_leaf _ h c ncst cls Hc Hlc Hrc) eq_refl)
               (eq_trans (findByType_leaf _ h v nvar cls Hv Hlv Hrv) eq_refl)).
    by rewrite Hkc, Hkv, Hkm. }
  unfold get_term, deref. rewrite Hm. cbn [bind_res]. rewrite Hkm, Hpm, Hlm, Hrm.
  cbn [kind_eqb andb is_add_or_sub].
  rewrite !(has_type_under_found _ _ _ _ _ (FBm _)).
  rewrite !(has_type_under_found _ _ _ _ _ (FBc _)).
  rewrite !(has_type_under_found _ _ _ _ _ (FBv _)).
  rewrite !FBm. decide_kinds.
  cbn [deref_all filter_addrs]. unfold deref. rewrite Hv, Hc. cbn [bind_res fmap list_fmap].
  rewrite sort_identifiers_single. cbn [bind_res].
  assert (filter_coefficients h None ncst = true) as ->.
  { unfold filter_coefficients, isinstance, kind_at. rewrite Hpc, Hm, Hkm.
    by rewrite bool_decide_eq_false_2. }
  cbn [deref_all]. unfold deref. rewrite Hc. cbn [bind_res resolve_all].
  assert (resolve_coefficients h ncst = Ok (value ncst)) as ->.
  { unfold resolve_coefficients, isinstance, kind_at. by rewrite Hpc, Hm, Hkm. }
  reflexivity.
Qed.

Lemma get_term_power (f : nat) (h : heap num) (p v e : addr)
  (np nvar nexp : node num) :
  h !! p = Some np -> nkind np = KPower -> parent np = None ->
  left np = Some v -> right np = Some e ->
  h !! v = Some nvar -> nkind nvar = KVariable ->
  left nvar = None -> right nvar = None ->
  h !! e = Some nexp -> nkind nexp = KConstant -> parent nexp = Some p ->
  left nexp = None -> right nexp = None ->
  get_term (S (S f)) h p
  = Ok (Some (mkTerm [] [identifier nvar] (value nexp) [] [v] (Some p))).
Proof.
  intros Hp Hkp Hpp Hlp Hrp Hv Hkv Hlv Hrv He Hke Hpe Hle Hre.
  assert (FBv : forall cls, findByType (S (S f)) h v cls
                            = Ok (if cls KVariable then [v] else [])).
  { intros cls. rewrite (findByType_leaf _ h v nvar cls Hv Hlv Hrv). by rewrite Hkv. }
  assert (FBe : forall cls, findByType (S (S f)) h e cls
                            = Ok (if cls KConstant then [e] else [])).
  { intros cls. rewrite (findByType_leaf _ h e nexp cls He Hle Hre). by rewrite Hke. }
  assert (FBp : forall cls, findByType (S (S f)) h p cls
                            = Ok ((if cls KVariable then [v] else [])
                                  ++ (if cls KPower then [p] else [])
                                  ++ (if cls KConstant then [e] else []))).
  { intros cls.
    rewrite (findByType_binary (S f) h p v e np cls _ _ Hp Hlp Hrp
               (eq_trans (findByType_leaf _ h v nvar cls Hv Hlv Hrv) eq_refl)
               (eq_trans (findByType_leaf _ h e nexp cls He Hle Hre) eq_refl)).
    by rewrite Hkv, Hke, Hkp. }
  unfold get_term, deref. rewrite Hp. cbn [bind_res]. rewrite Hkp, Hpp, Hlp, Hrp.
  cbn [kind_eqb andb is_add_or_sub].
  rewrite !(has_type_under_found _ _ _ _ _ (FBp _)).
  rewrite !(has_type_under_found _ _ _ _ _ (FBv _)).
  rewrite !(has_type_under_found _ _ _ _ _ (FBe _)).
  rewrite !FBp. decide_kinds.
  rewrite Hp. cbn [bind_res]. rewrite Hrp.
  assert (isinstance h (Some e) (kind_eqb KConstant) = true) as ->.
  { unfold isinstance, kind_at. by rewrite He, Hke. }
  rewrite He. cbn [bind_res].
  cbn [deref_all filter_addrs]. unfold deref. rewrite Hv, He.
  cbn [bind_res fmap list_fmap].
  rewrite sort_identifiers_single. cbn [bind_res].
  assert (filter_coefficients h None nexp = false) as ->.
  { unfold filter_coefficients, isinstance, kind_at. rewrite Hpe, Hp, Hkp.
    by rewrite bool_decide_eq_false_2. }
  cbn [deref_all bind_res resolve_all]. reflexivity.
Qed.

Lemma get_term_power_of_product (f : nat) (h : heap num) (p m c v e : addr)
  (np nm ncst nvar nexp : node num) :
  h !! p = Some np -> nkind np = KPower -> parent np = None ->
  left np = Some m -> right np = Some e ->
  h !! m = Some nm -> nkind nm = KMultiply ->
  left nm = Some c -> right nm = Some v ->
  h !! c = Some ncst -> nkind ncst = KConstant -> parent ncst = Some m ->
  left ncst = None -> right ncst = None ->
  h !! v = Some nvar -> nkind nvar = KVariable ->
  left nvar = None -> right nvar = None ->
  h !! e = Some nexp -> nkind nexp = KConstant -> parent nexp = Some p ->
  left nexp = None -> right nexp = None ->
  get_term (S (S (S f))) h p
  = Ok (Some (mkTerm [value ncst] [identifier nvar] (value nexp) [c] [v] (Some p))).
Proof.
  intros Hp Hkp Hpp Hlp Hrp Hm Hkm Hlm Hrm Hc Hkc Hpc Hlc Hrc
         Hv Hkv Hlv Hrv He Hke Hpe Hle Hre.
  assert (FBe : forall cls, findByType (S (S (S f))) h e cls
                            = Ok (if cls KConstant then [e] else [])).
  { intros cls. rewrite (findByType_leaf _ h e nexp cls He Hle Hre). by rewrite Hke. }
  assert (FBm : forall g cls, findByType (S (S g)) h m cls
                            = Ok ((if cls KConstant then [c] else [])
                                  ++ (if cls KMultiply then [m] else [])
                                  ++ (if cls KVariable then [v] else []))).
  { intros g cls.
    rewrite (findByType_binary (S g) h m c v nm cls _ _ Hm Hlm Hrm
               (eq_trans (findByType_leaf _ h c ncst cls Hc Hlc Hrc) eq_refl)
               (eq_trans (findByType_leaf _ h v nvar cls Hv Hlv Hrv) eq_refl)).
    by rewrite Hkc, Hkv, Hkm. }
  assert (FBp : forall cls, findByType (S (S (S f))) h p cls
                            = Ok (((if cls KConstant then [c] else [])
                                   ++ (if cls KMultiply then [m] else [])
                                   ++ (if cls KVariable then [v] else []))
                                  ++ (if cls KPower then [p] else [])
                                  ++ (if cls KConstant then [e] else []))).
  { intros cls.
    rewrite (findByType_binary (S (S f)) h p m e np cls _ _ Hp Hlp Hrp
               (FBm f cls)
               (eq_trans (findByType_leaf _ h e nexp cls He Hle Hre) eq_refl)).
    by rewrite Hke, Hkp. }
  unfold get_term, deref. rewrite Hp. cbn [bind_res]. rewrite Hkp, Hpp, Hlp, Hrp.
  cbn [kind_eqb andb is_add_or_sub].
  rewrite !(has_type_under_found _ _ _ _ _ (FBp _)).
  rewrite !(has_type_under_found _ _ _ _ _ (FBm _ _)).
  rewrite !(has_type_under_found _ _ _ _ _ (FBe _)).
  rewrite !FBp. decide_kinds.
  rewrite Hp. cbn [bind_res]. rewrite Hrp.
  assert (isinstance h (Some e) (kind_eqb KConstant) = true) as ->.
  { unfold isinstance, kind_at. by rewrite He, Hke. }
  rewrite He. cbn [bind_res].
  cbn [deref_all filter_addrs]. unfold deref. rewrite Hv, Hc, He.
  cbn [bind_res fmap list_fmap].
  rewrite sort_identifiers_single. cbn [bind_res].
  assert (filter_coefficients h None nexp = false) as ->.
  { unfold filter_coefficients, isinstance, kind_at. rewrite Hpe, Hp, Hkp.
    by rewrite bool_decide_eq_false_2. }
  assert (filter_coefficients h None ncst = true) as ->.
  { unfold filter_coefficients, isinstance, kind_at. rewrite Hpc, Hm, Hkm.
    by rewrite bool_decide_eq_false_2. }
  cbn [deref_all]. unfold deref. rewrite Hc. cbn [bind_res resolve_all].
  assert (resolve_coefficients h ncst = Ok (value ncst)) as ->.
  { unfold resolve_coefficients, isinstance, kind_at. by rewrite Hpc, Hm, Hkm. }
  reflexivity.
Qed.

(** X23: [get_term] reads back from the node built by [make_term] the
    coefficient (left out when it is 1 beside a variable or an exponent), the
    variable and the exponent it was given, in all five shapes [make_term]
    builds, the power of a product included. *)
Theorem get_term_make_term (f : nat) (h : heap num) (coefficient : num)
  (variable : option string) (exponent : option num) :
  exists h' a ncs nvs ne,
    make_term h coefficient variable exponent = Ok (h', a)
    /\ get_term (S (S (S f))) h' a
       = Ok (Some (mkTerm
                     (if num_eqb coefficient (num_of_Z 1)
                         && (truthy_str variable || truthy_opt exponent)
                      then [] else [Some coefficient])
                     (if truthy_str variable || truthy_opt exponent
                      then [variable] else [])
                     (if truthy_opt exponent then exponent else None)
                     ncs nvs ne)).
Proof.
  unfold make_term, construct_constant, construct_variable, alloc.
  set (nc := with_value (Some coefficient) (new_node KConstant)).
  set (nv := with_identifier variable (new_node KVariable)).
  set (h1 := h ++ [nc]). set (h2 := h1 ++ [nv]).
  assert (length h1 = S (length h)) as Hlen1
    by (subst h1; rewrite length_app; cbn; lia).
  assert (length h2 = S (S (length h))) as Hlen2
    by (subst h2; rewrite length_app; cbn; lia).
  assert (h1 !! length h = Some nc) as Hc1.
  { subst h1. rewrite lookup_app_r by done. by rewrite Nat.sub_diag. }
  assert (h2 !! length h = Some nc) as Hc2 by (by apply lookup_app_l_Some).
  assert (h2 !! length h1 = Some nv) as Hv2.
  { subst h2. rewrite lookup_app_r by done. by rewrite Nat.sub_diag. }
  destruct (construct_binary_exact KMultiply h2 (length h) (length h1) nc nv Hc2 Hv2)
    as (h3 & H3 & Hlen3 & Hm3 & Hc3 & Hv3 & _); [lia|].
  destruct (truthy_opt exponent) eqn:He; cbn [negb andb orb].
  2: destruct (truthy_str variable) eqn:Hv; cbn [negb andb orb].
  - (* an exponent *)
    rewrite !andb_false_r, !orb_true_r, andb_true_r. rewrite H3. cbn [bind_res].
    set (ne := with_value exponent (new_node KConstant)).
    set (h4 := h3 ++ [ne]).
    assert (length h4 = S (length h3)) as Hlen4
      by (subst h4; rewrite length_app; cbn; lia).
    assert (h4 !! length h3 = Some ne) as He4.
    { subst h4. rewrite lookup_app_r by done. by rewrite Nat.sub_diag. }
    pose proof (lookup_app_l_Some _ [ne] _ _ Hm3) as Hm4.
    pose proof (lookup_app_l_Some _ [ne] _ _ Hc3) as Hc4.
    pose proof (lookup_app_l_Some _ [ne] _ _ Hv3) as Hv4.
    fold h4 in Hm4, Hc4, Hv4.
    destruct (num_eqb coefficient (num_of_Z 1)) eqn:Hone.
    + destruct (construct_binary_exact KPower h4 (length h1) (length h3) _ _ Hv4 He4)
        as (h5 & H5 & Hlen5 & Hp5 & Hv5 & He5 & _); [lia|].
      exists h5, (length h4), [], [length h1], (Some (length h4)).
      split; [exact H5|].
      by rewrite (get_term_power (S f) h5 (length h4) (length h1) (length h3)
                    _ _ _ Hp5 eq_refl eq_refl eq_refl eq_refl
                    Hv5 eq_refl eq_refl eq_refl He5 eq_refl eq_refl eq_refl eq_refl).
    + destruct (construct_binary_exact KPower h4 (length h2) (length h3) _ _ Hm4 He4)
        as (h5 & H5 & Hlen5 & Hp5 & Hm5 & He5 & Hoth); [lia|].
      exists h5, (length h4), [length h], [length h1], (Some (length h4)).
      split; [exact H5|].
      assert (h5 !! length h = Some (with_parent (Some (length h2)) nc)) as Hc5.
      { rewrite Hoth by lia. exact Hc4. }
      assert (h5 !! length h1 = Some (with_parent (Some (length h2)) nv)) as Hv5.
      { rewrite Hoth by lia. exact Hv4. }
      by rewrite (get_term_power_of_product f h5 (length h4) (length h2) (length h)
                    (length h1) (length h3) _ _ _ _ _
                    Hp5 eq_refl eq_refl eq_refl eq_refl
                    Hm5 eq_refl eq_refl eq_refl
                    Hc5 eq_refl eq_refl eq_refl eq_refl
                    Hv5 eq_refl eq_refl eq_refl
                    He5 eq_refl eq_refl eq_refl eq_refl).
  - (* a variable, no exponent *)
    rewrite !andb_true_r.
    destruct (num_eqb coefficient (num_of_Z 1)) eqn:Hone.
    + exists h2, (length h1), [], [length h1], None. split; [reflexivity|].
      unfold get_term, deref. rewrite Hv2. reflexivity.
    + rewrite H3. cbn [bind_res].
      exists h3, (length h2), [length h], [length h1], None.
      split; [reflexivity|].
      by rewrite (get_term_product (S f) h3 (length h2) (length h) (length h1)
                    _ _ _ Hm3 eq_refl eq_refl eq_refl eq_refl
                    Hc3 eq_refl eq_refl eq_refl eq_refl
                    Hv3 eq_refl eq_refl eq_refl).
  - (* a constant *)
    rewrite andb_false_r.
    exists h1, (length h), [length h], [], None. split; [reflexivity|].
    unfold get_term, deref. rewrite Hc1. reflexivity.
Qed.


(** ** The swap through a clone *)

(** X24: the caller's pattern end to end: when the rule accepts a node [n]
    of a tree, the swap applied to the node returned by [n.clone_from_root()]
    succeeds, and the root it records in the change evaluates to every value
    the root of the original tree evaluates to. *)
Theorem swap_on_clone_preserves_value `{!NumCommutative num} (fuel : nat)
  (rule : CommutativeSwapRule) (h : heap num) (s : shape num) (rt n : addr) :
  sroot s = Some rt -> repr h None s -> in_shape n s -> height s < fuel ->
  can_apply_to rule h n = true ->
  exists h' c h'' change rt',
    clone_from_root fuel h n None = Ok (h', c)
    /\ apply_to fuel rule h' c = Ok (h'', change)
    /\ root change = Some rt'
    /\ forall f context v,
         evaluate f h context rt = Ok v -> evaluate f h'' context rt' = Ok v.
Proof.
  intros Hroot Hrepr Hin Hfuel Hcan.
  destruct (clone_from_root_run fuel h s rt n Hroot Hrepr Hin Hfuel)
    as (h' & c & s' & Hrun & Hsame & Hrepr' & Hm & Hcorr & Hlo).
  destruct (corr_subtrees h h' s s' None None n c Hcorr Hrepr Hrepr' Hm)
    as (sx & sc & px & pc & H1 & H2 & H3 & H4 & H5 & _).
  assert (can_apply_to rule h' c = true) as Hcan'.
  { rewrite <- Hcan. symmetry. eapply can_apply_to_alike; eauto using mirror_alike. }
  destruct (corr_in_shape _ _ _ _ Hcorr) as (_ & Hcin).
  destruct (can_apply_to_kind _ _ _ Hcan') as (nc & Hnc & Hkc).
  destruct (mirror_roots _ _ Hm) as [(Hn & _) | (a & f & l & r & a' & f' & l' & r' & -> & ->)];
    [congruence|].
  injection Hroot as ->.
  assert (get_root 1 h' a' = Ok a') as Hg1.
  { destruct Hrepr' as (nrt & Hnrt & _ & Hp & _).
    cbn. unfold deref. rewrite Hnrt. cbn. by rewrite Hp. }
  assert (get_root fuel h' c = Ok a') as Hg.
  { eapply get_root_mono;
      [apply (get_root_in_shape h' _ None a' c 1 a' Hrepr' eq_refl Hcin Hg1)|].
    rewrite (mirror_height _ _ Hm). lia. }
  pose proof (apply_to_in_place fuel rule h' c nc a' Hnc
                (repr_linked _ _ _ _ _ H2 H5 Hnc) Hcan' Hg) as Happly.
  exists h', c, (<[c := swapped nc]> h'), (mkChange c (Some c) (Some a')), a'.
  split; [exact Hrun|]. split; [exact Happly|]. split; [reflexivity|].
  intros fu context v Hv.
  apply (evaluate_swapped h' c nc context Hnc Hkc).
  rewrite <- Hv. symmetry.
  exact (evaluate_alike context _ _ h h' None None rt a' fu (mirror_alike _ _ Hm)
           Hrepr Hrepr' eq_refl eq_refl).
Qed.


End Properties.

(** ** Concrete runs *)

(** C3, witness: the multiply node of [4x] under [preferred=False]. *)
Lemma can_apply_to_amended_witness :
  heap_4x !! 2 = Some (Node KMultiply None None None (Some 0) (Some 1) None
                         false false None None)
  /\ can_apply_to {| preferred := false |} heap_4x 2 = false.
Proof.
  split; [reflexivity|].
  pose proof (can_apply_to_amended {| preferred := false |} heap_4x 2 _ eq_refl)
    as (_ & _ & H & _).
  apply H; reflexivity.
Defined.

(** C3, counterexample to the wording: with [preferred=True] the rule
    accepts the canonical [4x], where the stated test refuses it; with
    [preferred=False] it refuses [4x], where the stated test accepts it. *)
Lemma can_apply_to_stated_counterexample :
  can_apply_to {| preferred := true |} heap_4x 2 = true
  /\ stated_can_apply_to {| preferred := true |} heap_4x 2 = false
  /\ can_apply_to {| preferred := false |} heap_4x 2 = false
  /\ stated_can_apply_to {| preferred := false |} heap_4x 2 = true.
Proof. repeat split; reflexivity. Qed.

(** C8, witness: the constants [12] and [-12] and the variable [Xy] over
    Python ints. *)
Lemma type_id_amended_witness :
  type_id (with_value (Some (PyInt 12)) (new_node KConstant)) = Ok 18%Z
  /\ type_id (with_value (Some (PyInt (-12))) (new_node KConstant)) = Ok 24%Z
  /\ type_id (with_identifier (Some "Xy") (new_node (num := pynum) KVariable)) = Ok 50%Z.
Proof.
  pose proof (@type_id_amended pynum pynum_Num ascii_Str pynum_NumIntegers
                ascii_StrAscii) as (_ & Hc & Hv & _).
  split; [|split].
  - apply (Hc (with_value (Some (PyInt 12)) (new_node KConstant)) 12%Z); reflexivity.
  - apply (Hc (with_value (Some (PyInt (-12))) (new_node KConstant)) (-12)%Z);
      reflexivity.
  - apply (Hv (with_identifier (Some "Xy") (new_node KVariable)) "X"%char "y");
      reflexivity.
Defined.

(** C8, counterexample to the wording: the constant [12] goes to the slot
    of [2], its last digit, not to the slot of its first significant digit
    [1]; and [type_id] of an [AbsExpression] or a [SgnExpression] fails on a
    key the table does not have. *)
Lemma type_id_stated_counterexample :
  type_id (with_value (Some (PyInt 12)) (new_node KConstant)) = Ok 18%Z
  /\ (16 + first_significant_digit 12 = 17)%Z
  /\ type_id (new_node (num := pynum) KAbs) = Raise (KeyError "abs")
  /\ type_id (new_node (num := pynum) KSgn) = Raise (KeyError "sgn").
Proof. repeat split; reflexivity. Qed.

(** C4, the failing input: [x] bound to [0].  The identifier is present in
    the bindings, yet [evaluate] raises instead of returning the bound
    value; a non-zero binding is returned, and empty bindings raise. *)
Lemma evaluate_variable_bound_to_zero :
  evaluate 1 heap_x (Some {[ "x" := PyInt 0 ]}) 0
  = Raise (Exception "cannot evaluate statement with None variable: x")
  /\ evaluate 1 heap_x (Some {[ "x" := PyInt 7 ]}) 0 = Ok (Some (PyInt 7))
  /\ evaluate 1 heap_x (Some ∅) 0
     = Raise (Exception "cannot evaluate statement with None variable: x").
Proof. repeat split; reflexivity. Qed.

(** C5, the failing input: [x - x] differentiated by [x].  The result is an
    [AddExpression] of the two derivatives, worth [1 + 1 = 2] where the
    difference rule gives [1 - 1 = 0]; and a constant cannot be
    differentiated at all. *)
Lemma differentiate_subtract_and_constant :
  (let* (h1, d) := differentiate 2 heap_x_minus_x 2 "x" in
   let* nd := deref h1 d in
   let* v := evaluate 2 h1 (Some {[ "x" := PyInt 5 ]}) d in
   Ok (nkind nd, v)) = Ok (KAdd, Some (PyInt 2))
  /\ differentiate 1 heap_4x 0 "x"
     = Raise (Exception "cannot differentiate an abstract MathExpression node").
Proof. split; reflexivity. Qed.

(** C9, witness: [x] and [3y] inside [x + 3y], two terms with different
    variables. *)
Lemma terms_are_like_amended_witness :
  exists one two,
    get_term 3 heap_x_plus_3y 0 = Ok (Some one)
    /\ get_term 3 heap_x_plus_3y 3 = Ok (Some two)
    /\ variables one = [Some "x"] /\ variables two = [Some "y"]
    /\ terms_are_like 3 heap_x_plus_3y (TExpr 0) (TExpr 3) = Ok false.
Proof.
  eexists _, _.
  split; [reflexivity|]. split; [reflexivity|].
  split; [reflexivity|]. split; [reflexivity|].
  destruct (terms_are_like_amended 3 heap_x_plus_3y 0 3 _ _ eq_refl eq_refl)
    as (r & Hr & _ & _).
  rewrite Hr. f_equal.
  vm_compute in Hr. congruence.
Defined.

(** C9, counterexample to the wording: [get_term] extracts a summary from
    [2^3] (exponent [3], no variable) and from [5] (no exponent, no
    variable); the exponents differ and [terms_are_like] still answers
    [True]. *)
Lemma terms_are_like_stated_counterexample :
  exists one two,
    get_term 2 heap_two_terms 2 = Ok (Some one)
    /\ get_term 2 heap_two_terms 3 = Ok (Some two)
    /\ exponent one = Some (PyInt 3) /\ exponent two = None
    /\ variables one = variables two
    /\ terms_are_like 2 heap_two_terms (TExpr 2) (TExpr 3) = Ok true.
Proof. eexists _, _. repeat split; reflexivity. Qed.

Lemma linked_a_plus_b :
  linked heap_a_plus_b 2
    (Node KAdd None None None (Some 0) (Some 1) None false false None None).
Proof.
  intros c [Hc | Hc]; injection Hc as <-; eexists; split; reflexivity.
Qed.

(** C1, witness: [a + b] with [a = 2], [b = 3] is worth [5] before and
    after the swap. *)
Lemma swap_preserves_value_witness :
  evaluate 2 heap_a_plus_b (Some {[ "a" := PyInt 2; "b" := PyInt 3 ]}) 2 = Ok (Some (PyInt 5))
  /\ exists h' change rt',
      apply_to 2 {| preferred := true |} heap_a_plus_b 2 = Ok (h', change)
      /\ root change = Some rt'
      /\ evaluate 2 h' (Some {[ "a" := PyInt 2; "b" := PyInt 3 ]}) rt' = Ok (Some (PyInt 5)).
Proof.
  split; [reflexivity|].
  apply (swap_preserves_value 2 {| preferred := true |} heap_a_plus_b 2 2
           (Node KAdd None None None (Some 0) (Some 1) None false false None None)).
  - reflexivity.
  - exact linked_a_plus_b.
  - reflexivity.
  - reflexivity.
  - reflexivity.
Defined.

(** C2, witness: the swap of [a + b]. *)
Lemma apply_to_mutates_in_place_witness :
  exists h' change nd',
    apply_to 1 {| preferred := true |} heap_a_plus_b 2 = Ok (h', change)
    /\ length h' = length heap_a_plus_b
    /\ h' !! 2 = Some nd'
    /\ left nd' = Some 1 /\ right nd' = Some 0 /\ changed nd' = true
    /\ (forall x, x <> 2 -> h' !! x = heap_a_plus_b !! x)
    /\ before change = 2 /\ after change = Some 2 /\ root change = Some 2.
Proof.
  apply (apply_to_mutates_in_place 1 {| preferred := true |} heap_a_plus_b 2 2
           (Node KAdd None None None (Some 0) (Some 1) None false false None None)).
  - reflexivity.
  - exact linked_a_plus_b.
  - reflexivity.
  - reflexivity.
Defined.

(** C2, counterexample to the wording: after [apply_to] on the add node of
    [a + b] the node of the caller's tree has its children exchanged, no
    object was allocated, and the change refers to the objects of the
    caller's tree. *)
Lemma apply_to_stated_counterexample :
  exists h' change nd',
    apply_to 1 {| preferred := true |} heap_a_plus_b 2 = Ok (h', change)
    /\ (left <$> heap_a_plus_b !! 2) = Some (Some 0)
    /\ h' !! 2 = Some nd' /\ left nd' = Some 1
    /\ length h' = length heap_a_plus_b
    /\ before change = 2 /\ after change = Some 2 /\ root change = Some 2.
Proof. eexists _, _, _. repeat split; reflexivity. Qed.

(** C10, witness: [a + b] swapped twice. *)
Lemma double_swap_restores_witness :
  exists h1 c1,
    apply_to 1 {| preferred := true |} heap_a_plus_b 2 = Ok (h1, c1)
    /\ (KAdd = KAdd \/ true = true ->
        can_apply_to {| preferred := true |} h1 2 = true)
    /\ (can_apply_to {| preferred := true |} h1 2 = true ->
        exists h2 c2 nd2,
          apply_to 1 {| preferred := true |} h1 2 = Ok (h2, c2)
          /\ h2 !! 2 = Some nd2
          /\ left nd2 = Some 0 /\ right nd2 = Some 1
          /\ h2 = <[2 := with_changed true
                           (Node KAdd None None None (Some 0) (Some 1) None
                              false false None None)]> heap_a_plus_b
          /\ root c2 = Some 2
          /\ (false = false ->
              forall f x, to_text f h2 x = to_text f heap_a_plus_b x)).
Proof.
  apply (double_swap_restores 1 {| preferred := true |} heap_a_plus_b 2 2
           (Node KAdd None None None (Some 0) (Some 1) None false false None None)).
  - reflexivity.
  - exact linked_a_plus_b.
  - reflexivity.
  - reflexivity.
Defined.

(** C7, witness: [4 - (4 - 7)], whose right child is wrapped. *)
Lemma to_text_binary_amended_witness :
  to_text 2 heap_nested_subtract 0 = Ok "4"
  /\ to_text 2 heap_nested_subtract 3 = Ok "4 - 7"
  /\ to_text 3 heap_nested_subtract 4 = Ok "4 - (4 - 7)".
Proof.
  split; [reflexivity|]. split; [reflexivity|].
  pose proof (to_text_binary_amended 2 heap_nested_subtract 4 0 3
                (Node KSubtract None None None (Some 0) (Some 3) None
                   false false None None) "4" "4 - 7"
                eq_refl eq_refl eq_refl eq_refl eq_refl eq_refl) as (H & _ & _).
  rewrite H; [reflexivity|]. right. right. left. reflexivity.
Defined.

(** C7, counterexample to the wording: the right child of the outer power
    in [2^(3^4)] is a binary node of equal priority that does not wrap
    itself, so the stated rendering is [2 ^ (3^4)]; the code prints
    [2^3^4]. *)
Lemma to_text_power_stated_counterexample :
  heap_power_tower !! 4
  = Some (Node KPower None None None (Some 0) (Some 3) None false false None None)
  /\ to_text 3 heap_power_tower 4 = Ok "2^3^4"
  /\ to_text 2 heap_power_tower 0 = Ok "2"
  /\ to_text 2 heap_power_tower 3 = Ok "3^4"
  /\ stated_binary_text heap_power_tower
       (Node KPower None None None (Some 0) (Some 3) None false false None None)
       0 3 "2" "3^4" = "2 ^ (3^4)".
Proof. repeat split; reflexivity. Qed.

(** C6, witness: the node [3y] of [x + 3y], tracked through a clone from
    the root. *)
Lemma clone_from_root_tracks_witness :
  exists h' c s',
    clone_from_root 4 heap_x_plus_3y 3 None = Ok (h', c)
    /\ repr h' None shape_x_plus_3y
    /\ repr h' None s' /\ mirror shape_x_plus_3y s' /\ corr shape_x_plus_3y s' 3 c
    /\ (forall x, in_shape x s' -> length heap_x_plus_3y <= x)
    /\ forall f, to_text f h' c = to_text f heap_x_plus_3y 3.
Proof.
  apply (clone_from_root_tracks 4 heap_x_plus_3y shape_x_plus_3y 4 3).
  - reflexivity.
  - repeat first [ reflexivity | eexists | split ].
  - repeat split.
  - cbn. auto.
  - cbn. lia.
Defined.

(** X1, witness: the node [3y] of [x + 3y]. *)
Lemma clone_from_root_preserves_value_witness :
  exists h' c,
    clone_from_root 4 heap_x_plus_3y 3 None = Ok (h', c)
    /\ forall f context,
         evaluate f h' context c = evaluate f heap_x_plus_3y context 3
         /\ evaluate f h' context 3 = evaluate f heap_x_plus_3y context 3.
Proof.
  apply (clone_from_root_preserves_value 4 heap_x_plus_3y shape_x_plus_3y 4 3).
  - reflexivity.
  - repeat first [ reflexivity | eexists | split ].
  - cbn. auto.
  - cbn. lia.
Defined.

(** X2, witness: the node [3y] of [x + 3y] under [preferred=False]. *)
Lemma can_apply_to_clone_witness :
  exists h' c,
    clone_from_root 4 heap_x_plus_3y 3 None = Ok (h', c)
    /\ can_apply_to {| preferred := false |} h' c
       = can_apply_to {| preferred := false |} heap_x_plus_3y 3.
Proof.
  apply (can_apply_to_clone 4 {| preferred := false |} heap_x_plus_3y
           shape_x_plus_3y 4 3).
  - reflexivity.
  - repeat first [ reflexivity | eexists | split ].
  - cbn. auto.
  - cbn. lia.
Defined.

(** X3, witness: the node [3y] of [x + 3y] under [preferred=True]. *)
Lemma apply_to_clone_isolated_witness :
  exists h' c h'' change,
    clone_from_root 4 heap_x_plus_3y 3 None = Ok (h', c)
    /\ apply_to 4 {| preferred := true |} h' c = Ok (h'', change)
    /\ after change = Some c
    /\ length heap_x_plus_3y <= c
    /\ repr h'' None shape_x_plus_3y
    /\ forall f,
         to_text f h'' 3 = to_text f heap_x_plus_3y 3
         /\ forall context,
              evaluate f h'' context 3 = evaluate f heap_x_plus_3y context 3.
Proof.
  apply (apply_to_clone_isolated 4 {| preferred := true |} heap_x_plus_3y
           shape_x_plus_3y 4 3).
  - reflexivity.
  - repeat first [ reflexivity | eexists | split ].
  - cbn. auto.
  - cbn. lia.
  - reflexivity.
Defined.

(** X4, witness: [a + b] differentiated by [a]. *)
Lemma differentiate_returns_new_root_witness :
  exists h' d,
    differentiate 2 heap_a_plus_b 2 "a" = Ok (h', d)
    /\ length heap_a_plus_b <= d
    /\ (exists nd, h' !! d = Some nd /\ parent nd = None)
    /\ forall x nd, heap_a_plus_b !! x = Some nd ->
         exists p, h' !! x = Some (with_parent p nd).
Proof.
  eexists _, _. split; [reflexivity|].
  eapply (differentiate_returns_new_root 2 heap_a_plus_b _ 2 _ "a"). reflexivity.
Defined.

(** X5, witness: [x * y] differentiated by [x]. *)
Lemma differentiate_keeps_values_witness :
  exists h' d,
    differentiate 2 heap_x_times_y 2 "x" = Ok (h', d)
    /\ forall f context x,
         evaluate f heap_x_times_y context x <> Dangling ->
         evaluate f h' context x = evaluate f heap_x_times_y context x.
Proof.
  eexists _, _. split; [reflexivity|].
  eapply (differentiate_keeps_values 2 heap_x_times_y _ 2 _ "x"). reflexivity.
Defined.

(** X6, witness: [4x], whose left operand is a constant. *)
Lemma differentiate_blocked_witness :
  blocked heap_4x 2
  /\ forall fuel r, differentiate fuel heap_4x 2 "x" <> Ok r.
Proof.
  assert (blocked heap_4x 2) as Hb.
  { eapply blocked_left; [reflexivity..|]. eapply blocked_here; reflexivity. }
  split; [exact Hb|].
  intros fuel. exact (differentiate_blocked "x" fuel heap_4x 2 Hb).
Defined.

(** X7, witness: the operands of [x * y] after differentiating by [x]. *)
Lemma differentiate_reparents_operands_witness :
  exists h' d,
    differentiate 2 heap_x_times_y 2 "x" = Ok (h', d)
    /\ forall c, c < length heap_x_times_y -> Some 0 = Some c \/ Some 1 = Some c ->
         exists nc p, h' !! c = Some nc /\ parent nc = Some p /\ 2 < p.
Proof.
  eexists _, _. split; [reflexivity|].
  eapply (differentiate_reparents_operands 2 heap_x_times_y _ 2 _
           (Node KMultiply None None None (Some 0) (Some 1) None
                 false false None None) "x").
  - reflexivity.
  - by left.
  - reflexivity.
Defined.

(** X8, witness: [x + 3y]. *)
Lemma to_text_of_tree_witness :
  exists t, to_text 3 heap_x_plus_3y 4 = Ok t.
Proof.
  apply (to_text_of_tree 3 heap_x_plus_3y shape_x_plus_3y None 4).
  - repeat first [ reflexivity | eexists | split ].
  - reflexivity.
  - cbn. lia.
Defined.

(** X9, witness: [a + b] in preorder. *)
Lemma count_nodes_is_length_of_toList_witness :
  toList 2 heap_a_plus_b 2 "preorder" = Ok [2; 0; 1]
  /\ count_nodes 2 heap_a_plus_b 2 = Ok (length [2; 0; 1]).
Proof.
  split; [reflexivity|].
  apply (count_nodes_is_length_of_toList 2 heap_a_plus_b 2 "preorder" [2; 0; 1]).
  reflexivity.
Defined.

(** X10, witness: the variables of [x + 3y]. *)
Lemma findByType_filters_toList_witness :
  toList 3 heap_x_plus_3y 4 "inorder" = Ok [0; 4; 1; 3; 2]
  /\ findByType 3 heap_x_plus_3y 4 (kind_eqb KVariable)
     = Ok (List.filter (fun x => isinstance heap_x_plus_3y (Some x) (kind_eqb KVariable))
             [0; 4; 1; 3; 2]).
Proof.
  split; [reflexivity|].
  apply (findByType_filters_toList 3 (kind_eqb KVariable) heap_x_plus_3y 4).
  reflexivity.
Defined.

(** X11, witness: [x + 3y]. *)
Lemma toList_of_tree_witness :
  toList 3 heap_x_plus_3y 4 "inorder" = Ok (flatten Inorder shape_x_plus_3y)
  /\ toList 3 heap_x_plus_3y 4 "preorder" = Ok (flatten Preorder shape_x_plus_3y)
  /\ toList 3 heap_x_plus_3y 4 "postorder" = Ok (flatten Postorder shape_x_plus_3y)
  /\ count_nodes 3 heap_x_plus_3y 4 = Ok (length (flatten Inorder shape_x_plus_3y))
  /\ forall order x, x ∈ flatten order shape_x_plus_3y <-> in_shape x shape_x_plus_3y.
Proof.
  apply (toList_of_tree 3 heap_x_plus_3y shape_x_plus_3y None 4).
  - repeat first [ reflexivity | eexists | split ].
  - reflexivity.
  - cbn. lia.
Defined.

(** X13, witness: the variable [a] of [a + b]. *)
Lemma unlink_detaches_witness :
  exists h',
    unlink heap_a_plus_b (Some 0) = Ok (h', Some 0)
    /\ h' !! 0 = Some (with_parent None
                         (Node KVariable None (Some "a") None None None (Some 2)
                               false false None None))
    /\ (exists np', h' !! 2 = Some np'
          /\ left np' <> Some 0 /\ right np' <> Some 0
          /\ (Some 0 <> Some 0 -> left np' = Some 0)
          /\ (Some 1 <> Some 0 -> right np' = Some 1)
          /\ nkind np' = KAdd /\ parent np' = None)
    /\ forall x, x <> 0 -> x <> 2 -> h' !! x = heap_a_plus_b !! x.
Proof.
  apply (unlink_detaches heap_a_plus_b 0 2
           (Node KVariable None (Some "a") None None None (Some 2)
                 false false None None)
           (Node KAdd None None None (Some 0) (Some 1) None
                 false false None None)).
  - reflexivity.
  - reflexivity.
  - lia.
  - reflexivity.
Defined.

(** X14, witness: the variable [a] of [a + b]. *)
Lemma unlink_idempotent_witness :
  exists h',
    unlink heap_a_plus_b (Some 0) = Ok (h', Some 0)
    /\ Some 0 = Some 0 /\ length h' = length heap_a_plus_b
    /\ unlink h' (Some 0) = Ok (h', Some 0).
Proof.
  eexists. split; [reflexivity|].
  eapply (unlink_idempotent heap_a_plus_b _ (Some 0) (Some 0)). reflexivity.
Defined.

(** X15, witness: the root of [x - x]. *)
Lemma negate_root_raises_witness :
  negate heap_x_minus_x 2 = Raise AttributeError.
Proof.
  apply (negate_root_raises heap_x_minus_x 2
           (Node KSubtract None None None (Some 0) (Some 1) None
                 false false None None)).
  - reflexivity.
  - reflexivity.
  - intros c [[= <-] | [= <-]]; cbn; lia.
Defined.

(** X16, witness: the inner subtraction of the nested subtraction. *)
Lemma negate_drops_node_witness :
  exists nd np,
    heap_nested_subtract !! 3 = Some nd /\ heap_nested_subtract !! 4 = Some np
    /\ exists h' nn np',
         negate heap_nested_subtract 3 = Ok (h', S (length heap_nested_subtract))
         /\ h' !! S (length heap_nested_subtract) = Some nn
         /\ nkind nn = KAdd /\ parent nn = None
         /\ left nn = left nd /\ right nn = Some (length heap_nested_subtract)
         /\ h' !! 4 = Some np'
         /\ left np' = (if bool_decide (left np = Some 3) then None else left np)
         /\ right np' = (if bool_decide (right np = Some 3) then None else right np).
Proof.
  eexists _, _. split; [reflexivity|]. split; [reflexivity|].
  eapply (negate_drops_node heap_nested_subtract 3 4).
  - reflexivity.
  - reflexivity.
  - lia.
  - reflexivity.
  - intros c [[= <-] | [= <-]]; cbn; lia.
Defined.

(** X18, witness: the negation [-3]. *)
Lemma is_const_evaluates_alike_witness :
  is_const 2 heap_neg_3 (Some 1) = Ok true
  /\ forall f context context',
       evaluate f heap_neg_3 context 1 = evaluate f heap_neg_3 context' 1.
Proof.
  split; [reflexivity|].
  apply (is_const_evaluates_alike 2 heap_neg_3 1).
  - intros [|[|x]] nx Hx Hk; cbn in Hx; try done; by injection Hx as <-.
  - reflexivity.
Defined.

(** X19, witness: two additions. *)
Lemma type_id_separates_classes_witness :
  type_id (new_node (num := pynum) KAdd) = Ok 3%Z
  /\ type_id (with_changed true (new_node (num := pynum) KAdd)) = Ok 3%Z
  /\ nkind (new_node (num := pynum) KAdd)
     = nkind (with_changed true (new_node (num := pynum) KAdd)).
Proof.
  split; [reflexivity|]. split; [reflexivity|].
  apply (type_id_separates_classes _ _ 3); reflexivity.
Defined.

(** X20, witness: the variable [x]. *)
Lemma type_id_of_variable_witness :
  (nat_of_ascii "x" < 128)%nat
  /\ type_id (with_identifier (Some "x") (new_node (num := pynum) KVariable))
     = Ok (letter_slot "x").
Proof.
  split; [vm_compute; lia|].
  apply (type_id_of_variable
           (with_identifier (Some "x") (new_node (num := pynum) KVariable))).
  - reflexivity.
  - vm_compute. lia.
Defined.

(** X21, witness: the terms of [x + 3y], asked from the node [3y]. *)
Lemma get_terms_of_sum_witness :
  get_terms 4 heap_x_plus_3y 3 = Ok [Some 0; Some 3].
Proof.
  apply (get_terms_of_sum 4 heap_x_plus_3y shape_x_plus_3y 4 3).
  - reflexivity.
  - repeat first [ reflexivity | eexists | split ].
  - cbn. auto.
  - cbn. lia.
  - repeat split.
Defined.

(** X22, witness: a clone of [a + b]. *)
Lemma clone_writes_only_tracking_witness :
  exists h' r,
    clone 3 3 heap_a_plus_b 2 = Ok (h', r)
    /\ r = length heap_a_plus_b
    /\ length heap_a_plus_b < length h'
    /\ forall x nd, heap_a_plus_b !! x = Some nd ->
         h' !! x = Some nd
         \/ (cloned_target nd <> None
             /\ exists c, length heap_a_plus_b <= c
                  /\ h' !! x = Some (with_cloned_node (Some c) nd)).
Proof.
  eexists _, _. split; [reflexivity|].
  eapply (clone_writes_only_tracking 3 3 heap_a_plus_b _ 2 _). reflexivity.
Defined.

(** X24, witness: the swap of [3y] in a clone of [x + 3y]. *)
Lemma swap_on_clone_preserves_value_witness :
  exists h' c h'' change rt',
    clone_from_root 4 heap_x_plus_3y 3 None = Ok (h', c)
    /\ apply_to 4 {| preferred := true |} h' c = Ok (h'', change)
    /\ root change = Some rt'
    /\ forall f context v,
         evaluate f heap_x_plus_3y context 4 = Ok v ->
         evaluate f h'' context rt' = Ok v.
Proof.
  apply (swap_on_clone_preserves_value 4 {| preferred := true |} heap_x_plus_3y
           shape_x_plus_3y 4 3).
  - reflexivity.
  - repeat first [ reflexivity | eexists | split ].
  - cbn. auto.
  - cbn. lia.
  - reflexivity.
Defined.
